(** * Voice notes: the capture, transcribe and persist pipeline of [App.tsx]

    A shallow embedding of the React component [App] (and of the [Login]
    form it mounts): the component's state, the closures its handlers
    capture at each render, the pending asynchronous continuations
    ([getUserMedia], the recorder's [stop] event, [fetch]), and the two
    effects that hydrate and persist the note collection through
    [localStorage].

    The strings of the page are modelled as [string]: sequences of code
    units below 256 (the Latin-1 range), on which [toLowerCase] maps one
    code unit to one code unit.  What the search does on other texts is
    modelled apart, in [UTF16], on sequences of 16-bit code units, where
    [toLowerCase] depends on the position of a capital sigma in its word;
    the two models are shown to agree on the strings below 256. *)

From Stdlib Require Import String Ascii List ZArith NArith Bool Lia Arith.
From Stdlib Require Import DecimalString DecimalZ.
Import ListNotations.

Local Open Scope string_scope.
Local Open Scope list_scope.

(** ** JavaScript strings *)

Module JS.

(** [String.prototype.toLowerCase] on one code unit below 256: the letters
    A..Z and the Latin-1 capitals U+00C0..U+00DE (U+00D7, the multiplication
    sign, is not a letter) move 32 places up; nothing else changes. *)
Definition lower_unit (c : ascii) : ascii :=
  let n := N_of_ascii c in
  if ((65 <=? n) && (n <=? 90))%N then ascii_of_N (n + 32)
  else if ((192 <=? n) && (n <=? 222) && negb (n =? 215))%N then ascii_of_N (n + 32)
  else c.

Fixpoint toLowerCase (s : string) : string :=
  match s with
  | EmptyString => EmptyString
  | String c r => String (lower_unit c) (toLowerCase r)
  end.

(** [s.startsWith(p)] *)
Fixpoint startsWith (s p : string) : bool :=
  match p, s with
  | EmptyString, _ => true
  | String _ _, EmptyString => false
  | String a p', String b s' => Ascii.eqb a b && startsWith s' p'
  end.

(** [s.includes(p)]: [p] occurs in [s] at some position. *)
Fixpoint includes (s p : string) : bool :=
  startsWith s p ||
  match s with
  | EmptyString => false
  | String _ s' => includes s' p
  end.

(** [Number.prototype.toString] on an integer of magnitude below 1e21:
    plain decimal digits with a leading minus sign for negatives. *)
Definition Number_toString (z : Z) : string :=
  NilZero.string_of_int (Z.to_int z).

Fixpoint repeat_unit (c : ascii) (n : nat) : string :=
  match n with
  | O => EmptyString
  | S k => String c (repeat_unit c k)
  end.

(** [s.padStart(n, c)] with a one-unit filler. *)
Definition padStart (n : nat) (c : ascii) (s : string) : string :=
  repeat_unit c (n - String.length s) ++ s.

End JS.

(** ** Dates *)

(** A [Date] as seen through its local-time getters. *)
Record JSDate : Type := mkDate {
  getFullYear : Z;
  getMonth : Z;      (* 0 .. 11 *)
  getDate : Z        (* 1 .. 31 *)
}.

(** date-fns, [addLeadingZeros(number, targetLength)]. *)
Definition addLeadingZeros (number : Z) (targetLength : nat) : string :=
  let sign := if (number <? 0)%Z then "-" else EmptyString in
  sign ++ JS.padStart targetLength "0"%char (JS.Number_toString (Z.abs number)).

(** date-fns, [format(d, 'yyyy-MM-dd')]: the [y] formatter prints year 0 and
    the years before it as 1 BC and earlier. *)
Definition format_yyyy_MM_dd (d : JSDate) : string :=
  let signedYear := getFullYear d in
  let year := if (0 <? signedYear)%Z then signedYear else (1 - signedYear)%Z in
  addLeadingZeros year 4 ++ "-" ++
  addLeadingZeros (getMonth d + 1) 2 ++ "-" ++
  addLeadingZeros (getDate d) 2.

(** ** JSON *)

#[local] Set Warnings "-register-all".

(** A parsed JSON text.  A number is kept as the literal that denotes it (no
    path of the program computes with one); an object keeps its members in
    the order of the text, duplicates included.  The program reads one
    member of one object ([data.text]) and builds objects with fixed keys;
    numbers and other objects occur only inside a [text] that is not a
    string. *)
Inductive json : Type :=
| JNull
| JBool (b : bool)
| JNumber (literal : string)
| JString (s : string)
| JArray (items : list json)
| JObject (members : list (string * json)).

(** Outcome of reading a JSON text: a value, a [SyntaxError], a text that
    denotes a string with a code unit above 255 (outside the modelled
    strings), or a reading that ran out of fuel. *)
Inductive parsing (A : Type) : Type :=
| Parsed (a : A)
| Malformed
| Beyond
| Starved.
Arguments Parsed {A} a.
Arguments Malformed {A}.
Arguments Beyond {A}.
Arguments Starved {A}.

Definition bind_parsing {A B : Type} (m : parsing A) (k : A -> parsing B) : parsing B :=
  match m with
  | Parsed a => k a
  | Malformed => Malformed
  | Beyond => Beyond
  | Starved => Starved
  end.

Notation "' p <- m ;; k" := (bind_parsing m (fun p => k))
  (at level 61, p pattern, m at next level, right associativity).

Module Json.

Definition dquote : ascii := "034"%char.
Definition backslash : ascii := "092"%char.

Definition hex_digit (n : N) : ascii :=
  if (n <? 10)%N then ascii_of_N (48 + n) else ascii_of_N (87 + n).

(** [QuoteJSONString] on one code unit. *)
Definition quote_unit (c : ascii) : list ascii :=
  let n := N_of_ascii c in
  if (n =? 8)%N then [backslash; "b"%char]
  else if (n =? 9)%N then [backslash; "t"%char]
  else if (n =? 10)%N then [backslash; "n"%char]
  else if (n =? 12)%N then [backslash; "f"%char]
  else if (n =? 13)%N then [backslash; "r"%char]
  else if (n =? 34)%N then [backslash; dquote]
  else if (n =? 92)%N then [backslash; backslash]
  else if (n <? 32)%N then
    [backslash; "u"%char; "0"%char; "0"%char; hex_digit (n / 16); hex_digit (n mod 16)]
  else [c].

Fixpoint quote_units (s : string) : list ascii :=
  match s with
  | EmptyString => []
  | String c r => quote_unit c ++ quote_units r
  end.

Definition quote (s : string) : list ascii :=
  dquote :: quote_units s ++ [dquote].

Definition comma : ascii := ","%char.

(** [JSON.stringify(v)] without indentation. *)
Fixpoint print (v : json) : list ascii :=
  match v with
  | JNull => list_ascii_of_string "null"
  | JBool true => list_ascii_of_string "true"
  | JBool false => list_ascii_of_string "false"
  | JNumber lit => list_ascii_of_string lit
  | JString s => quote s
  | JArray items =>
      "["%char ::
      (fix elements (l : list json) : list ascii :=
         match l with
         | [] => []
         | [x] => print x
         | x :: r => print x ++ comma :: elements r
         end) items ++ ["]"%char]
  | JObject members =>
      "{"%char ::
      (fix fields (l : list (string * json)) : list ascii :=
         match l with
         | [] => []
         | [(k, x)] => quote k ++ ":"%char :: print x
         | (k, x) :: r => quote k ++ ":"%char :: print x ++ comma :: fields r
         end) members ++ ["}"%char]
  end.

Definition print_elements : list json -> list ascii :=
  fix elements (l : list json) : list ascii :=
    match l with
    | [] => []
    | [x] => print x
    | x :: r => print x ++ comma :: elements r
    end.

Definition print_fields : list (string * json) -> list ascii :=
  fix fields (l : list (string * json)) : list ascii :=
    match l with
    | [] => []
    | [(k, x)] => quote k ++ ":"%char :: print x
    | (k, x) :: r => quote k ++ ":"%char :: print x ++ comma :: fields r
    end.

(** A value without a number literal in it. *)
Fixpoint plain (v : json) : bool :=
  match v with
  | JNumber _ => false
  | JArray items => forallb plain items
  | JObject members => forallb (fun kv => plain (snd kv)) members
  | _ => true
  end.

(** The first unit of a printed value other than a number. *)
Definition value_start (c : ascii) : bool :=
  let n := N_of_ascii c in
  ((n =? 34) || (n =? 91) || (n =? 123) || (n =? 116) || (n =? 102) || (n =? 110))%N.

Definition is_ws (c : ascii) : bool :=
  let n := N_of_ascii c in
  ((n =? 32) || (n =? 9) || (n =? 10) || (n =? 13))%N.

Fixpoint skip_ws (cs : list ascii) : list ascii :=
  match cs with
  | c :: r => if is_ws c then skip_ws r else cs
  | [] => []
  end.

Definition is_digit (c : ascii) : bool :=
  let n := N_of_ascii c in ((48 <=? n) && (n <=? 57))%N.

Definition hex_value (c : ascii) : option N :=
  let n := N_of_ascii c in
  if ((48 <=? n) && (n <=? 57))%N then Some (n - 48)%N
  else if ((97 <=? n) && (n <=? 102))%N then Some (n - 87)%N
  else if ((65 <=? n) && (n <=? 70))%N then Some (n - 55)%N
  else None.

Definition hex4 (a b c d : ascii) : option N :=
  match hex_value a, hex_value b, hex_value c, hex_value d with
  | Some x, Some y, Some z, Some w => Some (((x * 16 + y) * 16 + z) * 16 + w)%N
  | _, _, _, _ => None
  end.

Definition unescape (e : ascii) : option ascii :=
  let n := N_of_ascii e in
  if (n =? 34)%N then Some dquote
  else if (n =? 92)%N then Some backslash
  else if (n =? 47)%N then Some "/"%char
  else if (n =? 98)%N then Some "008"%char
  else if (n =? 102)%N then Some "012"%char
  else if (n =? 110)%N then Some "010"%char
  else if (n =? 114)%N then Some "013"%char
  else if (n =? 116)%N then Some "009"%char
  else None.

Definition cons_unit (c : ascii) (m : parsing (string * list ascii)) : parsing (string * list ascii) :=
  ' (s, r) <- m ;; Parsed (String c s, r).

(** The units of a string literal, after its opening quote. *)
Fixpoint parse_units (cs : list ascii) : parsing (string * list ascii) :=
  match cs with
  | [] => Malformed
  | c :: r =>
      if (N_of_ascii c =? 34)%N then Parsed (EmptyString, r)
      else if (N_of_ascii c =? 92)%N then
        match r with
        | [] => Malformed
        | e :: r' =>
            if (N_of_ascii e =? 117)%N then
              match r' with
              | h1 :: h2 :: h3 :: h4 :: r'' =>
                  match hex4 h1 h2 h3 h4 with
                  | Some n =>
                      if (n <? 256)%N then cons_unit (ascii_of_N n) (parse_units r'')
                      else Beyond
                  | None => Malformed
                  end
              | _ => Malformed
              end
            else
              match unescape e with
              | Some u => cons_unit u (parse_units r')
              | None => Malformed
              end
        end
      else if (N_of_ascii c <? 32)%N then Malformed
      else cons_unit c (parse_units r)
  end.

Fixpoint span_digits (cs : list ascii) : list ascii * list ascii :=
  match cs with
  | c :: r =>
      if is_digit c then let (ds, r') := span_digits r in (c :: ds, r')
      else ([], cs)
  | [] => ([], [])
  end.

Definition parse_int_part (cs : list ascii) : parsing (list ascii * list ascii) :=
  match cs with
  | d :: r =>
      if (N_of_ascii d =? 48)%N then Parsed ([d], r)
      else if is_digit d then let (ds, r') := span_digits r in Parsed (d :: ds, r')
      else Malformed
  | [] => Malformed
  end.

Definition parse_fraction (cs : list ascii) : parsing (list ascii * list ascii) :=
  match cs with
  | c :: r =>
      if (N_of_ascii c =? 46)%N then
        match span_digits r with
        | ([], _) => Malformed
        | (ds, r') => Parsed (c :: ds, r')
        end
      else Parsed ([], cs)
  | [] => Parsed ([], [])
  end.

Definition parse_exponent (cs : list ascii) : parsing (list ascii * list ascii) :=
  match cs with
  | c :: r =>
      if ((N_of_ascii c =? 101) || (N_of_ascii c =? 69))%N then
        let (sg, r1) :=
          match r with
          | s :: r0 =>
              if ((N_of_ascii s =? 43) || (N_of_ascii s =? 45))%N then ([s], r0) else ([], r)
          | [] => ([], r)
          end in
        match span_digits r1 with
        | ([], _) => Malformed
        | (ds, r') => Parsed (c :: sg ++ ds, r')
        end
      else Parsed ([], cs)
  | [] => Parsed ([], [])
  end.

Definition parse_number (cs : list ascii) : parsing (json * list ascii) :=
  let (sg, r0) :=
    match cs with
    | c :: r => if (N_of_ascii c =? 45)%N then ([c], r) else ([], cs)
    | [] => ([], cs)
    end in
  ' (ip, r1) <- parse_int_part r0 ;;
  ' (fp, r2) <- parse_fraction r1 ;;
  ' (ep, r3) <- parse_exponent r2 ;;
  Parsed (JNumber (string_of_list_ascii (sg ++ ip ++ fp ++ ep)), r3).

(** The elements of an array after the first one's position: a value, then
    [,] and more elements or the closing bracket. *)
Fixpoint parse_elements (pv : list ascii -> parsing (json * list ascii))
    (n : nat) (cs : list ascii) : parsing (list json * list ascii) :=
  match n with
  | O => Starved
  | S n' =>
      ' (v, r) <- pv cs ;;
      match skip_ws r with
      | c :: r' =>
          if (N_of_ascii c =? 44)%N then
            ' (vs, r'') <- parse_elements pv n' r' ;; Parsed (v :: vs, r'')
          else if (N_of_ascii c =? 93)%N then Parsed ([v], r')
          else Malformed
      | [] => Malformed
      end
  end.

Fixpoint parse_members (pv : list ascii -> parsing (json * list ascii))
    (n : nat) (cs : list ascii) : parsing (list (string * json) * list ascii) :=
  match n with
  | O => Starved
  | S n' =>
      match skip_ws cs with
      | q :: r0 =>
          if (N_of_ascii q =? 34)%N then
            ' (k, r1) <- parse_units r0 ;;
            match skip_ws r1 with
            | c :: r2 =>
                if (N_of_ascii c =? 58)%N then
                  ' (v, r3) <- pv r2 ;;
                  match skip_ws r3 with
                  | d :: r4 =>
                      if (N_of_ascii d =? 44)%N then
                        ' (ms, r5) <- parse_members pv n' r4 ;; Parsed ((k, v) :: ms, r5)
                      else if (N_of_ascii d =? 125)%N then Parsed ([(k, v)], r4)
                      else Malformed
                  | [] => Malformed
                  end
                else Malformed
            | [] => Malformed
            end
          else Malformed
      | [] => Malformed
      end
  end.

Definition keyword (w : string) (v : json) (cs : list ascii) : parsing (json * list ascii) :=
  let k := list_ascii_of_string w in
  if list_eq_dec ascii_dec (firstn (List.length k) cs) k
  then Parsed (v, skipn (List.length k) cs)
  else Malformed.

(** One JSON value, after optional white space. *)
Fixpoint parse_value (fuel : nat) (cs : list ascii) : parsing (json * list ascii) :=
  match fuel with
  | O => Starved
  | S f =>
      match skip_ws cs with
      | [] => Malformed
      | c :: r =>
          let n := N_of_ascii c in
          if (n =? 34)%N then ' (s, r') <- parse_units r ;; Parsed (JString s, r')
          else if (n =? 91)%N then
            match skip_ws r with
            | c' :: r' =>
                if (N_of_ascii c' =? 93)%N then Parsed (JArray [], r')
                else ' (vs, r'') <- parse_elements (parse_value f) (S (List.length r)) r ;;
                     Parsed (JArray vs, r'')
            | [] => Malformed
            end
          else if (n =? 123)%N then
            match skip_ws r with
            | c' :: r' =>
                if (N_of_ascii c' =? 125)%N then Parsed (JObject [], r')
                else ' (ms, r'') <- parse_members (parse_value f) (S (List.length r)) r ;;
                     Parsed (JObject ms, r'')
            | [] => Malformed
            end
          else if (n =? 116)%N then keyword "true" (JBool true) (c :: r)
          else if (n =? 102)%N then keyword "false" (JBool false) (c :: r)
          else if (n =? 110)%N then keyword "null" JNull (c :: r)
          else if ((n =? 45) || is_digit c)%N then parse_number (c :: r)
          else Malformed
      end
  end.

(** A parser that consumes input when it succeeds. *)
Definition consuming {A} (p : list ascii -> parsing (A * list ascii)) : Prop :=
  forall cs a r, p cs = Parsed (a, r) -> List.length r < List.length cs.

(** A parser that does not starve on inputs shorter than [bound]. *)
Definition fed {A} (bound : nat) (p : list ascii -> parsing (A * list ascii)) : Prop :=
  forall cs, List.length cs < bound -> p cs <> Starved.

End Json.

(** [JSON.stringify(v)] *)
Definition JSON_stringify (v : json) : string :=
  string_of_list_ascii (Json.print v).

(** [JSON.parse(text)]: one value between optional white space, and nothing
    after it. *)
Definition JSON_parse (text : string) : parsing json :=
  let cs := list_ascii_of_string text in
  ' (v, r) <- Json.parse_value (S (List.length cs)) cs ;;
  match Json.skip_ws r with
  | [] => Parsed v
  | _ :: _ => Malformed
  end.

(** ** The data model *)

(** [interface VoiceNote].  The interface declares [text: string]; at run
    time the field holds whatever [data.text] was, so it is a JSON value or
    [undefined] ([None]). *)
Record VoiceNote : Type := mkNote {
  id : string;
  date : string;
  text : option json;
  completed : bool
}.

(** A note as the interface types it: its [text] is a string. *)
Definition well_typed (n : VoiceNote) : Prop :=
  exists s, text n = Some (JString s).

Inductive JSError : Type :=
| Error (message : string)
| TypeError
| SyntaxError
| DOMException (name : string).

(** A completion: a value, or a thrown error. *)
Inductive completion (A : Type) : Type :=
| Normal (a : A)
| Throw (e : JSError).
Arguments Normal {A} a.
Arguments Throw {A} e.

(** The object literal of a note, key by key; a key whose value is
    [undefined] is left out by [JSON.stringify]. *)
Definition note_to_json (n : VoiceNote) : json :=
  JObject
    (("id", JString (id n)) :: ("date", JString (date n)) ::
     match text n with
     | Some t => [("text", t)]
     | None => []
     end ++ [("completed", JBool (completed n))]).

(** The objects that are notes: the keys [id], [date], [text] (optional) and
    [completed], in that order, with string, string and boolean values. *)
Definition note_of_json (v : json) : option VoiceNote :=
  match v with
  | JObject [(k1, JString i); (k2, JString d); (k3, t); (k4, JBool c)] =>
      if (k1 =? "id") && (k2 =? "date") && (k3 =? "text") && (k4 =? "completed")
      then Some (mkNote i d (Some t) c) else None
  | JObject [(k1, JString i); (k2, JString d); (k4, JBool c)] =>
      if (k1 =? "id") && (k2 =? "date") && (k4 =? "completed")
      then Some (mkNote i d None c) else None
  | _ => None
  end.

Fixpoint notes_of_items (l : list json) : option (list VoiceNote) :=
  match l with
  | [] => Some []
  | v :: r =>
      match note_of_json v, notes_of_items r with
      | Some n, Some ns => Some (n :: ns)
      | _, _ => None
      end
  end.

Definition notes_of_json (v : json) : option (list VoiceNote) :=
  match v with
  | JArray items => notes_of_items items
  | _ => None
  end.

(** [JSON.stringify(voiceNotes)] *)
Definition stringify_notes (notes : list VoiceNote) : string :=
  JSON_stringify (JArray (map note_to_json notes)).

(** The last member named [k]: a later duplicate key overrides an earlier
    one. *)
Fixpoint last_member (k : string) (ms : list (string * json)) : option json :=
  match ms with
  | [] => None
  | (k', v) :: r =>
      match last_member k r with
      | Some v' => Some v'
      | None => if k' =? k then Some v else None
      end
  end.

(** [data.text]: a [TypeError] on [null], the member of an object, and
    [undefined] on every other value. *)
Definition data_text (data : json) : completion (option json) :=
  match data with
  | JNull => Throw TypeError
  | JObject ms => Normal (last_member "text" ms)
  | _ => Normal None
  end.

(** ** The component's state *)

(** The six [useState] cells of [App]; [mediaRecorder] holds a handle into
    the table of recorders. *)
Record AppState : Type := mkState {
  isLoggedIn : bool;
  selectedDate : JSDate;
  voiceNotes : list VoiceNote;
  recording : bool;
  mediaRecorder : option nat;
  searchTerm : string
}.

Definition setIsLoggedIn (b : bool) (st : AppState) : AppState :=
  mkState b (selectedDate st) (voiceNotes st) (recording st) (mediaRecorder st) (searchTerm st).
Definition setSelectedDate (d : JSDate) (st : AppState) : AppState :=
  mkState (isLoggedIn st) d (voiceNotes st) (recording st) (mediaRecorder st) (searchTerm st).
Definition setVoiceNotes (l : list VoiceNote) (st : AppState) : AppState :=
  mkState (isLoggedIn st) (selectedDate st) l (recording st) (mediaRecorder st) (searchTerm st).
Definition setRecording (b : bool) (st : AppState) : AppState :=
  mkState (isLoggedIn st) (selectedDate st) (voiceNotes st) b (mediaRecorder st) (searchTerm st).
Definition setMediaRecorder (r : option nat) (st : AppState) : AppState :=
  mkState (isLoggedIn st) (selectedDate st) (voiceNotes st) (recording st) r (searchTerm st).
Definition setSearchTerm (s : string) (st : AppState) : AppState :=
  mkState (isLoggedIn st) (selectedDate st) (voiceNotes st) (recording st) (mediaRecorder st) s.

(** [voiceNotes.filter(note => note.date === day &&
    note.text.toLowerCase().includes(term.toLowerCase()))]: [&&] looks at
    [note.text] only when the date matches, and [toLowerCase] exists on
    strings only. *)
Fixpoint filter_notes (day term : string) (l : list VoiceNote) : completion (list VoiceNote) :=
  match l with
  | [] => Normal []
  | note :: r =>
      if date note =? day then
        match text note with
        | Some (JString t) =>
            match filter_notes day term r with
            | Normal kept =>
                if JS.includes (JS.toLowerCase t) (JS.toLowerCase term)
                then Normal (note :: kept) else Normal kept
            | Throw e => Throw e
            end
        | _ => Throw TypeError
        end
      else filter_notes day term r
  end.

(** [const filteredNotes = ...] of one render. *)
Definition filteredNotes (st : AppState) : completion (list VoiceNote) :=
  filter_notes (format_yyyy_MM_dd (selectedDate st)) (searchTerm st) (voiceNotes st).

(** [toggleNoteCompletion], the array it passes to [setVoiceNotes]. *)
Definition toggleNoteCompletion (i : string) (notes : list VoiceNote) : list VoiceNote :=
  map (fun note =>
         if id note =? i
         then mkNote (id note) (date note) (text note) (negb (completed note))
         else note) notes.

(** [deleteNote], the array it passes to [setVoiceNotes]. *)
Definition deleteNote (i : string) (notes : list VoiceNote) : list VoiceNote :=
  filter (fun note => negb (id note =? i)) notes.

(** ** The world around the component *)

(** The two records of [localStorage] the program uses. *)
Record Storage : Type := mkStorage {
  item_isLoggedIn : option string;
  item_voiceNotes : option string
}.

Inductive ConsoleEntry : Type :=
| ConsoleLog (message : string)
| ConsoleError (message : string) (e : JSError)
| Uncaught (e : JSError).

Definition Blob : Type := string.

(** A pending [getUserMedia] call; the continuation of [startRecording]
    runs in the render that was clicked. *)
Record MediaRequest : Type := mkRequest {
  rq_render : AppState;
  rq_settled : bool
}.

Inductive RecorderState : Type :=
| RecRecording
| RecStopQueued   (* inactive, its stop event still to be dispatched *)
| RecInactive.

(** A [MediaRecorder] with the [audioChunks] of its listeners; the [stop]
    listener calls the [transcribeAudio] of the render that was clicked. *)
Record Recorder : Type := mkRecorder {
  rec_render : AppState;
  rec_state : RecorderState;
  audioChunks : list Blob
}.

(** A pending [fetch] of [transcribeAudio], with the render whose
    [selectedDate] and [voiceNotes] the continuation reads. *)
Record FetchRequest : Type := mkFetch {
  fr_render : AppState;
  fr_file : Blob;
  fr_settled : bool
}.

(** [app] is [None] once an uncaught error has unmounted the tree.
    [loginError] is the [error] cell of the [Login] form, which is on the
    page from the first render until the user is logged in. *)
Record World : Type := mkWorld {
  app : option AppState;
  localStorage : Storage;
  console : list ConsoleEntry;
  mediaRequests : list MediaRequest;
  recorders : list Recorder;
  fetches : list FetchRequest;
  loginError : string
}.

Definition with_app (a : option AppState) (w : World) : World :=
  mkWorld a (localStorage w) (console w) (mediaRequests w) (recorders w) (fetches w) (loginError w).
Definition with_localStorage (s : Storage) (w : World) : World :=
  mkWorld (app w) s (console w) (mediaRequests w) (recorders w) (fetches w) (loginError w).
Definition with_console (c : list ConsoleEntry) (w : World) : World :=
  mkWorld (app w) (localStorage w) c (mediaRequests w) (recorders w) (fetches w) (loginError w).
Definition with_mediaRequests (l : list MediaRequest) (w : World) : World :=
  mkWorld (app w) (localStorage w) (console w) l (recorders w) (fetches w) (loginError w).
Definition with_recorders (l : list Recorder) (w : World) : World :=
  mkWorld (app w) (localStorage w) (console w) (mediaRequests w) l (fetches w) (loginError w).
Definition with_fetches (l : list FetchRequest) (w : World) : World :=
  mkWorld (app w) (localStorage w) (console w) (mediaRequests w) (recorders w) l (loginError w).
Definition with_loginError (s : string) (w : World) : World :=
  mkWorld (app w) (localStorage w) (console w) (mediaRequests w) (recorders w) (fetches w) s.

Definition log (e : ConsoleEntry) (w : World) : World :=
  with_console (console w ++ [e]) w.

Fixpoint replace_nth {A : Type} (i : nat) (x : A) (l : list A) : list A :=
  match l, i with
  | [], _ => []
  | _ :: r, O => x :: r
  | y :: r, S j => y :: replace_nth j x r
  end.

(** The effect [localStorage.setItem('voiceNotes', JSON.stringify(voiceNotes))]. *)
Definition persist (notes : list VoiceNote) (s : Storage) : Storage :=
  mkStorage (item_isLoggedIn s) (Some (stringify_notes notes)).

(** One render and commit of [App] with the state [st]: [filteredNotes] is
    computed before anything is returned, so a throw there unmounts the tree
    and no effect runs; otherwise the persist effect runs when [voiceNotes]
    was given a new array. *)
Definition commit (st : AppState) (newNotes : bool) (w : World) : World :=
  match filteredNotes st with
  | Normal _ =>
      with_localStorage
        (if newNotes then persist (voiceNotes st) (localStorage w) else localStorage w)
        (with_app (Some st) w)
  | Throw e => log (Uncaught e) (with_app None w)
  end.

(** State setters called from a continuation: nothing happens once the
    component is unmounted. *)
Definition setState (f : AppState -> AppState) (newNotes : bool) (w : World) : World :=
  match app w with
  | Some st => commit (f st) newNotes w
  | None => w
  end.

(** A control of the main view exists once the user is logged in. *)
Definition on_view (w : World) (k : AppState -> World) : World :=
  match app w with
  | Some st => if isLoggedIn st then k st else w
  | None => w
  end.

(** ** Hydration *)

Inductive Hydration : Type :=
| NothingSaved
| Hydrated (notes : list VoiceNote)
| ParseThrows
| Foreign.   (* a JSON value that is not an array of notes: outside the typed store *)

(** The second half of the mount effect: [localStorage.getItem('voiceNotes')],
    and [JSON.parse] of it unless it is [null] or empty. *)
Definition load (saved : option string) : Hydration :=
  match saved with
  | None => NothingSaved
  | Some s =>
      if s =? EmptyString then NothingSaved
      else
        match JSON_parse s with
        | Parsed v =>
            match notes_of_json v with
            | Some notes => Hydrated notes
            | None => Foreign
            end
        | Malformed => ParseThrows
        | Beyond | Starved => Foreign
        end
  end.

Definition initialState (today : JSDate) : AppState :=
  mkState false today [] false None EmptyString.

Definition loggedIn (s : Storage) : bool :=
  match item_isLoggedIn s with
  | Some v => v =? "true"
  | None => false
  end.

(** Mounting [App]: the first render, then the two effects in order, then
    the render of what the first effect set.  The persist effect of the
    first commit writes the empty collection; the one after hydration writes
    the hydrated collection back.  [None]: the saved value is outside the
    typed store. *)
Definition mount (today : JSDate) (s : Storage) : option World :=
  let st0 := setIsLoggedIn (loggedIn s) (initialState today) in
  match load (item_voiceNotes s) with
  | NothingSaved =>
      Some (mkWorld (Some st0) (persist [] s) [] [] [] [] EmptyString)
  | Hydrated notes =>
      Some (commit (setVoiceNotes notes st0) true (mkWorld None (persist [] s) [] [] [] [] EmptyString))
  | ParseThrows =>
      Some (mkWorld None s [Uncaught SyntaxError] [] [] [] EmptyString)
  | Foreign => None
  end.

(** ** Events *)

Inductive FetchBody : Type :=
| NotJson                 (* [response.json()] rejects *)
| Json (data : json).

Inductive FetchOutcome : Type :=
| NetworkFailure
| Response (status : Z) (body : FetchBody).

(** [response.json()] on the text of a body. *)
Definition body_of_text (t : string) : option FetchBody :=
  match JSON_parse t with
  | Parsed v => Some (Json v)
  | Malformed => Some NotJson
  | Beyond | Starved => None
  end.

Inductive Event : Type :=
| SubmitLogin (password : string)
| CalendarChange (d : JSDate)
| SearchInput (term : string)
| ClickRecord
| MediaGranted (rq : nat)
| MediaDenied (rq : nat) (name : string)
| DataAvailable (rid : nat) (chunk : Blob)
| ClickStop
| RecorderStop (rid : nat)            (* the recorder's [stop] event *)
| FetchSettled (fid : nat) (outcome : FetchOutcome) (now : Z)
| ClickToggle (i : string)
| ClickDelete (i : string).

(** [response.ok] *)
Definition ok (status : Z) : bool := ((200 <=? status) && (status <=? 299))%Z.

(** The [try] block of [transcribeAudio] after the [fetch]: the text of the
    note, or what is thrown. *)
Definition transcribed (o : FetchOutcome) : completion (option json) :=
  match o with
  | NetworkFailure => Throw TypeError
  | Response status body =>
      if ok status then
        match body with
        | NotJson => Throw SyntaxError
        | Json data => data_text data
        end
      else Throw (Error ("HTTP error! status: " ++ JS.Number_toString status))
  end.

(** The rest of [transcribeAudio], in the render [r] that defined it. *)
Definition transcribeAudio_settled (r : AppState) (o : FetchOutcome) (now : Z) (w : World) : World :=
  match transcribed o with
  | Normal transcribedText =>
      let newNote :=
        mkNote (JS.Number_toString now) (format_yyyy_MM_dd (selectedDate r))
               transcribedText false in
      setState (fun st => setRecording false (setVoiceNotes (voiceNotes r ++ [newNote]) st))
               true w
  | Throw e =>
      setState (setRecording false) false
               (log (ConsoleError "Error transcribing audio:" e) w)
  end.

(** [startRecording] up to its [await]. *)
Definition startRecording (st : AppState) (w : World) : World :=
  commit (setRecording true st) false
         (with_mediaRequests (mediaRequests w ++ [mkRequest st false]) w).

(** [startRecording] after [getUserMedia] resolved. *)
Definition startRecording_granted (r : AppState) (w : World) : World :=
  let rid := List.length (recorders w) in
  setState (setMediaRecorder (Some rid)) false
           (with_recorders (recorders w ++ [mkRecorder r RecRecording []]) w).

(** [MediaRecorder.stop()]: inactivates a recording recorder and queues its
    [stop] event; nothing on an inactive one. *)
Definition recorder_stop (rid : nat) (w : World) : World :=
  match nth_error (recorders w) rid with
  | Some rc =>
      match rec_state rc with
      | RecRecording =>
          with_recorders
            (replace_nth rid (mkRecorder (rec_render rc) RecStopQueued (audioChunks rc))
                         (recorders w)) w
      | _ => w
      end
  | None => w
  end.

(** The [stop] listener of a recorder: the chunks become one file, and the
    [transcribeAudio] of the listener's render posts it. *)
Definition stop_listener (rid : nat) (rc : Recorder) (w : World) : World :=
  with_fetches
    (fetches w ++
       [mkFetch (rec_render rc) (String.concat EmptyString (audioChunks rc)) false])
    (with_recorders
       (replace_nth rid (mkRecorder (rec_render rc) RecInactive (audioChunks rc))
                    (recorders w)) w).

(** [stopRecording] *)
Definition stopRecording (st : AppState) (w : World) : World :=
  match mediaRecorder st with
  | Some rid =>
      if recording st
      then commit (setRecording false st) false (recorder_stop rid w)
      else w
  | None => w
  end.

(** [handleSubmit] of the login form: [onLogin] is the [setIsLoggedIn] of
    [App], [setError] writes the [error] cell of the form. *)
Definition handleSubmit (password : string) (st : AppState) (w : World) : World :=
  if password =? "eks" then
    let w1 := log (ConsoleLog "Login successful") w in
    with_localStorage (mkStorage (Some "true") (item_voiceNotes (localStorage w1)))
                      (commit (setIsLoggedIn true st) false w1)
  else with_loginError "Incorrect password" (log (ConsoleLog "Login failed") w).

Definition displayed (i : string) (st : AppState) : bool :=
  match filteredNotes st with
  | Normal l => existsb (fun note => id note =? i) l
  | Throw _ => false
  end.

(** One event of the page.  A control that is not rendered, or is disabled,
    runs no handler (the login form is rendered until the user is logged in
    and its password field is [required]); a promise settles once; a
    recorder fires [stop] once, after [MediaRecorder.stop()] or when its
    stream ends. *)
Definition step (w : World) (e : Event) : World :=
  match e with
  | SubmitLogin password =>
      match app w with
      | Some st =>
          if isLoggedIn st || (password =? EmptyString) then w
          else handleSubmit password st w
      | None => w
      end
  | CalendarChange d =>
      on_view w (fun st => commit (setSelectedDate d st) false w)
  | SearchInput term =>
      on_view w (fun st => commit (setSearchTerm term st) false w)
  | ClickRecord =>
      on_view w (fun st => if recording st then w else startRecording st w)
  | MediaGranted rq =>
      match nth_error (mediaRequests w) rq with
      | Some r =>
          if rq_settled r then w
          else startRecording_granted (rq_render r)
                 (with_mediaRequests
                    (replace_nth rq (mkRequest (rq_render r) true) (mediaRequests w)) w)
      | None => w
      end
  | MediaDenied rq name =>
      match nth_error (mediaRequests w) rq with
      | Some r =>
          if rq_settled r then w
          else log (ConsoleError "Error starting recording:" (DOMException name))
                 (with_mediaRequests
                    (replace_nth rq (mkRequest (rq_render r) true) (mediaRequests w)) w)
      | None => w
      end
  | DataAvailable rid chunk =>
      match nth_error (recorders w) rid with
      | Some rc =>
          match rec_state rc with
          | RecInactive => w
          | _ =>
              with_recorders
                (replace_nth rid
                   (mkRecorder (rec_render rc) (rec_state rc) (audioChunks rc ++ [chunk]))
                   (recorders w)) w
          end
      | None => w
      end
  | ClickStop =>
      on_view w (fun st => if recording st then stopRecording st w else w)
  | RecorderStop rid =>
      match nth_error (recorders w) rid with
      | Some rc =>
          match rec_state rc with
          | RecInactive => w
          | _ => stop_listener rid rc w
          end
      | None => w
      end
  | FetchSettled fid outcome now =>
      match nth_error (fetches w) fid with
      | Some fr =>
          if fr_settled fr then w
          else transcribeAudio_settled (fr_render fr) outcome now
                 (with_fetches
                    (replace_nth fid (mkFetch (fr_render fr) (fr_file fr) true) (fetches w)) w)
      | None => w
      end
  | ClickToggle i =>
      on_view w (fun st =>
        if displayed i st
        then commit (setVoiceNotes (toggleNoteCompletion i (voiceNotes st)) st) true w
        else w)
  | ClickDelete i =>
      on_view w (fun st =>
        if displayed i st
        then commit (setVoiceNotes (deleteNote i (voiceNotes st)) st) true w
        else w)
  end.

Definition run (w : World) (es : list Event) : World := fold_left step es w.


(** ** Specification-side definitions *)

(** [query] as the specification words it: the notes of the store, in the
    store's order, whose date is the given one and whose text contains the
    given substring, letters compared without regard to case. *)
(** ** Strings beyond Latin-1 *)

(** A JavaScript string is a sequence of UTF-16 code units.  This module
    has [toLowerCase], [includes] and the filter of the page on such
    sequences, for the code units below U+0100 and the Greek letters
    U+0391..U+03A9 and U+03B1..U+03C9; [toLowerCase] answers [None] on a
    string that holds any other code unit. *)
Module UTF16.

Definition ustring : Type := list N.

(** A string of the page model seen as code units. *)
Definition of_string (s : string) : ustring := map N_of_ascii (list_ascii_of_string s).

Definition latin1 (u : N) : bool := (u <? 0x100)%N.

(** U+03A2 is not assigned. *)
Definition greek_capital (u : N) : bool :=
  ((0x391 <=? u) && (u <=? 0x3A9) && negb (u =? 0x3A2))%N.

Definition greek_small (u : N) : bool := ((0x3B1 <=? u) && (u <=? 0x3C9))%N.

Definition modelled (u : N) : bool := latin1 u || greek_capital u || greek_small u.

Definition capital_sigma : N := 0x3A3.
Definition small_sigma : N := 0x3C3.
Definition final_sigma : N := 0x3C2.

(** The capitals below U+0100: A..Z and U+00C0..U+00DE without the
    multiplication sign U+00D7. *)
Definition latin_capital (u : N) : bool :=
  ((0x41 <=? u) && (u <=? 0x5A) || (0xC0 <=? u) && (u <=? 0xDE) && negb (u =? 0xD7))%N.

(** The lower-case mapping of one modelled code unit (UnicodeData.txt): a
    capital moves 32 places up, nothing else changes. *)
Definition lower_unit (u : N) : N :=
  if latin_capital u || greek_capital u then (u + 32)%N else u.

(** The property Cased on the modelled code units: the letters of either
    case, with the ordinal indicators U+00AA and U+00BA and the micro sign
    U+00B5. *)
Definition cased (u : N) : bool :=
  ((0x41 <=? u) && (u <=? 0x5A) || (0x61 <=? u) && (u <=? 0x7A) ||
   (u =? 0xAA) || (u =? 0xB5) || (u =? 0xBA) ||
   (0xC0 <=? u) && (u <=? 0xD6) || (0xD8 <=? u) && (u <=? 0xF6) ||
   (0xF8 <=? u) && (u <=? 0xFF))%N
  || greek_capital u || greek_small u.

(** The property Case_Ignorable on the modelled code units: apostrophe,
    full stop, colon, circumflex, grave, diaeresis, soft hyphen, macron,
    acute, middle dot and cedilla. *)
Definition case_ignorable (u : N) : bool :=
  existsb (N.eqb u) [0x27; 0x2E; 0x3A; 0x5E; 0x60; 0xA8; 0xAD; 0xAF; 0xB4; 0xB7; 0xB8]%N.

Fixpoint skip_ignorable (s : ustring) : ustring :=
  match s with
  | [] => []
  | u :: r => if case_ignorable u then skip_ignorable r else s
  end.

(** A cased letter comes next, after any case-ignorable units. *)
Definition cased_next (s : ustring) : bool :=
  match skip_ignorable s with
  | u :: _ => cased u
  | [] => false
  end.

(** The condition Final_Sigma of SpecialCasing.txt for a capital sigma
    with [before] in front of it (nearest unit first) and [after] behind:
    a cased letter comes before it and none comes after it, case-ignorable
    units set aside. *)
Definition is_final_sigma (before after : ustring) : bool :=
  cased_next before && negb (cased_next after).

Fixpoint lower_from (before s : ustring) : ustring :=
  match s with
  | [] => []
  | u :: r =>
      (if (u =? capital_sigma)%N
       then if is_final_sigma before r then final_sigma else small_sigma
       else lower_unit u) :: lower_from (u :: before) r
  end.

(** [String.prototype.toLowerCase] *)
Definition toLowerCase (s : ustring) : option ustring :=
  if forallb modelled s then Some (lower_from [] s) else None.

(** [a === b] on strings *)
Fixpoint eqb (a b : ustring) : bool :=
  match a, b with
  | [], [] => true
  | x :: a', y :: b' => (x =? y)%N && eqb a' b'
  | _, _ => false
  end.

(** [s.startsWith(p)] *)
Fixpoint startsWith (s p : ustring) : bool :=
  match p, s with
  | [], _ => true
  | _ :: _, [] => false
  | a :: p', b :: s' => (a =? b)%N && startsWith s' p'
  end.

(** [s.includes(p)] *)
Fixpoint includes (s p : ustring) : bool :=
  startsWith s p ||
  match s with
  | [] => false
  | _ :: s' => includes s' p
  end.

(** [interface VoiceNote], as it is typed. *)
Record VoiceNote : Type := mkNote {
  id : ustring;
  date : ustring;
  text : ustring;
  completed : bool
}.

(** The test of the filter on one note: [&&] lowers the text only when the
    date matches. *)
Definition listed (day term : ustring) (note : VoiceNote) : option bool :=
  if eqb (date note) day then
    match toLowerCase (text note), toLowerCase term with
    | Some t, Some q => Some (includes t q)
    | _, _ => None
    end
  else Some false.

Fixpoint filter_notes (day term : ustring) (l : list VoiceNote) : option (list VoiceNote) :=
  match l with
  | [] => Some []
  | note :: r =>
      match listed day term note, filter_notes day term r with
      | Some b, Some kept => Some (if b then note :: kept else kept)
      | _, _ => None
      end
  end.

(** [const filteredNotes = ...] *)
Definition filteredNotes (voiceNotes : list VoiceNote) (selectedDate : JSDate)
    (searchTerm : ustring) : option (list VoiceNote) :=
  filter_notes (of_string (format_yyyy_MM_dd selectedDate)) searchTerm voiceNotes.

End UTF16.

(** A note of the page model, its [text] a string, as a note of [UTF16]. *)
Definition wide (n : VoiceNote) : UTF16.VoiceNote :=
  UTF16.mkNote (UTF16.of_string (id n)) (UTF16.of_string (date n))
               (match text n with
                | Some (JString t) => UTF16.of_string t
                | _ => []
                end)
               (completed n).

(** ** The query of the specification *)

Module Spec.

(** The letters below U+0100 that come in two cases, capital first: A a ..
    Z z, and the accented letters U+00C0 U+00E0 .. U+00DE U+00FE (the
    multiplication and division signs U+00D7 and U+00F7 are no letters). *)
Definition alphabet : list (N * N) :=
  map (fun k => let u := N.of_nat k in (u, u + 32)%N)
      (seq 65 26 ++ seq 192 23 ++ seq 216 7).

(** Two code units that are one letter, in the same or in different
    cases.  Of the units from U+0100 on only the identical ones are
    counted, which every matching without regard to case counts too. *)
Definition same_letter (a b : N) : bool :=
  (a =? b)%N ||
  existsb (fun p => (a =? fst p)%N && (b =? snd p)%N || (a =? snd p)%N && (b =? fst p)%N)
          alphabet.

Fixpoint starts_ignoring_case (s p : UTF16.ustring) : bool :=
  match p, s with
  | [], _ => true
  | _ :: _, [] => false
  | a :: p', b :: s' => same_letter a b && starts_ignoring_case s' p'
  end.

Fixpoint contains_ignoring_case (s p : UTF16.ustring) : bool :=
  starts_ignoring_case s p ||
  match s with
  | [] => false
  | _ :: s' => contains_ignoring_case s' p
  end.

Definition matches (day sub : UTF16.ustring) (n : UTF16.VoiceNote) : bool :=
  UTF16.eqb (UTF16.date n) day && contains_ignoring_case (UTF16.text n) sub.

Definition query (day sub : UTF16.ustring) (store : list UTF16.VoiceNote) :
    list UTF16.VoiceNote :=
  filter (matches day sub) store.

End Spec.

(** The text of a note holds no number literal. *)
Definition text_plain (n : VoiceNote) : bool :=
  match text n with
  | Some t => Json.plain t
  | None => true
  end.

(** The last render of a mounted component went through. *)
Definition healthy (w : World) : Prop :=
  forall st, app w = Some st -> exists l, filteredNotes st = Normal l.

(** The saved record is the print of the notes in memory. *)
Definition in_sync (w : World) : Prop :=
  forall st, app w = Some st ->
    item_voiceNotes (localStorage w) = Some (stringify_notes (voiceNotes st)).

(** Events after which the recording flag may be clear again: the stop
    button, and the [finally] of a settled transcription. *)
Definition clears_flag (e : Event) : bool :=
  match e with
  | ClickStop | FetchSettled _ _ _ => true
  | _ => false
  end.

(** Events that belong to no recording session: the calendar, the search
    box, the buttons of a note, the login form, and audio data. *)
Definition bystander (e : Event) : bool :=
  match e with
  | SubmitLogin _ | CalendarChange _ | SearchInput _
  | DataAvailable _ _ | ClickToggle _ | ClickDelete _ => true
  | _ => false
  end.

(** [w'] continues [w] without touching a session: the pending calls are
    the same, every recorder keeps its render and its state, and the
    component, if still mounted, keeps its recording flag, its recorder and
    its login. *)
Definition same_sessions (w w' : World) : Prop :=
  mediaRequests w' = mediaRequests w /\
  fetches w' = fetches w /\
  List.length (recorders w') = List.length (recorders w) /\
  (forall rid rc, nth_error (recorders w) rid = Some rc ->
     exists rc', nth_error (recorders w') rid = Some rc' /\
                 rec_render rc' = rec_render rc /\ rec_state rc' = rec_state rc) /\
  (forall st', app w' = Some st' ->
     exists st, app w = Some st /\ recording st' = recording st /\
                mediaRecorder st' = mediaRecorder st /\
                (isLoggedIn st = true -> isLoggedIn st' = true)).

(** The phases of one recording session started in the render [r]: the
    [getUserMedia] call [rq] pending, the recorder [rid] recording, its stop
    event queued, the [fetch] [fid] in flight. *)
Module Session.

Definition requested (r : AppState) (rq rid fid : nat) (w : World) : Prop :=
  nth_error (mediaRequests w) rq = Some (mkRequest r false) /\
  List.length (recorders w) = rid /\
  List.length (fetches w) = fid /\
  (forall s, app w = Some s -> isLoggedIn s = true /\ recording s = true).

Definition capturing (r : AppState) (rid fid : nat) (w : World) : Prop :=
  (exists rc, nth_error (recorders w) rid = Some rc /\
              rec_render rc = r /\ rec_state rc = RecRecording) /\
  List.length (fetches w) = fid /\
  (forall s, app w = Some s ->
     isLoggedIn s = true /\ recording s = true /\ mediaRecorder s = Some rid).

Definition stop_queued (r : AppState) (rid fid : nat) (w : World) : Prop :=
  (exists rc, nth_error (recorders w) rid = Some rc /\
              rec_render rc = r /\ rec_state rc = RecStopQueued) /\
  List.length (fetches w) = fid.

Definition in_flight (r : AppState) (fid : nat) (w : World) : Prop :=
  exists file, nth_error (fetches w) fid = Some (mkFetch r file false).

End Session.

(** The identifier of the note is the print of a clock reading up to [T]. *)
Definition stamped (T : Z) (n : VoiceNote) : Prop :=
  exists t, (t <= T)%Z /\ id n = JS.Number_toString t.

Definition store_ok (T : Z) (l : list VoiceNote) : Prop :=
  NoDup (map id l) /\ Forall (stamped T) l.

(** The notes every pending continuation closes over have distinct
    identifiers, all stamped up to [T]. *)
Definition closures_ok (T : Z) (w : World) : Prop :=
  (forall r, In r (mediaRequests w) -> store_ok T (voiceNotes (rq_render r))) /\
  (forall rc, In rc (recorders w) -> store_ok T (voiceNotes (rec_render rc))) /\
  (forall fr, In fr (fetches w) -> store_ok T (voiceNotes (fr_render fr))).

(** So have the notes in memory. *)
Definition Stamped (T : Z) (w : World) : Prop :=
  (forall st, app w = Some st -> store_ok T (voiceNotes st)) /\ closures_ok T w.

(** Each [Date.now()] read when a [fetch] settles is later than [T] and
    than every earlier reading. *)
Fixpoint ticking (T : Z) (es : list Event) : Prop :=
  match es with
  | [] => True
  | FetchSettled _ _ now :: r => (T < now)%Z /\ ticking now r
  | _ :: r => ticking T r
  end.

(** ** Sample worlds *)

Module Example.

Definition jan10 : JSDate := mkDate 2024 0 10.
Definition jan11 : JSDate := mkDate 2024 0 11.

(** Storage after a login, before any note was saved. *)
Definition signed_in : Storage := mkStorage (Some "true") None.

(** The page mounted on [signed_in], 10 January selected. *)
Definition idle : World :=
  mkWorld (Some (mkState true jan10 [] false None EmptyString))
          (mkStorage (Some "true") (Some "[]")) [] [] [] [] EmptyString.

(** A transcription response body with a [text]. *)
Definition milk : json := JObject [("text", JString "buy milk")].

(** A saved record that is not JSON. *)
Definition corrupt : Storage := mkStorage (Some "true") (Some "{oops").

(** One record-and-stop session up to the pending [fetch]. *)
Definition session : list Event := [ClickRecord; MediaGranted 0; ClickStop; RecorderStop 0].

Definition noteA : VoiceNote := mkNote "1704900000000" "2024-01-10" (Some (JString "buy milk")) false.
Definition noteB : VoiceNote := mkNote "1704900000500" "2024-01-11" (Some (JString "Call Bob")) true.

(** Two clock readings, in milliseconds. *)
Definition t0 : Z := 1704900000000.
Definition t1 : Z := 1704900000500.

(** The state a render of [idle] closes over. *)
Definition idle_state : AppState := mkState true jan10 [] false None EmptyString.

(** [idle] after one session, its [fetch] pending. *)
Definition awaiting : World := run idle session.

(** A state with two notes, 10 January selected, a search typed. *)
Definition two_notes : AppState := mkState true jan10 [noteA; noteB] false None "MILK".

(** Storage holding what the persist effect writes for two notes. *)
Definition saved_two : Storage :=
  mkStorage (Some "true") (Some (stringify_notes [noteA; noteB])).

End Example.

(** ** Predicates on notes and events *)

Definition has_id (i : string) (n : VoiceNote) : bool := id n =? i.

Definition text_is_string (n : VoiceNote) : bool :=
  match text n with
  | Some (JString _) => true
  | _ => false
  end.

(** A note the callback of the filter throws on: it is of the day, and its
    [text] has no [toLowerCase]. *)
Definition breaks_render (day : string) (n : VoiceNote) : bool :=
  (date n =? day) && negb (text_is_string n).

(** The callback of the filter on a note it does not throw on. *)
Definition shown (day term : string) (n : VoiceNote) : bool :=
  (date n =? day) &&
  match text n with
  | Some (JString t) => JS.includes (JS.toLowerCase t) (JS.toLowerCase term)
  | _ => false
  end.

(** The events whose handlers call [setVoiceNotes]. *)
Definition writes_notes (e : Event) : bool :=
  match e with
  | FetchSettled _ _ _ | ClickToggle _ | ClickDelete _ => true
  | _ => false
  end.

(** A submission of the password the form accepts. *)
Definition logs_in (e : Event) : bool :=
  match e with
  | SubmitLogin password => password =? "eks"
  | _ => false
  end.

(** A date of the common era with non-negative month index and day. *)
Definition common_era (d : JSDate) : Prop :=
  (1 <= getFullYear d)%Z /\ (0 <= getMonth d)%Z /\ (0 <= getDate d)%Z.

(** A string of decimal digits, and the number it reads as. *)
Fixpoint all_digits (s : string) : bool :=
  match s with
  | EmptyString => true
  | String c r => Json.is_digit c && all_digits r
  end.

Definition decimal_value (s : string) : option N :=
  option_map N.of_uint (NilEmpty.uint_of_string s).

(** ** Further sample pages *)

Module Scenario.
Import Example.

(** The page with two notes in memory and in the saved record, nothing typed. *)
Definition stocked_state : AppState := mkState true jan10 [noteA; noteB] false None EmptyString.
Definition stocked : World := mkWorld (Some stocked_state) saved_two [] [] [] [] EmptyString.

(** A note as another writer of the storage may leave it: without a text. *)
Definition blank : VoiceNote := mkNote "1704900000900" "2024-01-11" None false.

(** A page that holds [blank] under a day that is not selected. *)
Definition fragile_state : AppState := mkState true jan10 [noteA; blank] false None EmptyString.
Definition fragile : World :=
  mkWorld (Some fragile_state)
          (mkStorage (Some "true") (Some (stringify_notes [noteA; blank]))) [] [] [] [] EmptyString.

(** Storage whose saved record holds [blank]. *)
Definition saved_blank : Storage := mkStorage (Some "true") (Some (stringify_notes [blank])).

(** The page before the login. *)
Definition locked_state : AppState := initialState jan10.
Definition locked : World := mkWorld (Some locked_state) (mkStorage None (Some "[]")) [] [] [] [] EmptyString.

(** The page after a render has thrown. *)
Definition crashed : World := mkWorld None corrupt [Uncaught SyntaxError] [] [] [] EmptyString.

(** [idle] with a recorder running. *)
Definition taping : World := run idle [ClickRecord; MediaGranted 0].

(** The state of [awaiting]. *)
Definition awaiting_state : AppState := mkState true jan10 [] false (Some 0%nat) EmptyString.

(** A saved record with white space around it, and the page mounted on it. *)
Definition spaced : Storage :=
  mkStorage (Some "true") (Some (" " ++ stringify_notes [noteA] ++ " ")%string).
Definition restored_state : AppState := mkState true jan10 [noteA] false None EmptyString.
Definition restored : World :=
  mkWorld (Some restored_state) (mkStorage (Some "true") (Some (stringify_notes [noteA])))
          [] [] [] [] EmptyString.

(** [idle] after a whole session: the note is in, the recorder is inactive
    and still in the [mediaRecorder] cell. *)
Definition finished : World := run awaiting [FetchSettled 0 (Response 200 (Json milk)) t0].
Definition finished_state : AppState :=
  mkState true jan10 [noteA] false (Some 0%nat) EmptyString.

(** A second session started while the transcription of the first is in
    flight: the flag is set, the second recorder records. *)
Definition second_take : World := run awaiting [ClickRecord; MediaGranted 1].
Definition second_take_state : AppState :=
  mkState true jan10 [] true (Some 1%nat) EmptyString.

(** The Greek word U+039A U+039F U+03A3 U+039C U+0397 U+039C U+0391
    (a jewel), written in capitals, its first three letters, a note
    that holds the word, and the two notes of the page as notes of
    [UTF16]. *)
Definition kosmima : UTF16.ustring := [0x39A; 0x39F; 0x3A3; 0x39C; 0x397; 0x39C; 0x391]%N.
Definition kos : UTF16.ustring := [0x39A; 0x39F; 0x3A3]%N.
Definition jewel : UTF16.VoiceNote :=
  UTF16.mkNote (UTF16.of_string "1704900000900") (UTF16.of_string "2024-01-10") kosmima false.
Definition wideA : UTF16.VoiceNote := wide noteA.
Definition wideB : UTF16.VoiceNote := wide noteB.

End Scenario.
(** * Properties *)

(** ** JSON: what [JSON.parse] reads back from [JSON.stringify] *)

Module JsonFacts.
Import Json.

Lemma print_array items :
  print (JArray items) = "["%char :: print_elements items ++ ["]"%char].
Proof. reflexivity. Qed.

Lemma print_object members :
  print (JObject members) = "{"%char :: print_fields members ++ ["}"%char].
Proof. reflexivity. Qed.

Lemma json_induction (P : json -> Prop) :
  P JNull ->
  (forall b, P (JBool b)) ->
  (forall lit, P (JNumber lit)) ->
  (forall s, P (JString s)) ->
  (forall items, Forall P items -> P (JArray items)) ->
  (forall members, Forall (fun kv => P (snd kv)) members -> P (JObject members)) ->
  forall v, P v.
Proof.
  intros Hnull Hbool Hnum Hstr Harr Hobj.
  fix IH 1.
  intros [ | b | lit | s | items | members ].
  - exact Hnull.
  - apply Hbool.
  - apply Hnum.
  - apply Hstr.
  - apply Harr. induction items as [ | x r IHr ]; constructor; [ apply IH | exact IHr ].
  - apply Hobj. induction members as [ | [k x] r IHr ]; constructor; [ apply IH | exact IHr ].
Qed.

Lemma parse_quoted_unit c tail :
  parse_units (quote_unit c ++ tail) = cons_unit c (parse_units tail).
Proof.
  destruct c as [[] [] [] [] [] [] [] []]; reflexivity.
Qed.

Lemma parse_quoted_units s rest :
  parse_units (quote_units s ++ dquote :: rest) = Parsed (s, rest).
Proof.
  induction s as [ | c s IH ]; simpl.
  - reflexivity.
  - rewrite <- app_assoc, parse_quoted_unit, IH. reflexivity.
Qed.

Lemma parse_quote s rest :
  parse_units (quote_units s ++ [dquote] ++ rest) = Parsed (s, rest).
Proof. apply parse_quoted_units. Qed.


Lemma print_starts v :
  plain v = true -> exists c tl, print v = c :: tl /\ value_start c = true.
Proof.
  destruct v as [ | [] | lit | s | items | members ]; simpl; intros Hp;
    try discriminate; eexists; eexists; (split; [ reflexivity | reflexivity ]).
Qed.

Lemma skip_ws_start c tl : value_start c = true -> skip_ws (c :: tl) = c :: tl.
Proof.
  intros H. simpl. replace (is_ws c) with false; [ reflexivity | ].
  destruct c as [[] [] [] [] [] [] [] []]; try reflexivity; discriminate H.
Qed.

Lemma print_nonempty v : plain v = true -> 1 <= List.length (print v).
Proof.
  intros Hp. destruct (print_starts v Hp) as (c & tl & -> & _). simpl. lia.
Qed.

Lemma length_print_elements items :
  forallb plain items = true ->
  List.length items <= List.length (print_elements items) /\
  forall x, In x items -> List.length (print x) <= List.length (print_elements items).
Proof.
  induction items as [ | x r IH ]; intros Hp.
  - split; [ simpl; lia | intros x [] ].
  - simpl in Hp. apply andb_true_iff in Hp as [Hx Hr].
    specialize (IH Hr) as [IH1 IH2].
    pose proof (print_nonempty x Hx) as Hn.
    destruct r as [ | y r ].
    + simpl. split; [ lia | intros z [<- | []]; lia ].
    + change (print_elements (x :: y :: r))
        with (print x ++ comma :: print_elements (y :: r)).
      rewrite length_app.
      change (List.length (comma :: print_elements (y :: r)))
        with (S (List.length (print_elements (y :: r)))).
      change (List.length (x :: y :: r)) with (S (List.length (y :: r))).
      split.
      * lia.
      * intros z [<- | Hz]; [ lia | specialize (IH2 z Hz); lia ].
Qed.

Lemma length_print_fields members :
  forallb (fun kv => plain (snd kv)) members = true ->
  List.length members <= List.length (print_fields members) /\
  forall k x, In (k, x) members -> List.length (print x) <= List.length (print_fields members).
Proof.
  induction members as [ | [k x] r IH ]; intros Hp.
  - split; [ simpl; lia | intros ? ? [] ].
  - simpl in Hp. apply andb_true_iff in Hp as [Hx Hr].
    specialize (IH Hr) as [IH1 IH2].
    pose proof (print_nonempty x Hx) as Hn.
    destruct r as [ | [k' y] r ].
    + change (print_fields [(k, x)]) with (quote k ++ ":"%char :: print x).
      rewrite length_app. simpl List.length.
      split; [ lia | intros k0 z [E | []]; inversion E; subst; lia ].
    + change (print_fields ((k, x) :: (k', y) :: r))
        with (quote k ++ ":"%char :: print x ++ comma :: print_fields ((k', y) :: r)).
      rewrite length_app.
      change (List.length (":"%char :: print x ++ comma :: print_fields ((k', y) :: r)))
        with (S (List.length (print x ++ comma :: print_fields ((k', y) :: r)))).
      rewrite length_app.
      change (List.length (comma :: print_fields ((k', y) :: r)))
        with (S (List.length (print_fields ((k', y) :: r)))).
      change (List.length ((k, x) :: (k', y) :: r)) with (S (List.length ((k', y) :: r))).
      split.
      * lia.
      * intros k0 z [E | Hz]; [ inversion E; subst; lia | specialize (IH2 k0 z Hz); lia ].
Qed.


Lemma parse_value_lbracket f r :
  parse_value (S f) ("["%char :: r) =
  match skip_ws r with
  | c' :: r' =>
      if (N_of_ascii c' =? 93)%N then Parsed (JArray [], r')
      else ' (vs, r'') <- parse_elements (parse_value f) (S (List.length r)) r ;;
           Parsed (JArray vs, r'')
  | [] => Malformed
  end.
Proof. reflexivity. Qed.

Lemma parse_value_lbrace f r :
  parse_value (S f) ("{"%char :: r) =
  match skip_ws r with
  | c' :: r' =>
      if (N_of_ascii c' =? 125)%N then Parsed (JObject [], r')
      else ' (ms, r'') <- parse_members (parse_value f) (S (List.length r)) r ;;
           Parsed (JObject ms, r'')
  | [] => Malformed
  end.
Proof. reflexivity. Qed.

Lemma parse_value_dquote f r :
  parse_value (S f) (dquote :: r) = ' (s, r') <- parse_units r ;; Parsed (JString s, r').
Proof. reflexivity. Qed.

Lemma value_start_not_closing c :
  value_start c = true -> (N_of_ascii c =? 93)%N = false /\ (N_of_ascii c =? 125)%N = false.
Proof.
  destruct c as [[] [] [] [] [] [] [] []]; intros H; try discriminate H; split; reflexivity.
Qed.

Lemma parse_value_array f c tl :
  value_start c = true ->
  parse_value (S f) ("["%char :: c :: tl) =
  ' (vs, r) <- parse_elements (parse_value f) (S (List.length (c :: tl))) (c :: tl) ;;
  Parsed (JArray vs, r).
Proof.
  intros H. rewrite parse_value_lbracket, (skip_ws_start c tl H).
  destruct (value_start_not_closing c H) as [-> _]. reflexivity.
Qed.

Lemma parse_value_object f c tl :
  value_start c = true ->
  parse_value (S f) ("{"%char :: c :: tl) =
  ' (ms, r) <- parse_members (parse_value f) (S (List.length (c :: tl))) (c :: tl) ;;
  Parsed (JObject ms, r).
Proof.
  intros H. rewrite parse_value_lbrace, (skip_ws_start c tl H).
  destruct (value_start_not_closing c H) as [_ ->]. reflexivity.
Qed.

Lemma quote_app s rest : quote s ++ rest = dquote :: quote_units s ++ dquote :: rest.
Proof. unfold quote. simpl. rewrite <- app_assoc. reflexivity. Qed.

Lemma parse_value_string f s rest :
  parse_value (S f) (quote s ++ rest) = Parsed (JString s, rest).
Proof.
  rewrite quote_app, parse_value_dquote, parse_quoted_units. reflexivity.
Qed.

Lemma parse_elements_step pv n cs :
  parse_elements pv (S n) cs =
  ' (v, r) <- pv cs ;;
  match skip_ws r with
  | c :: r' =>
      if (N_of_ascii c =? 44)%N then
        ' (vs, r'') <- parse_elements pv n r' ;; Parsed (v :: vs, r'')
      else if (N_of_ascii c =? 93)%N then Parsed ([v], r')
      else Malformed
  | [] => Malformed
  end.
Proof. reflexivity. Qed.

Lemma parse_members_key pv n k r :
  parse_members pv (S n) (quote k ++ ":"%char :: r) =
  ' (v, r3) <- pv r ;;
  match skip_ws r3 with
  | d :: r4 =>
      if (N_of_ascii d =? 44)%N then
        ' (ms, r5) <- parse_members pv n r4 ;; Parsed ((k, v) :: ms, r5)
      else if (N_of_ascii d =? 125)%N then Parsed ([(k, v)], r4)
      else Malformed
  | [] => Malformed
  end.
Proof.
  rewrite quote_app. cbn [parse_members].
  change (skip_ws (dquote :: quote_units k ++ dquote :: ":"%char :: r))
    with (dquote :: quote_units k ++ dquote :: ":"%char :: r).
  cbv beta iota. change (N_of_ascii dquote =? 34)%N with true. cbv beta iota.
  rewrite parse_quoted_units. reflexivity.
Qed.

(** Reading the elements of a printed array. *)
Lemma parse_printed_elements f items :
  items <> [] ->
  Forall (fun x => forall rest, parse_value f (print x ++ rest) = Parsed (x, rest)) items ->
  forall n rest, List.length items <= n ->
    parse_elements (parse_value f) n (print_elements items ++ "]"%char :: rest) =
    Parsed (items, rest).
Proof.
  induction items as [ | x r IH ]; intros Hne Hall n rest Hn; [ congruence | ].
  inversion Hall as [ | ? ? Hx Hr ]; subst.
  destruct n as [ | n ]; [ simpl in Hn; lia | ].
  rewrite parse_elements_step.
  destruct r as [ | y r ].
  - change (print_elements [x]) with (print x).
    rewrite Hx. reflexivity.
  - change (print_elements (x :: y :: r)) with (print x ++ comma :: print_elements (y :: r)).
    rewrite <- app_assoc, Hx.
    cbn [bind_parsing]. rewrite <- app_comm_cons.
    change (skip_ws (comma :: print_elements (y :: r) ++ "]"%char :: rest))
      with (comma :: print_elements (y :: r) ++ "]"%char :: rest).
    cbv beta iota. change (N_of_ascii comma =? 44)%N with true. cbv beta iota.
    rewrite IH; [ reflexivity | discriminate | exact Hr | simpl in Hn |- *; lia ].
Qed.

Lemma parse_printed_fields f members :
  members <> [] ->
  Forall (fun kv => forall rest, parse_value f (print (snd kv) ++ rest) = Parsed (snd kv, rest))
         members ->
  forall n rest, List.length members <= n ->
    parse_members (parse_value f) n (print_fields members ++ "}"%char :: rest) =
    Parsed (members, rest).
Proof.
  induction members as [ | [k x] r IH ]; intros Hne Hall n rest Hn; [ congruence | ].
  inversion Hall as [ | ? ? Hx Hr ]; subst. simpl in Hx.
  destruct n as [ | n ]; [ simpl in Hn; lia | ].
  destruct r as [ | [k' y] r ].
  - change (print_fields [(k, x)]) with (quote k ++ ":"%char :: print x).
    rewrite <- app_assoc, <- app_comm_cons, parse_members_key, Hx. reflexivity.
  - change (print_fields ((k, x) :: (k', y) :: r))
      with (quote k ++ ":"%char :: print x ++ comma :: print_fields ((k', y) :: r)).
    rewrite <- app_assoc, <- app_comm_cons, parse_members_key, <- app_assoc, Hx.
    cbn [bind_parsing]. rewrite <- app_comm_cons.
    change (skip_ws (comma :: print_fields ((k', y) :: r) ++ "}"%char :: rest))
      with (comma :: print_fields ((k', y) :: r) ++ "}"%char :: rest).
    cbv beta iota. change (N_of_ascii comma =? 44)%N with true. cbv beta iota.
    rewrite IH; [ reflexivity | discriminate | exact Hr | simpl in Hn |- *; lia ].
Qed.

Lemma parse_value_array_of f l c tl rest :
  l = c :: tl -> value_start c = true ->
  parse_value (S f) ("["%char :: l ++ rest) =
  ' (vs, r) <- parse_elements (parse_value f) (S (List.length (l ++ rest))) (l ++ rest) ;;
  Parsed (JArray vs, r).
Proof. intros -> H. apply parse_value_array, H. Qed.

Lemma parse_value_object_of f l c tl rest :
  l = c :: tl -> value_start c = true ->
  parse_value (S f) ("{"%char :: l ++ rest) =
  ' (ms, r) <- parse_members (parse_value f) (S (List.length (l ++ rest))) (l ++ rest) ;;
  Parsed (JObject ms, r).
Proof. intros -> H. apply parse_value_object, H. Qed.

Lemma print_elements_starts x r :
  plain x = true -> exists c tl, print_elements (x :: r) = c :: tl /\ value_start c = true.
Proof.
  intros Hx. destruct (print_starts x Hx) as (c & tl & Hc & Hs).
  destruct r as [ | y r ].
  - exists c, tl. split; [ exact Hc | exact Hs ].
  - change (print_elements (x :: y :: r)) with (print x ++ comma :: print_elements (y :: r)).
    rewrite Hc. eexists; eexists. split; [ reflexivity | exact Hs ].
Qed.

Lemma print_fields_starts k x r :
  exists tl, print_fields ((k, x) :: r) = dquote :: tl.
Proof. destruct r as [ | [k' y] r ]; eexists; reflexivity. Qed.

(** [parse_value] reads a printed value back, whatever follows it. *)
Lemma parse_print v :
  plain v = true ->
  forall fuel rest, List.length (print v) <= fuel ->
    parse_value fuel (print v ++ rest) = Parsed (v, rest).
Proof.
  induction v as [ | b | lit | s | items IH | members IH ] using json_induction;
    intros Hp fuel rest Hf.
  - destruct fuel; [ simpl in Hf; lia | reflexivity ].
  - destruct fuel; [ destruct b; simpl in Hf; lia | destruct b; reflexivity ].
  - discriminate.
  - destruct fuel; [ simpl in Hf; lia | apply parse_value_string ].
  - rewrite print_array in Hf |- *. simpl in Hp.
    cbn [List.length] in Hf. rewrite length_app in Hf. cbn [List.length] in Hf.
    destruct fuel as [ | f ]; [ lia | ].
    destruct items as [ | x r ]; [ reflexivity | ].
    destruct (length_print_elements _ Hp) as [Hlen Hin].
    assert (Hx : plain x = true) by (simpl in Hp; apply andb_true_iff in Hp; tauto).
    destruct (print_elements_starts x r Hx) as (c & tl & E & Hs).
    rewrite <- app_comm_cons, <- app_assoc.
    rewrite (parse_value_array_of f _ c tl _ E Hs).
    change (["]"%char] ++ rest) with ("]"%char :: rest).
    rewrite parse_printed_elements; [ reflexivity | discriminate | | ].
    + rewrite Forall_forall in IH |- *. intros z Hz rest'.
      apply IH; [ exact Hz | | ].
      * rewrite forallb_forall in Hp. apply Hp, Hz.
      * specialize (Hin z Hz). lia.
    + rewrite length_app. lia.
  - rewrite print_object in Hf |- *. simpl in Hp.
    cbn [List.length] in Hf. rewrite length_app in Hf. cbn [List.length] in Hf.
    destruct fuel as [ | f ]; [ lia | ].
    destruct members as [ | [k x] r ]; [ reflexivity | ].
    destruct (length_print_fields _ Hp) as [Hlen Hin].
    destruct (print_fields_starts k x r) as (tl & E).
    rewrite <- app_comm_cons, <- app_assoc.
    rewrite (parse_value_object_of f _ dquote tl _ E eq_refl).
    change (["}"%char] ++ rest) with ("}"%char :: rest).
    rewrite parse_printed_fields; [ reflexivity | discriminate | | ].
    + rewrite Forall_forall in IH |- *. intros [k0 z] Hz rest'. simpl.
      apply (IH (k0, z) Hz); simpl.
      * rewrite forallb_forall in Hp. apply (Hp (k0, z) Hz).
      * specialize (Hin k0 z Hz). lia.
    + rewrite length_app. lia.
Qed.

(** [JSON.parse(JSON.stringify(v))] is [v] for a value without numbers. *)
Lemma JSON_parse_stringify v :
  plain v = true -> JSON_parse (JSON_stringify v) = Parsed v.
Proof.
  intros Hp. unfold JSON_parse, JSON_stringify.
  rewrite list_ascii_of_string_of_list_ascii.
  rewrite <- (app_nil_r (print v)) at 2.
  rewrite parse_print; [ reflexivity | exact Hp | lia ].
Qed.

(** *** [JSON.parse] never runs out of fuel *)

Lemma skip_ws_length cs : List.length (skip_ws cs) <= List.length cs.
Proof.
  induction cs as [ | c r IH ]; simpl; [ lia | ].
  destruct (is_ws c); simpl; lia.
Qed.

Lemma cons_unit_parsed c m s r :
  cons_unit c m = Parsed (s, r) -> exists s', m = Parsed (s', r).
Proof.
  unfold cons_unit. destruct m as [[s' r'] | | | ]; simpl; try discriminate.
  intros H. injection H as _ <-. eauto.
Qed.

Lemma parse_units_shrinks n : forall cs s r,
  List.length cs <= n -> parse_units cs = Parsed (s, r) -> List.length r < List.length cs.
Proof.
  induction n as [ | n IH ]; intros cs s r Hn H.
  - destruct cs; [ discriminate H | simpl in Hn; lia ].
  - destruct cs as [ | c cs ]; [ discriminate H | ].
    simpl in Hn, H.
    destruct (N_of_ascii c =? 34)%N; [ injection H as _ <-; simpl; lia | ].
    destruct (N_of_ascii c =? 92)%N.
    + destruct cs as [ | e cs ]; [ discriminate H | ].
      destruct (N_of_ascii e =? 117)%N.
      * destruct cs as [ | h1 [ | h2 [ | h3 [ | h4 cs ] ] ] ]; try discriminate H.
        destruct (hex4 h1 h2 h3 h4) as [k | ]; [ | discriminate H ].
        destruct (k <? 256)%N; [ | discriminate H ].
        apply cons_unit_parsed in H as [s' H].
        apply IH in H; simpl in *; lia.
      * destruct (unescape e); [ | discriminate H ].
        apply cons_unit_parsed in H as [s' H].
        apply IH in H; simpl in *; lia.
    + destruct (N_of_ascii c <? 32)%N; [ discriminate H | ].
      apply cons_unit_parsed in H as [s' H].
      apply IH in H; simpl in *; lia.
Qed.

Lemma span_digits_length cs : List.length (snd (span_digits cs)) <= List.length cs.
Proof.
  induction cs as [ | c r IH ]; simpl; [ lia | ].
  destruct (is_digit c); [ | simpl; lia ].
  destruct (span_digits r) as [ds r']. simpl in *. lia.
Qed.

Lemma parse_int_part_shrinks cs ip r :
  parse_int_part cs = Parsed (ip, r) -> List.length r < List.length cs.
Proof.
  destruct cs as [ | d cs ]; simpl; [ discriminate | ].
  destruct (N_of_ascii d =? 48)%N; [ intros H; injection H as _ <-; lia | ].
  destruct (is_digit d); [ | discriminate ].
  pose proof (span_digits_length cs) as L. destruct (span_digits cs) as [ds r'].
  intros H. injection H as _ <-. simpl in *. lia.
Qed.

Lemma parse_fraction_shrinks cs fp r :
  parse_fraction cs = Parsed (fp, r) -> List.length r <= List.length cs.
Proof.
  destruct cs as [ | c cs ]; simpl; [ intros H; injection H as _ <-; simpl; lia | ].
  destruct (N_of_ascii c =? 46)%N; [ | intros H; injection H as _ <-; simpl; lia ].
  pose proof (span_digits_length cs) as L. destruct (span_digits cs) as [[ | d ds] r'];
    [ discriminate | ].
  intros H. injection H as _ <-. simpl in *. lia.
Qed.

Lemma parse_exponent_shrinks cs ep r :
  parse_exponent cs = Parsed (ep, r) -> List.length r <= List.length cs.
Proof.
  destruct cs as [ | c cs ]; simpl; [ intros H; injection H as _ <-; simpl; lia | ].
  destruct ((N_of_ascii c =? 101) || (N_of_ascii c =? 69))%N;
    [ | intros H; injection H as _ <-; simpl; lia ].
  destruct cs as [ | s0 cs ].
  - simpl. discriminate.
  - destruct ((N_of_ascii s0 =? 43) || (N_of_ascii s0 =? 45))%N.
    + pose proof (span_digits_length cs) as L.
      destruct (span_digits cs) as [[ | d ds] r']; [ discriminate | ].
      intros H. injection H as _ <-. simpl in *. lia.
    + pose proof (span_digits_length (s0 :: cs)) as L.
      destruct (span_digits (s0 :: cs)) as [[ | d ds] r']; [ discriminate | ].
      intros H. injection H as _ <-. simpl in *. lia.
Qed.

Lemma parse_number_shrinks cs v r :
  parse_number cs = Parsed (v, r) -> List.length r < List.length cs.
Proof.
  unfold parse_number.
  assert (G : forall sg r0, List.length r0 <= List.length cs ->
    (' (ip, r1) <- parse_int_part r0 ;;
     ' (fp, r2) <- parse_fraction r1 ;;
     ' (ep, r3) <- parse_exponent r2 ;;
     Parsed (JNumber (string_of_list_ascii (sg ++ ip ++ fp ++ ep)), r3)) = Parsed (v, r) ->
    List.length r < List.length cs).
  { intros sg r0 L H.
    destruct (parse_int_part r0) as [[ip r1] | | | ] eqn:E1; try discriminate H.
    simpl in H.
    destruct (parse_fraction r1) as [[fp r2] | | | ] eqn:E2; try discriminate H.
    simpl in H.
    destruct (parse_exponent r2) as [[ep r3] | | | ] eqn:E3; try discriminate H.
    simpl in H. injection H as _ <-.
    apply parse_int_part_shrinks in E1. apply parse_fraction_shrinks in E2.
    apply parse_exponent_shrinks in E3. lia. }
  destruct cs as [ | c cs ]; [ apply G; simpl; lia | ].
  destruct (N_of_ascii c =? 45)%N; apply G; simpl; lia.
Qed.

Lemma keyword_shrinks w v cs v' r :
  w <> EmptyString -> keyword w v cs = Parsed (v', r) -> List.length r < List.length cs.
Proof.
  unfold keyword. intros Hw.
  destruct (list_eq_dec ascii_dec _ _) as [E | ]; [ | discriminate ].
  intros H. injection H as _ <-.
  assert (L : 1 <= List.length (list_ascii_of_string w)) by (destruct w; simpl; [ congruence | lia ]).
  pose proof (f_equal (@List.length ascii) E) as E'. rewrite length_firstn in E'.
  rewrite length_skipn. lia.
Qed.

Lemma parse_elements_shrinks pv :
  consuming pv -> forall n, consuming (parse_elements pv n).
Proof.
  intros Hpv. induction n as [ | n IH ]; intros cs vs r H; [ discriminate H | ].
  rewrite parse_elements_step in H.
  destruct (pv cs) as [[v r1] | | | ] eqn:E; try discriminate H. simpl in H.
  apply Hpv in E. pose proof (skip_ws_length r1) as L.
  destruct (skip_ws r1) as [ | c r' ]; [ discriminate H | ].
  destruct (N_of_ascii c =? 44)%N.
  - destruct (parse_elements pv n r') as [[vs' r''] | | | ] eqn:E'; try discriminate H.
    simpl in H. injection H as _ <-. apply IH in E'. simpl in L. lia.
  - destruct (N_of_ascii c =? 93)%N; [ | discriminate H ].
    injection H as _ <-. simpl in *. lia.
Qed.

Lemma parse_members_shrinks pv :
  consuming pv -> forall n, consuming (parse_members pv n).
Proof.
  intros Hpv. induction n as [ | n IH ]; intros cs ms r H; [ discriminate H | ].
  cbn [parse_members] in H.
  pose proof (skip_ws_length cs) as L0.
  destruct (skip_ws cs) as [ | q r0 ]; [ discriminate H | ].
  destruct (N_of_ascii q =? 34)%N; [ | discriminate H ].
  destruct (parse_units r0) as [[k r1] | | | ] eqn:E1; try discriminate H. simpl in H.
  apply (parse_units_shrinks _ _ _ _ (le_n _)) in E1.
  pose proof (skip_ws_length r1) as L1.
  destruct (skip_ws r1) as [ | c r2 ]; [ discriminate H | ].
  destruct (N_of_ascii c =? 58)%N; [ | discriminate H ].
  destruct (pv r2) as [[v r3] | | | ] eqn:E2; try discriminate H. simpl in H.
  apply Hpv in E2. pose proof (skip_ws_length r3) as L3.
  destruct (skip_ws r3) as [ | d r4 ]; [ discriminate H | ].
  destruct (N_of_ascii d =? 44)%N.
  - destruct (parse_members pv n r4) as [[ms' r5] | | | ] eqn:E'; try discriminate H.
    simpl in H. injection H as _ <-. apply IH in E'. simpl in *. lia.
  - destruct (N_of_ascii d =? 125)%N; [ | discriminate H ].
    injection H as _ <-. simpl in *. lia.
Qed.

Lemma parse_value_shrinks fuel : consuming (parse_value fuel).
Proof.
  induction fuel as [ | f IH ]; intros cs v r H; [ discriminate H | ].
  cbn [parse_value] in H.
  pose proof (skip_ws_length cs) as L0.
  destruct (skip_ws cs) as [ | c r0 ]; [ discriminate H | ].
  cbv zeta in H.
  destruct (N_of_ascii c =? 34)%N.
  { destruct (parse_units r0) as [[s r1] | | | ] eqn:E; try discriminate H.
    simpl in H. injection H as _ <-.
    apply (parse_units_shrinks _ _ _ _ (le_n _)) in E. simpl in *. lia. }
  destruct (N_of_ascii c =? 91)%N.
  { pose proof (skip_ws_length r0) as L1.
    destruct (skip_ws r0) as [ | c' r' ]; [ discriminate H | ].
    destruct (N_of_ascii c' =? 93)%N; [ injection H as _ <-; simpl in *; lia | ].
    destruct (parse_elements _ _ r0) as [[vs r1] | | | ] eqn:E; try discriminate H.
    simpl in H. injection H as _ <-.
    apply (parse_elements_shrinks _ IH) in E. simpl in *. lia. }
  destruct (N_of_ascii c =? 123)%N.
  { pose proof (skip_ws_length r0) as L1.
    destruct (skip_ws r0) as [ | c' r' ]; [ discriminate H | ].
    destruct (N_of_ascii c' =? 125)%N; [ injection H as _ <-; simpl in *; lia | ].
    destruct (parse_members _ _ r0) as [[ms r1] | | | ] eqn:E; try discriminate H.
    simpl in H. injection H as _ <-.
    apply (parse_members_shrinks _ IH) in E. simpl in *. lia. }
  destruct (N_of_ascii c =? 116)%N;
    [ apply keyword_shrinks in H; [ simpl in *; lia | discriminate ] | ].
  destruct (N_of_ascii c =? 102)%N;
    [ apply keyword_shrinks in H; [ simpl in *; lia | discriminate ] | ].
  destruct (N_of_ascii c =? 110)%N;
    [ apply keyword_shrinks in H; [ simpl in *; lia | discriminate ] | ].
  destruct ((N_of_ascii c =? 45)%N || is_digit c); [ | discriminate H ].
  apply parse_number_shrinks in H. simpl in *. lia.
Qed.

Lemma parse_units_fed cs : parse_units cs <> Starved.
Proof.
  assert (C : forall c m, m <> Starved -> cons_unit c m <> Starved).
  { intros c [[s r] | | | ] Hm; simpl; congruence. }
  assert (G : forall n cs, List.length cs <= n -> parse_units cs <> Starved).
  { clear cs. induction n as [ | n IH ]; intros cs Hn.
    - destruct cs; [ discriminate | simpl in Hn; lia ].
    - destruct cs as [ | c cs ]; [ discriminate | ]. simpl in Hn |- *.
      destruct (N_of_ascii c =? 34)%N; [ discriminate | ].
      destruct (N_of_ascii c =? 92)%N.
      + destruct cs as [ | e cs ]; [ discriminate | ].
        destruct (N_of_ascii e =? 117)%N.
        * destruct cs as [ | h1 [ | h2 [ | h3 [ | h4 cs ] ] ] ]; try discriminate.
          destruct (hex4 h1 h2 h3 h4) as [k | ]; [ | discriminate ].
          destruct (k <? 256)%N; [ | discriminate ].
          apply C, IH. simpl in *. lia.
        * destruct (unescape e); [ | discriminate ]. apply C, IH. simpl in *. lia.
      + destruct (N_of_ascii c <? 32)%N; [ discriminate | ]. apply C, IH. lia. }
  apply (G (List.length cs)). lia.
Qed.

Lemma parse_number_fed cs : parse_number cs <> Starved.
Proof.
  unfold parse_number.
  assert (G : forall sg r0,
    (' (ip, r1) <- parse_int_part r0 ;;
     ' (fp, r2) <- parse_fraction r1 ;;
     ' (ep, r3) <- parse_exponent r2 ;;
     Parsed (JNumber (string_of_list_ascii (sg ++ ip ++ fp ++ ep)), r3)) <> Starved).
  { intros sg r0.
    assert (I : parse_int_part r0 <> Starved).
    { destruct r0 as [ | d r0 ]; simpl; [ discriminate | ].
      destruct (N_of_ascii d =? 48)%N; [ discriminate | ].
      destruct (is_digit d); [ | discriminate ].
      destruct (span_digits r0); discriminate. }
    destruct (parse_int_part r0) as [[ip r1] | | | ]; simpl; try congruence.
    assert (F : parse_fraction r1 <> Starved).
    { destruct r1 as [ | c r1 ]; simpl; [ discriminate | ].
      destruct (N_of_ascii c =? 46)%N; [ | discriminate ].
      destruct (span_digits r1) as [[ | ? ?] ?]; discriminate. }
    destruct (parse_fraction r1) as [[fp r2] | | | ]; simpl; try congruence.
    assert (X : parse_exponent r2 <> Starved).
    { destruct r2 as [ | c r2 ]; simpl; [ discriminate | ].
      destruct ((N_of_ascii c =? 101) || (N_of_ascii c =? 69))%N; [ | discriminate ].
      destruct r2 as [ | s0 r2 ]; [ simpl; discriminate | ].
      destruct ((N_of_ascii s0 =? 43) || (N_of_ascii s0 =? 45))%N;
        match goal with |- context [span_digits ?l] =>
          destruct (span_digits l) as [[ | ? ?] ?]; discriminate end. }
    destruct (parse_exponent r2) as [[ep r3] | | | ]; simpl; congruence. }
  destruct cs as [ | c cs ]; [ apply G | ].
  destruct (N_of_ascii c =? 45)%N; apply G.
Qed.

Lemma keyword_fed w v cs : keyword w v cs <> Starved.
Proof. unfold keyword. destruct (list_eq_dec _ _ _); discriminate. Qed.

Lemma parse_elements_fed bound pv :
  consuming pv -> fed bound pv ->
  forall n cs, List.length cs < n -> List.length cs < bound ->
    parse_elements pv n cs <> Starved.
Proof.
  intros Hc Hf. induction n as [ | n IH ]; intros cs Hn Hb; [ lia | ].
  rewrite parse_elements_step.
  pose proof (Hf cs Hb) as F.
  destruct (pv cs) as [[v r1] | | | ] eqn:E; simpl; try congruence.
  apply Hc in E. pose proof (skip_ws_length r1) as L.
  destruct (skip_ws r1) as [ | c r' ]; [ discriminate | ].
  destruct (N_of_ascii c =? 44)%N.
  - assert (R : parse_elements pv n r' <> Starved) by (apply IH; simpl in *; lia).
    destruct (parse_elements pv n r') as [[vs r''] | | | ]; simpl; congruence.
  - destruct (N_of_ascii c =? 93)%N; discriminate.
Qed.

Lemma parse_members_fed bound pv :
  consuming pv -> fed bound pv ->
  forall n cs, List.length cs < n -> List.length cs < S bound ->
    parse_members pv n cs <> Starved.
Proof.
  intros Hc Hf. induction n as [ | n IH ]; intros cs Hn Hb; [ lia | ].
  cbn [parse_members].
  pose proof (skip_ws_length cs) as L0.
  destruct (skip_ws cs) as [ | q r0 ]; [ discriminate | ].
  destruct (N_of_ascii q =? 34)%N; [ | discriminate ].
  pose proof (parse_units_fed r0) as U.
  destruct (parse_units r0) as [[k r1] | | | ] eqn:E1; simpl; try congruence.
  apply (parse_units_shrinks _ _ _ _ (le_n _)) in E1.
  pose proof (skip_ws_length r1) as L1.
  destruct (skip_ws r1) as [ | c r2 ]; [ discriminate | ].
  destruct (N_of_ascii c =? 58)%N; [ | discriminate ].
  assert (F : pv r2 <> Starved) by (apply Hf; simpl in *; lia).
  destruct (pv r2) as [[v r3] | | | ] eqn:E2; simpl; try congruence.
  apply Hc in E2. pose proof (skip_ws_length r3) as L3.
  destruct (skip_ws r3) as [ | d r4 ]; [ discriminate | ].
  destruct (N_of_ascii d =? 44)%N.
  - assert (R : parse_members pv n r4 <> Starved) by (apply IH; simpl in *; lia).
    destruct (parse_members pv n r4) as [[ms r5] | | | ]; simpl; congruence.
  - destruct (N_of_ascii d =? 125)%N; discriminate.
Qed.

Lemma parse_value_fed fuel : fed fuel (parse_value fuel).
Proof.
  induction fuel as [ | f IH ]; intros cs Hn; [ lia | ].
  cbn [parse_value].
  pose proof (skip_ws_length cs) as L0.
  destruct (skip_ws cs) as [ | c r0 ]; [ discriminate | ].
  cbv zeta.
  destruct (N_of_ascii c =? 34)%N.
  { pose proof (parse_units_fed r0) as U.
    destruct (parse_units r0) as [[s r1] | | | ]; simpl; congruence. }
  destruct (N_of_ascii c =? 91)%N.
  { destruct (skip_ws r0) as [ | c' r' ]; [ discriminate | ].
    destruct (N_of_ascii c' =? 93)%N; [ discriminate | ].
    assert (R : parse_elements (parse_value f) (S (List.length r0)) r0 <> Starved).
    { apply (parse_elements_fed f); [ apply parse_value_shrinks | exact IH | lia | ].
      simpl in *. lia. }
    destruct (parse_elements _ _ r0) as [[vs r1] | | | ]; simpl; congruence. }
  destruct (N_of_ascii c =? 123)%N.
  { destruct (skip_ws r0) as [ | c' r' ]; [ discriminate | ].
    destruct (N_of_ascii c' =? 125)%N; [ discriminate | ].
    assert (R : parse_members (parse_value f) (S (List.length r0)) r0 <> Starved).
    { apply (parse_members_fed f); [ apply parse_value_shrinks | exact IH | lia | ].
      simpl in *. lia. }
    destruct (parse_members _ _ r0) as [[ms r1] | | | ]; simpl; congruence. }
  destruct (N_of_ascii c =? 116)%N; [ apply keyword_fed | ].
  destruct (N_of_ascii c =? 102)%N; [ apply keyword_fed | ].
  destruct (N_of_ascii c =? 110)%N; [ apply keyword_fed | ].
  destruct ((N_of_ascii c =? 45)%N || is_digit c); [ apply parse_number_fed | discriminate ].
Qed.

(** The fuel [JSON_parse] gives is enough for every text. *)
Lemma JSON_parse_total text : JSON_parse text <> Starved.
Proof.
  unfold JSON_parse.
  pose proof (parse_value_fed (S (List.length (list_ascii_of_string text)))
                (list_ascii_of_string text) (Nat.lt_succ_diag_r _)) as F.
  destruct (parse_value _ _) as [[v r] | | | ]; simpl; try congruence.
  destruct (skip_ws r); discriminate.
Qed.

End JsonFacts.

(** ** Strings *)

Section StringFacts.

(** *** The strings of the page among the UTF-16 strings *)

Lemma of_string_cons c s :
  UTF16.of_string (String c s) = N_of_ascii c :: UTF16.of_string s.
Proof. reflexivity. Qed.

Lemma N_of_ascii_lower c : N_of_ascii (JS.lower_unit c) = UTF16.lower_unit (N_of_ascii c).
Proof. destruct c as [[] [] [] [] [] [] [] []]; vm_compute; reflexivity. Qed.

Lemma latin1_of_ascii c : UTF16.latin1 (N_of_ascii c) = true.
Proof. destruct c as [[] [] [] [] [] [] [] []]; reflexivity. Qed.

Lemma N_of_ascii_eqb a b : (N_of_ascii a =? N_of_ascii b)%N = Ascii.eqb a b.
Proof.
  destruct (Ascii.eqb a b) eqn:E.
  - apply Ascii.eqb_eq in E. subst. apply N.eqb_refl.
  - apply N.eqb_neq. intros H. apply Ascii.eqb_neq in E. apply E.
    rewrite <- (ascii_N_embedding a), <- (ascii_N_embedding b), H. reflexivity.
Qed.

Lemma of_string_lower s :
  UTF16.of_string (JS.toLowerCase s) = map UTF16.lower_unit (UTF16.of_string s).
Proof.
  induction s as [ | c s IH ]; [ reflexivity | ].
  cbn [JS.toLowerCase]. rewrite !of_string_cons. cbn [map].
  rewrite N_of_ascii_lower, IH. reflexivity.
Qed.

Lemma of_string_latin1 s : forallb UTF16.latin1 (UTF16.of_string s) = true.
Proof.
  induction s as [ | c s IH ]; [ reflexivity | ].
  rewrite of_string_cons. cbn [forallb]. rewrite latin1_of_ascii, IH. reflexivity.
Qed.

Lemma eqb_of_string a b :
  UTF16.eqb (UTF16.of_string a) (UTF16.of_string b) = (a =? b)%string.
Proof.
  revert b. induction a as [ | x a IH ]; intros [ | y b ]; try reflexivity.
  rewrite !of_string_cons. cbn [UTF16.eqb String.eqb]. rewrite N_of_ascii_eqb, IH.
  destruct (Ascii.eqb x y); reflexivity.
Qed.

Lemma startsWith_of_string s p :
  UTF16.startsWith (UTF16.of_string s) (UTF16.of_string p) = JS.startsWith s p.
Proof.
  revert s. induction p as [ | a p IH ]; intros s; [ destruct s; reflexivity | ].
  destruct s as [ | b s ]; [ reflexivity | ].
  rewrite !of_string_cons. cbn [UTF16.startsWith JS.startsWith].
  rewrite N_of_ascii_eqb, IH. reflexivity.
Qed.

Lemma includes_of_string s p :
  UTF16.includes (UTF16.of_string s) (UTF16.of_string p) = JS.includes s p.
Proof.
  induction s as [ | b s IH ].
  - cbn [UTF16.includes JS.includes].
    rewrite <- (startsWith_of_string EmptyString p). reflexivity.
  - rewrite of_string_cons. cbn [UTF16.includes JS.includes].
    rewrite <- of_string_cons, startsWith_of_string, IH. reflexivity.
Qed.

Lemma eqb_eq a b : UTF16.eqb a b = true <-> a = b.
Proof.
  revert b. induction a as [ | x a IH ]; intros [ | y b ]; cbn [UTF16.eqb];
    try (split; [ discriminate | discriminate ]); [ tauto | ].
  rewrite andb_true_iff, N.eqb_eq, IH. split.
  - intros [-> ->]. reflexivity.
  - intros E. injection E as -> ->. auto.
Qed.

(** *** [toLowerCase] away from the capital sigma *)

Lemma latin1_modelled u : UTF16.latin1 u = true -> UTF16.modelled u = true.
Proof. unfold UTF16.modelled. intros ->. reflexivity. Qed.

Lemma latin1_not_sigma u :
  UTF16.latin1 u = true -> negb (u =? UTF16.capital_sigma)%N = true.
Proof.
  unfold UTF16.latin1, UTF16.capital_sigma. intros H. apply N.ltb_lt in H.
  apply negb_true_iff, N.eqb_neq. lia.
Qed.

Lemma forallb_weaken {A} (p q : A -> bool) l :
  (forall x, p x = true -> q x = true) -> forallb p l = true -> forallb q l = true.
Proof.
  intros H. rewrite !forallb_forall. intros F x Hx. apply H, F, Hx.
Qed.

(** In front of a stretch without capital sigma the units are lowered one
    by one, whatever surrounds them. *)
Lemma lower_from_app before s r :
  forallb (fun u => negb (u =? UTF16.capital_sigma)%N) s = true ->
  UTF16.lower_from before (s ++ r) =
  map UTF16.lower_unit s ++ UTF16.lower_from (rev s ++ before) r.
Proof.
  revert before. induction s as [ | u s IH ]; intros before H; [ reflexivity | ].
  cbn [forallb] in H. apply andb_true_iff in H as [Hu Hs]. apply negb_true_iff in Hu.
  cbn [Datatypes.app UTF16.lower_from map rev]. rewrite Hu, (IH _ Hs), <- app_assoc. reflexivity.
Qed.

Lemma lower_from_plain before s :
  forallb (fun u => negb (u =? UTF16.capital_sigma)%N) s = true ->
  UTF16.lower_from before s = map UTF16.lower_unit s.
Proof.
  intros H. rewrite <- (app_nil_r s) at 1. rewrite (lower_from_app _ _ _ H).
  apply app_nil_r.
Qed.

(** Below U+0100 [toLowerCase] is defined and lowers unit by unit. *)
Lemma toLowerCase_latin1 s :
  forallb UTF16.latin1 s = true -> UTF16.toLowerCase s = Some (map UTF16.lower_unit s).
Proof.
  intros H. unfold UTF16.toLowerCase.
  rewrite (forallb_weaken _ _ s latin1_modelled H).
  rewrite (lower_from_plain [] s (forallb_weaken _ _ s latin1_not_sigma H)). reflexivity.
Qed.

(** On the strings of the page the two models of [toLowerCase] agree. *)
Lemma toLowerCase_of_string s :
  UTF16.toLowerCase (UTF16.of_string s) = Some (UTF16.of_string (JS.toLowerCase s)).
Proof. rewrite (toLowerCase_latin1 _ (of_string_latin1 s)), of_string_lower. reflexivity. Qed.

(** *** Lower case and letters *)

Lemma latin1_In u : UTF16.latin1 u = true -> In u (map N.of_nat (seq 0 256)).
Proof.
  unfold UTF16.latin1. intros H. apply N.ltb_lt in H. apply in_map_iff.
  exists (N.to_nat u). split; [ apply N2Nat.id | ]. apply in_seq. lia.
Qed.

(** Two units below U+0100 have the same lower case exactly when they are
    one letter of the alphabet. *)
Lemma same_letter_lower a b :
  UTF16.latin1 a = true -> UTF16.latin1 b = true ->
  Spec.same_letter a b = (UTF16.lower_unit a =? UTF16.lower_unit b)%N.
Proof.
  intros Ha Hb.
  assert (T : forallb
                (fun x => forallb
                   (fun y => Bool.eqb (Spec.same_letter x y)
                                      (UTF16.lower_unit x =? UTF16.lower_unit y)%N)
                   (map N.of_nat (seq 0 256)))
                (map N.of_nat (seq 0 256)) = true) by (vm_compute; reflexivity).
  rewrite forallb_forall in T. specialize (T a (latin1_In a Ha)).
  rewrite forallb_forall in T. specialize (T b (latin1_In b Hb)).
  apply Bool.eqb_prop in T. exact T.
Qed.

Lemma same_letter_refl a : Spec.same_letter a a = true.
Proof. unfold Spec.same_letter. rewrite N.eqb_refl. reflexivity. Qed.

Lemma startsWith_lower s p :
  forallb UTF16.latin1 s = true -> forallb UTF16.latin1 p = true ->
  UTF16.startsWith (map UTF16.lower_unit s) (map UTF16.lower_unit p) =
  Spec.starts_ignoring_case s p.
Proof.
  revert s. induction p as [ | a p IH ]; intros s Hs Hp; [ destruct s; reflexivity | ].
  destruct s as [ | b s ]; [ reflexivity | ].
  cbn [forallb] in Hs, Hp. apply andb_true_iff in Hs as [Hb Hs].
  apply andb_true_iff in Hp as [Ha Hp].
  cbn [map UTF16.startsWith Spec.starts_ignoring_case].
  rewrite (IH s Hs Hp), (same_letter_lower a b Ha Hb). reflexivity.
Qed.

Lemma includes_lower s p :
  forallb UTF16.latin1 s = true -> forallb UTF16.latin1 p = true ->
  UTF16.includes (map UTF16.lower_unit s) (map UTF16.lower_unit p) =
  Spec.contains_ignoring_case s p.
Proof.
  intros Hs Hp. induction s as [ | b s IH ].
  - cbn [map UTF16.includes Spec.contains_ignoring_case].
    rewrite <- (startsWith_lower [] p Hs Hp). reflexivity.
  - cbn [UTF16.includes Spec.contains_ignoring_case map].
    change (UTF16.lower_unit b :: map UTF16.lower_unit s)
      with (map UTF16.lower_unit (b :: s)).
    rewrite (startsWith_lower (b :: s) p Hs Hp).
    cbn [forallb] in Hs. apply andb_true_iff in Hs as [_ Hs]. rewrite (IH Hs). reflexivity.
Qed.

(** *** What the specification's matching means *)

Lemma starts_ignoring_case_spec s p :
  Spec.starts_ignoring_case s p = true <->
  exists mid post, s = mid ++ post /\
                   Forall2 (fun a b => Spec.same_letter a b = true) p mid.
Proof.
  revert s. induction p as [ | a p IH ]; intros s.
  - split; [ intros _; exists [], s; split; [ reflexivity | constructor ]
           | destruct s; reflexivity ].
  - destruct s as [ | b s ].
    + split; [ discriminate | ].
      intros (mid & post & E & F). inversion F; subst. discriminate.
    + cbn [Spec.starts_ignoring_case]. rewrite andb_true_iff, IH. split.
      * intros (Hab & mid & post & -> & F).
        exists (b :: mid), post. split; [ reflexivity | constructor; assumption ].
      * intros (mid & post & E & F). inversion F as [ | x y p' mid' Hxy F' ]; subst.
        injection E as -> ->. split; [ exact Hxy | ]. exists mid', post. auto.
Qed.

Lemma contains_ignoring_case_spec s p :
  Spec.contains_ignoring_case s p = true <->
  exists pre mid post, s = pre ++ mid ++ post /\
                       Forall2 (fun a b => Spec.same_letter a b = true) p mid.
Proof.
  induction s as [ | b s IH ]; cbn [Spec.contains_ignoring_case]; rewrite orb_true_iff.
  - rewrite starts_ignoring_case_spec. split.
    + intros [ (mid & post & H) | H ]; [ | discriminate ].
      exists [], mid, post. exact H.
    + intros (pre & mid & post & E & H). destruct pre; [ | discriminate ].
      left. exists mid, post. split; [ exact E | exact H ].
  - rewrite IH, starts_ignoring_case_spec. split.
    + intros [ (mid & post & H) | (pre & mid & post & -> & H) ].
      * exists [], mid, post. exact H.
      * exists (b :: pre), mid, post. split; [ reflexivity | exact H ].
    + intros (pre & mid & post & E & H). destruct pre as [ | c pre ].
      * left. exists mid, post. split; [ exact E | exact H ].
      * right. cbn [Datatypes.app] in E. injection E as -> ->. exists pre, mid, post. auto.
Qed.

Lemma contains_empty s : Spec.contains_ignoring_case s [] = true.
Proof. destruct s; reflexivity. Qed.

Lemma starts_shorter s p q :
  Spec.starts_ignoring_case s (p ++ q) = true -> Spec.starts_ignoring_case s p = true.
Proof.
  revert s. induction p as [ | a p IH ]; intros s H; [ destruct s; reflexivity | ].
  destruct s as [ | b s ]; [ discriminate H | ].
  cbn [Datatypes.app Spec.starts_ignoring_case] in H |- *.
  apply andb_true_iff in H as [H1 H2]. rewrite H1. apply IH, H2.
Qed.

Lemma contains_shorter s p q :
  Spec.contains_ignoring_case s (p ++ q) = true -> Spec.contains_ignoring_case s p = true.
Proof.
  induction s as [ | b s IH ]; cbn [Spec.contains_ignoring_case]; rewrite !orb_true_iff.
  - intros [H | H]; [ left; apply (starts_shorter _ _ q), H | discriminate ].
  - intros [H | H]; [ left; apply (starts_shorter _ _ q), H | right; apply IH, H ].
Qed.

End StringFacts.

(** ** The note store: query, toggle, delete *)

Section StoreFacts.

Lemma filter_notes_typed day term store :
  Forall well_typed store ->
  filter_notes day term store = Normal (filter (shown day term) store).
Proof.
  induction 1 as [ | n r [t Ht] _ IH ]; [ reflexivity | ].
  cbn [filter_notes filter]. unfold shown at 1. rewrite Ht, IH.
  destruct (date n =? day); cbn [andb]; [ | reflexivity ].
  destruct (JS.includes (JS.toLowerCase t) (JS.toLowerCase term)); reflexivity.
Qed.

Lemma rerender_is_silent w st l :
  app w = Some st -> filteredNotes st = Normal l -> commit st false w = w.
Proof.
  intros Ha Hr. unfold commit. rewrite Hr. destruct w; simpl in *. subst. reflexivity.
Qed.

(** *** The filter on UTF-16 strings *)

Lemma listed_latin1 day term n :
  forallb UTF16.latin1 (UTF16.text n) = true -> forallb UTF16.latin1 term = true ->
  UTF16.listed day term n = Some (Spec.matches day term n).
Proof.
  intros Hn Ht. unfold UTF16.listed, Spec.matches.
  destruct (UTF16.eqb (UTF16.date n) day); [ | reflexivity ].
  rewrite (toLowerCase_latin1 _ Hn), (toLowerCase_latin1 _ Ht), (includes_lower _ _ Hn Ht).
  reflexivity.
Qed.

Lemma filter_notes_latin1 day term store :
  Forall (fun n => forallb UTF16.latin1 (UTF16.text n) = true) store ->
  forallb UTF16.latin1 term = true ->
  UTF16.filter_notes day term store = Some (Spec.query day term store).
Proof.
  intros H Ht. induction H as [ | n r Hn _ IH ]; [ reflexivity | ].
  cbn [UTF16.filter_notes]. rewrite (listed_latin1 day term n Hn Ht), IH.
  unfold Spec.query. cbn [filter]. destruct (Spec.matches day term n); reflexivity.
Qed.

(** On a note of the page the two models of the test agree. *)
Lemma listed_wide day term n :
  well_typed n ->
  UTF16.listed (UTF16.of_string day) (UTF16.of_string term) (wide n) =
  Some (shown day term n).
Proof.
  intros [t Ht]. unfold UTF16.listed, shown, wide. rewrite Ht.
  cbn [UTF16.date UTF16.text]. rewrite eqb_of_string.
  destruct (date n =? day); [ | reflexivity ].
  rewrite !toLowerCase_of_string, includes_of_string. reflexivity.
Qed.

Lemma filter_notes_wide day term store :
  Forall well_typed store ->
  UTF16.filter_notes (UTF16.of_string day) (UTF16.of_string term) (map wide store) =
  Some (map wide (filter (shown day term) store)).
Proof.
  induction 1 as [ | n r Hn _ IH ]; [ reflexivity | ].
  cbn [map UTF16.filter_notes filter]. rewrite (listed_wide day term n Hn), IH.
  destruct (shown day term n); reflexivity.
Qed.

Lemma wide_latin1 store :
  Forall well_typed store ->
  Forall (fun n => forallb UTF16.latin1 (UTF16.text n) = true) (map wide store).
Proof.
  induction 1 as [ | n r [t Ht] _ IH ]; constructor; [ | exact IH ].
  unfold wide. rewrite Ht. apply of_string_latin1.
Qed.

(** X23.  On texts and search terms of code units below U+0100 the
    [filteredNotes] of a render is the query of the specification for the
    selected day and the search term: the notes of that day whose text
    holds, somewhere, the letters of the term in either case, in the order
    of the store; with the empty term, all the notes of the day.  So it is
    on every page of the model, and rendering it again changes neither the
    state, nor the saved record, nor the console. *)
Theorem filteredNotes_is_query (store : list UTF16.VoiceNote) (d : JSDate)
    (term : UTF16.ustring) :
  Forall (fun n => forallb UTF16.latin1 (UTF16.text n) = true) store ->
  forallb UTF16.latin1 term = true ->
  let day := UTF16.of_string (format_yyyy_MM_dd d) in
  UTF16.filteredNotes store d term = Some (Spec.query day term store) /\
  (forall n, In n (Spec.query day term store) <->
     In n store /\ UTF16.date n = day /\
     exists pre mid post,
       UTF16.text n = pre ++ mid ++ post /\
       Forall2 (fun a b => Spec.same_letter a b = true) term mid) /\
  Spec.query day [] store = filter (fun n => UTF16.eqb (UTF16.date n) day) store /\
  (forall w st,
     app w = Some st -> Forall well_typed (voiceNotes st) ->
     selectedDate st = d -> UTF16.of_string (searchTerm st) = term ->
     exists l, filteredNotes st = Normal l /\
               map wide l = Spec.query day term (map wide (voiceNotes st)) /\
               commit st false w = w).
Proof.
  intros Hs Ht day. split; [ apply (filter_notes_latin1 day term store Hs Ht) | ].
  split; [ | split ].
  - intros n. unfold Spec.query. rewrite filter_In. unfold Spec.matches.
    rewrite andb_true_iff, eqb_eq, contains_ignoring_case_spec. tauto.
  - unfold Spec.query. apply filter_ext. intros n. unfold Spec.matches.
    rewrite contains_empty. apply andb_true_r.
  - intros w st Ha Hty Hd Hq. exists (filter (shown (format_yyyy_MM_dd d) (searchTerm st))
                                         (voiceNotes st)).
    assert (R : filteredNotes st =
                Normal (filter (shown (format_yyyy_MM_dd d) (searchTerm st)) (voiceNotes st))).
    { unfold filteredNotes. rewrite Hd. apply filter_notes_typed, Hty. }
    split; [ exact R | ]. split; [ | apply (rerender_is_silent w st _ Ha R) ].
    assert (E : Some (map wide (filter (shown (format_yyyy_MM_dd d) (searchTerm st))
                                       (voiceNotes st))) =
                Some (Spec.query day term (map wide (voiceNotes st)))).
    { rewrite <- (filter_notes_wide _ _ _ Hty). subst day. rewrite Hq.
      apply filter_notes_latin1; [ apply wide_latin1, Hty | exact Ht ]. }
    injection E as E. exact E.
Qed.

Lemma toggle_flips_back i n :
  let flip := fun note : VoiceNote =>
    if id note =? i
    then mkNote (id note) (date note) (text note) (negb (completed note))
    else note in
  flip (flip n) = n.
Proof.
  simpl. destruct (id n =? i) eqn:E; simpl; rewrite E; [ | reflexivity ].
  rewrite negb_involutive. destruct n; reflexivity.
Qed.

(** C9.  [toggleNoteCompletion] applied twice gives the store back; one
    application negates [completed] on the notes whose [id] is the given one
    and keeps every other note and every other field, so it changes nothing
    when no note has that [id]. *)
Theorem toggleNoteCompletion_involutive (i : string) (store : list VoiceNote) :
  toggleNoteCompletion i (toggleNoteCompletion i store) = store /\
  List.length (toggleNoteCompletion i store) = List.length store /\
  (forall k n, nth_error store k = Some n ->
     exists n', nth_error (toggleNoteCompletion i store) k = Some n' /\
       id n' = id n /\ date n' = date n /\ text n' = text n /\
       completed n' = if id n =? i then negb (completed n) else completed n) /\
  (existsb (fun n => id n =? i) store = false -> toggleNoteCompletion i store = store).
Proof.
  unfold toggleNoteCompletion. split; [ | split; [ | split ] ].
  - rewrite map_map. rewrite <- (map_id store) at 2. apply map_ext.
    intros n. apply (toggle_flips_back i n).
  - apply length_map.
  - intros k n Hk. rewrite nth_error_map, Hk. simpl. eexists. split; [ reflexivity | ].
    destruct (id n =? i); simpl; auto.
  - intros Hno. rewrite <- (map_id store) at 2. apply map_ext_in. intros n Hn.
    destruct (id n =? i) eqn:E; [ | reflexivity ].
    assert (existsb (fun n => id n =? i) store = true) by (apply existsb_exists; eauto).
    congruence.
Qed.

End StoreFacts.

(** ** The page as a transition system *)

(** Case analysis on the code of a step: unfold the handlers and split on
    every scrutinee. *)
Ltac split_match :=
  match goal with
  | |- context [match ?x with _ => _ end] => destruct x eqn:?
  | H : context [match ?x with _ => _ end] |- _ => destruct x eqn:?
  end.

Ltac unfold_handlers :=
  unfold step, on_view, handleSubmit, startRecording, stopRecording,
    startRecording_granted, transcribeAudio_settled, recorder_stop, stop_listener,
    setState, commit, log in *.

Ltac step_cases := unfold_handlers; simpl in *; repeat (split_match; simpl in * ).

Section Machine.

Lemma commit_app st b w st' :
  app (commit st b w) = Some st' -> st' = st /\ exists l, filteredNotes st = Normal l.
Proof.
  unfold commit. destruct (filteredNotes st) as [l | e]; simpl; intros H.
  - injection H as <-. eauto.
  - discriminate.
Qed.

Lemma commit_tables st b w :
  mediaRequests (commit st b w) = mediaRequests w /\
  recorders (commit st b w) = recorders w /\
  fetches (commit st b w) = fetches w.
Proof. unfold commit. destruct (filteredNotes st); simpl; auto. Qed.

(** Once unmounted, always unmounted. *)
Lemma unmounted_step w e : app w = None -> app (step w e) = None.
Proof. intros H. destruct e; step_cases; congruence. Qed.

Lemma unmounted_run es : forall w, app w = None -> app (run w es) = None.
Proof.
  induction es as [ | e es IH ]; intros w H; [ exact H | ].
  simpl. apply IH, unmounted_step, H.
Qed.

Lemma mounted_before_step w e st' : app (step w e) = Some st' -> exists st, app w = Some st.
Proof.
  intros H. destruct (app w) as [st | ] eqn:E; [ eauto | ].
  rewrite (unmounted_step w e E) in H. discriminate.
Qed.

Lemma mounted_before_run es w st' : app (run w es) = Some st' -> exists st, app w = Some st.
Proof.
  intros H. destruct (app w) as [st | ] eqn:E; [ eauto | ].
  rewrite (unmounted_run es w E) in H. discriminate.
Qed.

Lemma healthy_step w e : healthy w -> healthy (step w e).
Proof.
  unfold healthy. intros H st' Hst'.
  destruct e; step_cases; try (injection Hst' as <-); eauto; try discriminate;
    try (apply H; congruence).
Qed.

Lemma healthy_run es : forall w, healthy w -> healthy (run w es).
Proof.
  induction es as [ | e es IH ]; intros w H; [ exact H | ].
  simpl. apply IH, healthy_step, H.
Qed.


(** Every step leaves the saved record equal to the print of the notes in
    memory: the persist effect runs after each [setVoiceNotes]. *)
Lemma in_sync_step w e : in_sync w -> in_sync (step w e).
Proof.
  unfold in_sync. intros H st' Hst'.
  destruct e; step_cases; try (injection Hst' as <-); simpl; try discriminate;
    try reflexivity; try (apply H; congruence);
    try (erewrite H by eauto; reflexivity).
Qed.

Lemma in_sync_run es : forall w, in_sync w -> in_sync (run w es).
Proof.
  induction es as [ | e es IH ]; intros w H; [ exact H | ].
  simpl. apply IH, in_sync_step, H.
Qed.


(** *** Persist, then load *)

Lemma note_of_note_to_json n : note_of_json (note_to_json n) = Some n.
Proof. destruct n as [i d [ [ | | | | | ] | ] c]; reflexivity. Qed.

Lemma notes_of_printed_items l : notes_of_items (map note_to_json l) = Some l.
Proof.
  induction l as [ | n r IH ]; [ reflexivity | ].
  cbn [map notes_of_items]. rewrite note_of_note_to_json, IH. reflexivity.
Qed.

Lemma plain_notes l :
  forallb text_plain l = true -> Json.plain (JArray (map note_to_json l)) = true.
Proof.
  intros H. simpl. rewrite forallb_forall in H |- *.
  intros v Hv. apply in_map_iff in Hv as (n & <- & Hn). specialize (H n Hn).
  unfold text_plain in H. unfold note_to_json. destruct (text n); simpl; rewrite ?H; reflexivity.
Qed.

Lemma typed_plain l : Forall well_typed l -> forallb text_plain l = true.
Proof.
  intros H. apply forallb_forall. rewrite Forall_forall in H.
  intros n Hn. destruct (H n Hn) as [s Hs]. unfold text_plain. rewrite Hs. reflexivity.
Qed.

Lemma stringify_notes_not_empty l : (stringify_notes l =? EmptyString) = false.
Proof. reflexivity. Qed.

(** What the persist effect wrote is read back as the same notes. *)
Lemma load_persisted l :
  forallb text_plain l = true -> load (Some (stringify_notes l)) = Hydrated l.
Proof.
  intros H. unfold load. rewrite stringify_notes_not_empty.
  unfold stringify_notes. rewrite JsonFacts.JSON_parse_stringify by (apply plain_notes, H).
  simpl. rewrite notes_of_printed_items. reflexivity.
Qed.

Lemma typed_renders st :
  Forall well_typed (voiceNotes st) -> exists l, filteredNotes st = Normal l.
Proof. intros H. eexists. apply filter_notes_typed, H. Qed.

Lemma mount_in_sync today s w : mount today s = Some w -> in_sync w.
Proof.
  unfold mount, in_sync. intros H st Hst.
  destruct (load (item_voiceNotes s)); try discriminate; injection H as <-;
    simpl in *.
  - injection Hst as <-. reflexivity.
  - unfold commit in *. destruct (filteredNotes _); simpl in *; [ | discriminate ].
    injection Hst as <-. reflexivity.
  - discriminate.
Qed.

Lemma mount_healthy today s w : mount today s = Some w -> healthy w.
Proof.
  unfold mount, healthy. intros H st Hst.
  destruct (load (item_voiceNotes s)); try discriminate; injection H as <-;
    simpl in *.
  - injection Hst as <-. eexists. reflexivity.
  - apply commit_app in Hst as [-> Hl]. exact Hl.
  - discriminate.
Qed.

(** C8.  From a world whose saved record is the print of its notes (every
    mounted world is), after any finite sequence of events, among them the
    insertions of [transcribeAudio], [deleteNote] and
    [toggleNoteCompletion], the saved record loads as the notes in memory,
    and a fresh mount of the page on that storage shows them; the notes
    being typed as the interface types them. *)
Theorem persist_then_load_round_trip (w : World) (es : list Event) (st : AppState)
    (today : JSDate) :
  in_sync w ->
  app (run w es) = Some st ->
  Forall well_typed (voiceNotes st) ->
  load (item_voiceNotes (localStorage (run w es))) = Hydrated (voiceNotes st) /\
  exists w' st',
    mount today (localStorage (run w es)) = Some w' /\
    app w' = Some st' /\ voiceNotes st' = voiceNotes st.
Proof.
  intros Hs Ha Ht.
  pose proof (in_sync_run es w Hs st Ha) as E.
  assert (L : load (item_voiceNotes (localStorage (run w es))) = Hydrated (voiceNotes st)).
  { rewrite E. apply load_persisted, typed_plain, Ht. }
  split; [ exact L | ].
  unfold mount. rewrite L.
  set (st0 := setVoiceNotes (voiceNotes st)
                (setIsLoggedIn (loggedIn (localStorage (run w es))) (initialState today))).
  destruct (typed_renders st0 Ht) as [l Hl].
  eexists. exists st0. split; [ reflexivity | ].
  unfold commit. rewrite Hl. split; reflexivity.
Qed.


(** *** Transcription that fails *)

Lemma nth_error_snoc {A} (l : list A) x : nth_error (l ++ [x]) (List.length l) = Some x.
Proof. rewrite nth_error_app2, Nat.sub_diag by lia. reflexivity. Qed.

Lemma filteredNotes_setRecording b st : filteredNotes (setRecording b st) = filteredNotes st.
Proof. reflexivity. Qed.

(** A [try] block that throws: the error goes to the console, [finally]
    clears the recording flag, and neither the notes nor the saved record
    change. *)
Lemma thrown_transcription_inserts_nothing w fid fr outcome now e :
  healthy w ->
  nth_error (fetches w) fid = Some fr -> fr_settled fr = false ->
  transcribed outcome = Throw e ->
  let w' := step w (FetchSettled fid outcome now) in
  option_map voiceNotes (app w') = option_map voiceNotes (app w) /\
  option_map recording (app w') = option_map (fun _ => false) (app w) /\
  localStorage w' = localStorage w /\
  console w' = console w ++ [ConsoleError "Error transcribing audio:" e].
Proof.
  intros Hh Hf Hs Ht. cbv zeta. unfold step. rewrite Hf, Hs.
  unfold transcribeAudio_settled. rewrite Ht.
  unfold setState, log. simpl.
  destruct (app w) as [st | ] eqn:Ha; simpl; [ | rewrite Ha; auto ].
  destruct (Hh st Ha) as [l Hl].
  unfold commit. rewrite filteredNotes_setRecording, Hl. simpl. auto.
Qed.

(** C6.  A response whose status is not 2xx makes [transcribeAudio] throw an
    error whose message carries the status; the error is written to the
    console, no note is inserted, and the notes in memory and the saved
    record stay as they were. *)
Theorem non_2xx_response_inserts_nothing (w : World) (fid : nat) (fr : FetchRequest)
    (status : Z) (body : FetchBody) (now : Z) :
  healthy w ->
  nth_error (fetches w) fid = Some fr -> fr_settled fr = false ->
  ok status = false ->
  let failure := Error ("HTTP error! status: " ++ JS.Number_toString status) in
  let w' := step w (FetchSettled fid (Response status body) now) in
  transcribed (Response status body) = Throw failure /\
  option_map voiceNotes (app w') = option_map voiceNotes (app w) /\
  localStorage w' = localStorage w /\
  console w' = console w ++ [ConsoleError "Error transcribing audio:" failure].
Proof.
  intros Hh Hf Hs Hok. cbv zeta.
  assert (Ht : transcribed (Response status body) =
               Throw (Error ("HTTP error! status: " ++ JS.Number_toString status))).
  { unfold transcribed. rewrite Hok. reflexivity. }
  destruct (thrown_transcription_inserts_nothing w fid fr _ now _ Hh Hf Hs Ht)
    as (H1 & _ & H3 & H4).
  auto.
Qed.

(** C3, as the code has it.  A 2xx response whose body is not JSON, or is
    the JSON [null], makes [transcribeAudio] throw ([SyntaxError] from
    [response.json()], [TypeError] from [data.text]); the error is written
    to the console, no note is inserted, and the notes in memory and the
    saved record stay as they were. *)
Theorem unreadable_body_inserts_nothing (w : World) (fid : nat) (fr : FetchRequest)
    (status : Z) (body : FetchBody) (now : Z) :
  healthy w ->
  nth_error (fetches w) fid = Some fr -> fr_settled fr = false ->
  ok status = true ->
  body = NotJson \/ body = Json JNull ->
  let failure := match body with NotJson => SyntaxError | Json _ => TypeError end in
  let w' := step w (FetchSettled fid (Response status body) now) in
  transcribed (Response status body) = Throw failure /\
  option_map voiceNotes (app w') = option_map voiceNotes (app w) /\
  localStorage w' = localStorage w /\
  console w' = console w ++ [ConsoleError "Error transcribing audio:" failure].
Proof.
  intros Hh Hf Hs Hok Hb. cbv zeta.
  assert (Ht : transcribed (Response status body) =
               Throw (match body with NotJson => SyntaxError | Json _ => TypeError end)).
  { unfold transcribed. rewrite Hok. destruct Hb as [-> | ->]; reflexivity. }
  destruct (thrown_transcription_inserts_nothing w fid fr _ now _ Hh Hf Hs Ht)
    as (H1 & _ & H3 & H4).
  auto.
Qed.

(** *** A device that cannot be acquired *)

(** C4, on the code.  [startRecording] sets the recording flag before it
    awaits the device, and its [catch] only writes to the console: after a
    denial the flag is still set, so the record button stays disabled, and
    with no recorder in the state the stop button does nothing either. *)
Theorem denied_device_leaves_flag_set (w : World) (st : AppState) (name : string) :
  healthy w ->
  app w = Some st -> isLoggedIn st = true ->
  recording st = false -> mediaRecorder st = None ->
  let w2 := step (step w ClickRecord) (MediaDenied (List.length (mediaRequests w)) name) in
  app w2 = Some (setRecording true st) /\
  console w2 = console w ++ [ConsoleError "Error starting recording:" (DOMException name)] /\
  step w2 ClickRecord = w2 /\
  step w2 ClickStop = w2.
Proof.
  intros Hh Ha Hl Hr Hm. cbv zeta.
  destruct (Hh st Ha) as [l Hf].
  assert (E1 : step w ClickRecord =
               with_app (Some (setRecording true st))
                 (with_mediaRequests (mediaRequests w ++ [mkRequest st false]) w)).
  { unfold step, on_view. rewrite Ha, Hl, Hr. unfold startRecording, commit.
    rewrite filteredNotes_setRecording, Hf. destruct w; reflexivity. }
  rewrite E1. set (w1 := with_app _ _).
  assert (E2 : step w1 (MediaDenied (List.length (mediaRequests w)) name) =
               log (ConsoleError "Error starting recording:" (DOMException name))
                 (with_mediaRequests
                    (replace_nth (List.length (mediaRequests w)) (mkRequest st true)
                                 (mediaRequests w1)) w1)).
  { unfold step. subst w1. cbn [mediaRequests with_app with_mediaRequests].
    rewrite nth_error_snoc. reflexivity. }
  rewrite E2. subst w1. split; [ reflexivity | ]. split; [ reflexivity | ].
  unfold step, on_view, stopRecording. cbn. rewrite Hl, Hm. auto.
Qed.


(** *** Hydration *)

Lemma JSON_parse_empty : JSON_parse EmptyString = Malformed.
Proof. reflexivity. Qed.

(** C2, as the code has it.  An absent (or empty) record leaves the
    collection empty; a record that parses to an array of notes is loaded as
    those notes, and shown when they are typed as the interface types them;
    a record that is not JSON makes [JSON.parse] throw inside the effect:
    nothing catches the [SyntaxError], and the component is unmounted with
    no collection at all. *)
Theorem load_absent_wellformed_corrupt (today : JSDate) (s : Storage) :
  (item_voiceNotes s = None \/ item_voiceNotes s = Some EmptyString ->
     load (item_voiceNotes s) = NothingSaved /\
     exists w st, mount today s = Some w /\ app w = Some st /\
                  voiceNotes st = [] /\ console w = []) /\
  (forall saved v notes,
     item_voiceNotes s = Some saved ->
     JSON_parse saved = Parsed v -> notes_of_json v = Some notes ->
     load (item_voiceNotes s) = Hydrated notes /\
     (Forall well_typed notes ->
      exists w st, mount today s = Some w /\ app w = Some st /\
                   voiceNotes st = notes /\ console w = [])) /\
  (forall saved,
     item_voiceNotes s = Some saved -> saved <> EmptyString ->
     JSON_parse saved = Malformed ->
     load (item_voiceNotes s) = ParseThrows /\
     exists w, mount today s = Some w /\ app w = None /\
               console w = [Uncaught SyntaxError]).
Proof.
  split; [ | split ].
  - intros H.
    assert (L : load (item_voiceNotes s) = NothingSaved)
      by (destruct H as [-> | ->]; reflexivity).
    split; [ exact L | ]. unfold mount. rewrite L.
    eexists; eexists. repeat split.
  - intros saved v notes Hs Hp Hn.
    assert (L : load (item_voiceNotes s) = Hydrated notes).
    { rewrite Hs. unfold load. destruct (saved =? EmptyString) eqn:E.
      - apply String.eqb_eq in E. subst saved. rewrite JSON_parse_empty in Hp. discriminate.
      - rewrite Hp, Hn. reflexivity. }
    split; [ exact L | ]. intros Ht. unfold mount. rewrite L.
    set (st0 := setVoiceNotes notes (setIsLoggedIn (loggedIn s) (initialState today))).
    destruct (typed_renders st0 Ht) as [l Hl].
    eexists; exists st0. unfold commit. rewrite Hl. repeat split.
  - intros saved Hs Hne Hp.
    assert (L : load (item_voiceNotes s) = ParseThrows).
    { rewrite Hs. unfold load. apply String.eqb_neq in Hne. rewrite Hne, Hp. reflexivity. }
    split; [ exact L | ]. unfold mount. rewrite L.
    eexists. repeat split.
Qed.

(** *** Starting twice *)

Lemma record_disabled_while_recording w st :
  app w = Some st -> recording st = true -> step w ClickRecord = w.
Proof.
  intros Ha Hr. unfold step, on_view. rewrite Ha, Hr. destruct (isLoggedIn st); reflexivity.
Qed.

Lemma record_gone_when_unmounted w : app w = None -> step w ClickRecord = w.
Proof. intros Ha. unfold step, on_view. rewrite Ha. reflexivity. Qed.

Lemma length_replace_nth {A} i (x : A) l : List.length (replace_nth i x l) = List.length l.
Proof.
  revert i. induction l as [ | y l IH ]; intros [ | i ]; simpl; auto.
Qed.

(** While the flag is set (or the component is gone), an event other than
    the stop button and a settling [fetch] keeps it so and calls
    [getUserMedia] no further. *)
Lemma flag_kept_step w e :
  clears_flag e = false ->
  (forall st, app w = Some st -> recording st = true) ->
  (forall st, app (step w e) = Some st -> recording st = true) /\
  List.length (mediaRequests (step w e)) = List.length (mediaRequests w).
Proof.
  intros He Hw. split.
  - intros st' Hst'.
    destruct e; try discriminate He; step_cases;
      try (injection Hst' as <-); simpl; try discriminate; eauto;
      try (apply Hw; congruence);
      try (match goal with H : recording ?s = false |- _ =>
             rewrite (Hw s) in H by congruence; discriminate end).
  - destruct e; try discriminate He; step_cases;
      rewrite ?length_replace_nth; try reflexivity;
      try (match goal with H : recording ?s = false |- _ =>
             rewrite (Hw s) in H by congruence; discriminate end).
Qed.

Lemma flag_kept_run es : forall w,
  Forall (fun e => clears_flag e = false) es ->
  (forall st, app w = Some st -> recording st = true) ->
  (forall st, app (run w es) = Some st -> recording st = true) /\
  List.length (mediaRequests (run w es)) = List.length (mediaRequests w).
Proof.
  induction es as [ | e es IH ]; intros w Hes Hw; [ auto | ].
  inversion Hes as [ | ? ? He Hes' ]; subst.
  destruct (flag_kept_step w e He Hw) as [H1 H2].
  destruct (IH (step w e) Hes' H1) as [H3 H4].
  simpl. split; [ exact H3 | congruence ].
Qed.

(** X22.  While the recording flag is set the record button is disabled, so
    a click on it runs nothing; and of two clicks, the first made with the
    flag clear, with neither a click on stop nor a settling transcription
    between them, only the first calls [getUserMedia]. *)
Theorem second_start_requests_no_device (w : World) (st : AppState) (es : list Event) :
  app w = Some st -> isLoggedIn st = true -> recording st = false ->
  Forall (fun e => clears_flag e = false) es ->
  let w1 := step w ClickRecord in
  let w2 := run w1 es in
  (forall w' st', app w' = Some st' -> recording st' = true -> step w' ClickRecord = w') /\
  List.length (mediaRequests w1) = S (List.length (mediaRequests w)) /\
  step w2 ClickRecord = w2 /\
  List.length (mediaRequests (step w2 ClickRecord)) = S (List.length (mediaRequests w)).
Proof.
  intros Ha Hl Hr Hes. cbv zeta.
  assert (H1 : List.length (mediaRequests (step w ClickRecord)) = S (List.length (mediaRequests w))).
  { unfold step, on_view. rewrite Ha, Hl, Hr. unfold startRecording.
    destruct (commit_tables (setRecording true st) false
                (with_mediaRequests (mediaRequests w ++ [mkRequest st false]) w)) as [-> _].
    simpl. rewrite length_app. simpl. lia. }
  assert (F1 : forall s, app (step w ClickRecord) = Some s -> recording s = true).
  { unfold step, on_view. rewrite Ha, Hl, Hr. unfold startRecording.
    intros s Hs. apply commit_app in Hs as [-> _]. reflexivity. }
  destruct (flag_kept_run es _ Hes F1) as [F2 L2].
  assert (N : step (run (step w ClickRecord) es) ClickRecord = run (step w ClickRecord) es).
  { destruct (app (run (step w ClickRecord) es)) as [s | ] eqn:E.
    - apply (record_disabled_while_recording _ s E), F2. reflexivity.
    - apply record_gone_when_unmounted, E. }
  split; [ exact record_disabled_while_recording | ].
  split; [ exact H1 | ]. split; [ exact N | ]. rewrite N. congruence.
Qed.

(** What a settling [fetch] leaves: the flag clear, the login as it was, and
    the device requests and recorders untouched. *)
Lemma settled_flag_and_tables w fid fr outcome now :
  nth_error (fetches w) fid = Some fr -> fr_settled fr = false ->
  let w' := step w (FetchSettled fid outcome now) in
  (forall st', app w' = Some st' ->
     recording st' = false /\ (exists l, filteredNotes st' = Normal l) /\
     exists st, app w = Some st /\ isLoggedIn st' = isLoggedIn st) /\
  recorders w' = recorders w /\
  mediaRequests w' = mediaRequests w.
Proof.
  intros Hf Hs. cbv zeta. unfold step. rewrite Hf, Hs.
  set (w0 := with_fetches _ w).
  assert (T0 : recorders w0 = recorders w /\ mediaRequests w0 = mediaRequests w /\
               app w0 = app w) by (subst w0; simpl; auto).
  clearbody w0. destruct T0 as (T1 & T2 & T3).
  unfold transcribeAudio_settled. destruct (transcribed outcome) as [t | e]; unfold setState.
  - destruct (app w0) as [s | ] eqn:E.
    + match goal with
      | |- context [commit ?s1 ?b w0] =>
          destruct (commit_tables s1 b w0) as (C1 & C2 & _); rewrite C1, C2
      end.
      split; [ | auto ].
      intros st' H. apply commit_app in H as [-> Hl].
      split; [ reflexivity | ]. split; [ exact Hl | ]. exists s. rewrite <- T3. auto.
    + split; [ rewrite E; discriminate | auto ].
  - unfold log. cbn [app with_console].
    destruct (app w0) as [s | ] eqn:E.
    + set (w1 := with_console _ w0).
      destruct (commit_tables (setRecording false s) false w1) as (C1 & C2 & _).
      rewrite C1, C2. split; [ | subst w1; auto ].
      intros st' H. apply commit_app in H as [-> Hl].
      split; [ reflexivity | ]. split; [ exact Hl | ]. exists s. rewrite <- T3. auto.
    + cbn. rewrite E. split; [ discriminate | auto ].
Qed.

(** C5, on the code.  The record button is disabled while the recording
    flag is set, and a click on it then runs nothing: that is the guard.
    The [finally] of [transcribeAudio] clears the same flag whatever is
    being recorded.  When a transcription settles while a later recorder
    records, the button is enabled again: the next click calls
    [getUserMedia] a second time, with no click on stop in between, and once
    the device is granted two recorders record at once. *)
Theorem settled_transcription_defeats_the_guard (w : World) (st st1 : AppState)
    (fid rid : nat) (fr : FetchRequest) (rc : Recorder) (outcome : FetchOutcome) (now : Z) :
  app w = Some st -> isLoggedIn st = true -> recording st = true ->
  nth_error (recorders w) rid = Some rc -> rec_state rc = RecRecording ->
  nth_error (fetches w) fid = Some fr -> fr_settled fr = false ->
  let w1 := step w (FetchSettled fid outcome now) in
  app w1 = Some st1 ->
  let w2 := step w1 ClickRecord in
  let w3 := step w2 (MediaGranted (List.length (mediaRequests w))) in
  step w ClickRecord = w /\
  recording st1 = false /\
  List.length (mediaRequests w2) = S (List.length (mediaRequests w)) /\
  recorders w3 = recorders w ++ [mkRecorder st1 RecRecording []] /\
  nth_error (recorders w3) rid = Some rc.
Proof.
  intros Ha Hl Hr Hrc Hlive Hf Hs w1 Ha1 w2 w3.
  destruct (settled_flag_and_tables w fid fr outcome now Hf Hs) as (F & R1 & Q1).
  fold w1 in F, R1, Q1.
  destruct (F st1 Ha1) as (Hr1 & (l & Hl1) & st' & Ha' & Hlog).
  assert (st' = st) by congruence. subst st'. rewrite Hl in Hlog.
  assert (E2 : w2 = with_app (Some (setRecording true st1))
                      (with_mediaRequests (mediaRequests w ++ [mkRequest st1 false]) w1)).
  { subst w2. unfold step, on_view. rewrite Ha1, Hlog, Hr1. unfold startRecording, commit.
    rewrite filteredNotes_setRecording, Hl1, Q1. destruct w1; reflexivity. }
  assert (R3 : recorders w3 = recorders w ++ [mkRecorder st1 RecRecording []]).
  { subst w3. rewrite E2. unfold step. cbn [mediaRequests with_app with_mediaRequests].
    rewrite nth_error_snoc. cbn [rq_settled rq_render].
    unfold startRecording_granted, setState.
    cbn [app recorders with_app with_mediaRequests with_recorders].
    match goal with
    | |- context [commit ?s1 ?b ?w0] => destruct (commit_tables s1 b w0) as (_ & C2 & _)
    end.
    rewrite C2. cbn [recorders with_recorders]. rewrite R1. reflexivity. }
  split; [ apply (record_disabled_while_recording w st Ha Hr) | ].
  split; [ exact Hr1 | ]. split.
  - rewrite E2. cbn [mediaRequests with_app with_mediaRequests].
    rewrite length_app. simpl. lia.
  - split; [ exact R3 | ]. rewrite R3, nth_error_app1; [ exact Hrc | ].
    apply nth_error_Some. congruence.
Qed.


(** *** One recording session *)

Lemma nth_error_replace_nth_eq {A} i (x y : A) l :
  nth_error l i = Some y -> nth_error (replace_nth i x l) i = Some x.
Proof.
  revert i. induction l as [ | z l IH ]; intros [ | i ]; simpl; try discriminate; auto.
Qed.

Lemma nth_error_replace_nth_neq {A} i j (x : A) l :
  i <> j -> nth_error (replace_nth i x l) j = nth_error l j.
Proof.
  revert i j. induction l as [ | z l IH ]; intros [ | i ] [ | j ] H; simpl; auto;
    congruence.
Qed.

Lemma same_sessions_refl w : same_sessions w w.
Proof. unfold same_sessions. repeat split; eauto 10. Qed.

Lemma same_sessions_trans w1 w2 w3 :
  same_sessions w1 w2 -> same_sessions w2 w3 -> same_sessions w1 w3.
Proof.
  intros (A1 & A2 & A3 & A4 & A5) (B1 & B2 & B3 & B4 & B5).
  unfold same_sessions. repeat split; try congruence.
  - intros rid rc H. destruct (A4 rid rc H) as (rc' & H' & R1 & R2).
    destruct (B4 rid rc' H') as (rc'' & H'' & R3 & R4).
    exists rc''. repeat split; congruence.
  - intros st3 H3. destruct (B5 st3 H3) as (st2 & H2 & C1 & C2 & C3).
    destruct (A5 st2 H2) as (st1 & H1 & D1 & D2 & D3).
    exists st1. repeat split; try congruence. auto.
Qed.

Lemma same_sessions_log e w : same_sessions w (log e w).
Proof. unfold same_sessions. simpl. repeat split; eauto 10. Qed.

Lemma same_sessions_storage s w : same_sessions w (with_localStorage s w).
Proof. unfold same_sessions. simpl. repeat split; eauto 10. Qed.

Lemma commit_same_sessions st st' w :
  app w = Some st ->
  recording st' = recording st -> mediaRecorder st' = mediaRecorder st ->
  (isLoggedIn st = true -> isLoggedIn st' = true) ->
  forall b, same_sessions w (commit st' b w).
Proof.
  intros Ha H1 H2 H3 b. destruct (commit_tables st' b w) as (T1 & T2 & T3).
  unfold same_sessions. rewrite T1, T2, T3. repeat split; eauto.
  intros s Hs. apply commit_app in Hs as [-> _]. eauto.
Qed.

Lemma bystander_step w e : bystander e = true -> same_sessions w (step w e).
Proof.
  intros He. destruct e; try discriminate He; unfold step, on_view.
  - destruct (app w) as [st | ] eqn:Ha; [ | apply same_sessions_refl ].
    destruct (isLoggedIn st || (password =? EmptyString)) eqn:Hl;
      [ apply same_sessions_refl | ].
    unfold handleSubmit. destruct (password =? "eks").
    + eapply same_sessions_trans;
        [ apply (same_sessions_log (ConsoleLog "Login successful") w) | ].
      eapply same_sessions_trans; [ | apply same_sessions_storage ].
      apply (commit_same_sessions st); simpl; auto.
    + apply same_sessions_log.
  - destruct (app w) as [st | ] eqn:Ha; [ | apply same_sessions_refl ].
    destruct (isLoggedIn st); [ | apply same_sessions_refl ].
    apply (commit_same_sessions st); auto.
  - destruct (app w) as [st | ] eqn:Ha; [ | apply same_sessions_refl ].
    destruct (isLoggedIn st); [ | apply same_sessions_refl ].
    apply (commit_same_sessions st); auto.
  - destruct (nth_error (recorders w) rid) as [rc | ] eqn:Hrc; [ | apply same_sessions_refl ].
    assert (S : same_sessions w
                  (with_recorders
                     (replace_nth rid
                        (mkRecorder (rec_render rc) (rec_state rc) (audioChunks rc ++ [chunk]))
                        (recorders w)) w)).
    { unfold same_sessions. simpl. rewrite length_replace_nth. repeat split; eauto 10.
      intros rid' rc' H'. destruct (Nat.eq_dec rid rid') as [<- | Hne].
      - rewrite (nth_error_replace_nth_eq _ _ _ _ Hrc). eexists. split; [ reflexivity | ].
        simpl. split; congruence.
      - rewrite nth_error_replace_nth_neq by exact Hne. eauto. }
    destruct (rec_state rc); auto using same_sessions_refl.
  - destruct (app w) as [st | ] eqn:Ha; [ | apply same_sessions_refl ].
    destruct (isLoggedIn st); [ | apply same_sessions_refl ].
    destruct (displayed i st); [ | apply same_sessions_refl ].
    apply (commit_same_sessions st); auto.
  - destruct (app w) as [st | ] eqn:Ha; [ | apply same_sessions_refl ].
    destruct (isLoggedIn st); [ | apply same_sessions_refl ].
    destruct (displayed i st); [ | apply same_sessions_refl ].
    apply (commit_same_sessions st); auto.
Qed.

Lemma bystander_run es : forall w,
  Forall (fun e => bystander e = true) es -> same_sessions w (run w es).
Proof.
  induction es as [ | e es IH ]; intros w H; [ apply same_sessions_refl | ].
  inversion H as [ | ? ? He Hes ]; subst. simpl.
  eapply same_sessions_trans; [ apply bystander_step, He | apply IH, Hes ].
Qed.


Lemma requested_kept r rq rid fid w w' :
  same_sessions w w' -> Session.requested r rq rid fid w -> Session.requested r rq rid fid w'.
Proof.
  intros (A1 & A2 & A3 & A4 & A5) (P1 & P2 & P3 & P4).
  unfold Session.requested. rewrite A1, A2, A3.
  split; [ exact P1 | split; [ exact P2 | split; [ exact P3 | ] ] ].
  intros s1 Hs1. destruct (A5 s1 Hs1) as (s0 & H0 & R1 & R2 & R3).
  destruct (P4 s0 H0) as [L R]. split; [ auto | congruence ].
Qed.

Lemma capturing_kept r rid fid w w' :
  same_sessions w w' -> Session.capturing r rid fid w -> Session.capturing r rid fid w'.
Proof.
  intros (A1 & A2 & A3 & A4 & A5) ((rc & Hrc & Hr & Hs) & P2 & P3).
  unfold Session.capturing. rewrite A2. split; [ | split; [ exact P2 | ] ].
  - destruct (A4 rid rc Hrc) as (rc' & H' & R1 & R2). exists rc'. repeat split; congruence.
  - intros s Hs'. destruct (A5 s Hs') as (s0 & H0 & R1 & R2 & R3).
    destruct (P3 s0 H0) as (L & R & M). repeat split; [ auto | congruence | congruence ].
Qed.

Lemma stop_queued_kept r rid fid w w' :
  same_sessions w w' -> Session.stop_queued r rid fid w -> Session.stop_queued r rid fid w'.
Proof.
  intros (A1 & A2 & A3 & A4 & A5) ((rc & Hrc & Hr & Hs) & P2).
  unfold Session.stop_queued. rewrite A2. split; [ | exact P2 ].
  destruct (A4 rid rc Hrc) as (rc' & H' & R1 & R2). exists rc'. repeat split; congruence.
Qed.

Lemma in_flight_kept r fid w w' :
  same_sessions w w' -> Session.in_flight r fid w -> Session.in_flight r fid w'.
Proof.
  intros (A1 & A2 & _) (file & H). exists file. rewrite A2. exact H.
Qed.

(** The click on record: [getUserMedia] is called in the clicked render. *)
Lemma click_record_requests w st :
  app w = Some st -> isLoggedIn st = true -> recording st = false ->
  Session.requested st (List.length (mediaRequests w)) (List.length (recorders w))
                    (List.length (fetches w)) (step w ClickRecord).
Proof.
  intros Ha Hl Hr. unfold step, on_view. rewrite Ha, Hl, Hr. unfold startRecording.
  set (w0 := with_mediaRequests _ w).
  destruct (commit_tables (setRecording true st) false w0) as (T1 & T2 & T3).
  unfold Session.requested. rewrite T1, T2, T3. subst w0. simpl.
  rewrite nth_error_snoc.
  split; [ reflexivity | split; [ reflexivity | split; [ reflexivity | ] ] ].
  intros s Hs. apply commit_app in Hs as [-> _]. auto.
Qed.

(** The device is granted: a recorder is made for the clicked render. *)
Lemma granted_captures r rq rid fid w :
  Session.requested r rq rid fid w ->
  Session.capturing r rid fid (step w (MediaGranted rq)).
Proof.
  intros (P1 & P2 & P3 & P4). unfold step. rewrite P1. simpl.
  unfold startRecording_granted. cbn [recorders with_mediaRequests].
  set (w0 := with_recorders _ _).
  assert (R0 : recorders w0 = recorders w ++ [mkRecorder r RecRecording []]) by reflexivity.
  assert (F0 : fetches w0 = fetches w) by reflexivity.
  assert (A0 : app w0 = app w) by reflexivity.
  clearbody w0. unfold setState, Session.capturing.
  destruct (app w0) as [s0 | ] eqn:E.
  - destruct (commit_tables (setMediaRecorder (Some (List.length (recorders w))) s0) false w0)
      as (T1 & T2 & T3).
    rewrite T2, T3, R0, F0. split; [ | split; [ exact P3 | ] ].
    + exists (mkRecorder r RecRecording []). rewrite <- P2, nth_error_snoc. auto.
    + intros s Hs. apply commit_app in Hs as [-> _]. simpl.
      destruct (P4 s0) as [L R]; [ congruence | ]. rewrite P2. auto.
  - rewrite R0, F0, E. split; [ | split; [ exact P3 | discriminate ] ].
    exists (mkRecorder r RecRecording []). rewrite <- P2, nth_error_snoc. auto.
Qed.

(** The click on stop reaches the recorder of the session. *)
Lemma click_stop_queues r rid fid w s' :
  Session.capturing r rid fid w ->
  app (step w ClickStop) = Some s' ->
  Session.stop_queued r rid fid (step w ClickStop).
Proof.
  intros ((rc & Hrc & Hr & Hs) & P2 & P3) Hm.
  destruct (mounted_before_step _ _ _ Hm) as [s Ha].
  destruct (P3 s Ha) as (L & R & M). clear Hm.
  unfold step, on_view. rewrite Ha, L, R. unfold stopRecording. rewrite M, R.
  unfold recorder_stop. rewrite Hrc, Hs.
  set (w0 := with_recorders _ w).
  destruct (commit_tables (setRecording false s) false w0) as (T1 & T2 & T3).
  unfold Session.stop_queued. rewrite T2, T3. subst w0. simpl.
  split; [ | exact P2 ].
  rewrite (nth_error_replace_nth_eq _ _ _ _ Hrc). eexists. split; [ reflexivity | ]. auto.
Qed.

(** The stop event: [transcribeAudio] of the clicked render starts a [fetch]. *)
Lemma stop_event_fetches r rid fid w :
  Session.stop_queued r rid fid w ->
  Session.in_flight r fid (step w (RecorderStop rid)).
Proof.
  intros ((rc & Hrc & Hr & Hs) & P2). unfold step. rewrite Hrc, Hs.
  unfold Session.in_flight. simpl. rewrite <- P2, nth_error_snoc, Hr. eauto.
Qed.

(** The [fetch] settles with a body that has a [text]: the new array is the
    notes of the clicked render with one more note, dated by that render. *)
Lemma settled_inserts r fid w status data t now st' :
  Session.in_flight r fid w ->
  ok status = true -> data_text data = Normal t ->
  app (step w (FetchSettled fid (Response status (Json data)) now)) = Some st' ->
  voiceNotes st' =
  voiceNotes r ++ [mkNote (JS.Number_toString now) (format_yyyy_MM_dd (selectedDate r)) t false].
Proof.
  intros (file & Hf) Hok Ht. unfold step. rewrite Hf. simpl.
  unfold transcribeAudio_settled, transcribed. rewrite Hok, Ht.
  set (w0 := with_fetches _ w). unfold setState.
  destruct (app w0) as [s | ] eqn:E; [ | rewrite E; discriminate ].
  intros H. apply commit_app in H as [-> _]. reflexivity.
Qed.

Lemma run_app w es1 es2 : run w (es1 ++ es2) = run (run w es1) es2.
Proof. apply fold_left_app. Qed.

(** C1, as the code has it.  In a session (record, device granted, stop,
    stop event, a 2xx response with a [text]) with any calendar changes,
    searches, note buttons and audio data in between, the inserted note
    carries the date that was selected when record was clicked, formatted
    [yyyy-MM-dd], and is appended to the notes of that moment: no later
    change of the selected date, made while recording or while the request
    is in flight, reaches it. *)
Theorem note_dated_at_record_click (w : World) (st : AppState)
    (es1 es2 es3 es4 : list Event) (status : Z) (data : json) (t : option json) (now : Z) :
  app w = Some st -> isLoggedIn st = true -> recording st = false ->
  Forall (fun e => bystander e = true) es1 ->
  Forall (fun e => bystander e = true) es2 ->
  Forall (fun e => bystander e = true) es3 ->
  Forall (fun e => bystander e = true) es4 ->
  ok status = true -> data_text data = Normal t ->
  let rq := List.length (mediaRequests w) in
  let rid := List.length (recorders w) in
  let fid := List.length (fetches w) in
  let final :=
    run w ([ClickRecord] ++ es1 ++ [MediaGranted rq] ++ es2 ++ [ClickStop] ++ es3 ++
           [RecorderStop rid] ++ es4 ++ [FetchSettled fid (Response status (Json data)) now]) in
  forall st', app final = Some st' ->
    voiceNotes st' =
    voiceNotes st ++
      [mkNote (JS.Number_toString now) (format_yyyy_MM_dd (selectedDate st)) t false].
Proof.
  intros Ha Hl Hr B1 B2 B3 B4 Hok Ht rq rid fid final st' Hfin.
  subst final. rewrite !run_app in Hfin. cbn [run fold_left] in Hfin.
  set (w1 := step w ClickRecord) in *.
  set (w1' := fold_left step es1 w1) in *.
  set (w2 := step w1' (MediaGranted rq)) in *.
  set (w2' := fold_left step es2 w2) in *.
  set (w3 := step w2' ClickStop) in *.
  set (w3' := fold_left step es3 w3) in *.
  set (w4 := step w3' (RecorderStop rid)) in *.
  set (w4' := fold_left step es4 w4) in *.
  assert (P1 : Session.requested st rq rid fid w1) by (apply click_record_requests; assumption).
  assert (P1' : Session.requested st rq rid fid w1')
    by (eapply requested_kept; [ apply (bystander_run es1 w1 B1) | exact P1 ]).
  assert (P2 : Session.capturing st rid fid w2) by (apply (granted_captures _ _ _ _ _ P1')).
  assert (P2' : Session.capturing st rid fid w2')
    by (eapply capturing_kept; [ apply (bystander_run es2 w2 B2) | exact P2 ]).
  assert (M3 : exists s3, app w3 = Some s3).
  { destruct (mounted_before_step _ _ _ Hfin) as [s4' H4'].
    destruct (mounted_before_run es4 w4 _ H4') as [s4 H4].
    destruct (mounted_before_step _ _ _ H4) as [s3' H3'].
    apply (mounted_before_run es3 w3 _ H3'). }
  destruct M3 as [s3 M3].
  assert (P3 : Session.stop_queued st rid fid w3) by (apply (click_stop_queues _ _ _ _ s3 P2' M3)).
  assert (P3' : Session.stop_queued st rid fid w3')
    by (eapply stop_queued_kept; [ apply (bystander_run es3 w3 B3) | exact P3 ]).
  assert (P4 : Session.in_flight st fid w4) by (apply (stop_event_fetches _ _ _ _ P3')).
  assert (P4' : Session.in_flight st fid w4')
    by (eapply in_flight_kept; [ apply (bystander_run es4 w4 B4) | exact P4 ]).
  apply (settled_inserts st fid w4' status data t now st' P4' Hok Ht Hfin).
Qed.


(** *** Identifiers *)

Lemma Number_toString_inj a b : JS.Number_toString a = JS.Number_toString b -> a = b.
Proof.
  unfold JS.Number_toString. intros H. apply DecimalZ.to_int_inj.
  assert (N : forall z, Z.to_int z <> Decimal.Pos Decimal.Nil /\
                        Z.to_int z <> Decimal.Neg Decimal.Nil).
  { intros [ | p | p ]; simpl; split; try discriminate;
      intros E; injection E as E; exact (DecimalPos.Unsigned.to_uint_nonnil p E). }
  assert (S : Some (Z.to_int a) = Some (Z.to_int b)).
  { rewrite <- (NilZero.isi (Z.to_int a)), <- (NilZero.isi (Z.to_int b)), H;
      try apply N. reflexivity. }
  injection S as S. exact S.
Qed.

Lemma stamped_mono T T' n : (T <= T')%Z -> stamped T n -> stamped T' n.
Proof. intros H (t & Ht & E). exists t. split; [ lia | exact E ]. Qed.

Lemma store_ok_mono T T' l : (T <= T')%Z -> store_ok T l -> store_ok T' l.
Proof.
  intros H [N F]. split; [ exact N | ].
  eapply Forall_impl; [ | exact F ]. intros n. apply stamped_mono, H.
Qed.

Lemma NoDup_snoc {A} (l : list A) x : NoDup l -> ~ In x l -> NoDup (l ++ [x]).
Proof.
  induction 1 as [ | y l Hy Hl IH ]; intros Hx; simpl.
  - constructor; [ intros [] | constructor ].
  - constructor.
    + rewrite in_app_iff. intros [H | [H | []]]; [ auto | subst; apply Hx; left; reflexivity ].
    + apply IH. intros H. apply Hx. right. exact H.
Qed.

(** A note stamped by a later reading has a new identifier. *)
Lemma store_ok_insert T now l d t c :
  store_ok T l -> (T < now)%Z ->
  store_ok now (l ++ [mkNote (JS.Number_toString now) d t c]).
Proof.
  intros [N F] H. split.
  - rewrite map_app. simpl. apply NoDup_snoc; [ exact N | ].
    intros Hin. apply in_map_iff in Hin as (n & E & Hn).
    rewrite Forall_forall in F. destruct (F n Hn) as (t0 & Ht0 & E0).
    rewrite E0 in E. apply Number_toString_inj in E. lia.
  - apply Forall_app. split.
    + eapply Forall_impl; [ | exact F ]. intros n. apply stamped_mono. lia.
    + constructor; [ | constructor ]. exists now. simpl. split; [ lia | reflexivity ].
Qed.

Lemma store_ok_toggle T i l : store_ok T l -> store_ok T (toggleNoteCompletion i l).
Proof.
  intros [N F]. unfold toggleNoteCompletion. split.
  - rewrite map_map. erewrite map_ext; [ exact N | ].
    intros n. simpl. destruct (id n =? i); reflexivity.
  - apply Forall_map. eapply Forall_impl; [ | exact F ].
    intros n (t & Ht & E). exists t. split; [ exact Ht | ].
    destruct (id n =? i); exact E.
Qed.

Lemma NoDup_map_filter {A B} (f : A -> B) p l : NoDup (map f l) -> NoDup (map f (filter p l)).
Proof.
  induction l as [ | x l IH ]; simpl; intros H; [ constructor | ].
  inversion H as [ | ? ? Hx Hl ]; subst.
  destruct (p x); simpl; [ constructor | ]; auto.
  intros Hin. apply Hx. apply in_map_iff in Hin as (y & E & Hy).
  apply filter_In in Hy as [Hy _]. apply in_map_iff. eauto.
Qed.

Lemma store_ok_delete T i l : store_ok T l -> store_ok T (deleteNote i l).
Proof.
  intros [N F]. unfold deleteNote. split.
  - apply NoDup_map_filter, N.
  - apply Forall_forall. intros n Hn. apply filter_In in Hn as [Hn _].
    rewrite Forall_forall in F. apply F, Hn.
Qed.

Lemma in_replace_nth {A} i (x y : A) l : In y (replace_nth i x l) -> y = x \/ In y l.
Proof.
  revert i. induction l as [ | z l IH ]; intros [ | i ]; simpl; try tauto.
  - intros [H | H]; auto.
  - intros [H | H]; auto. destruct (IH i H); auto.
Qed.


Lemma closures_ok_mono T T' w : (T <= T')%Z -> closures_ok T w -> closures_ok T' w.
Proof.
  intros H (A & B & C). split; [ | split ]; intros x Hx; eapply store_ok_mono; eauto.
Qed.

Lemma closures_ok_tables T w w' :
  mediaRequests w' = mediaRequests w -> recorders w' = recorders w ->
  fetches w' = fetches w -> closures_ok T w -> closures_ok T w'.
Proof. unfold closures_ok. intros -> -> ->. auto. Qed.

Lemma Stamped_commit T st b w :
  store_ok T (voiceNotes st) -> closures_ok T w -> Stamped T (commit st b w).
Proof.
  intros Hs Hc. destruct (commit_tables st b w) as (T1 & T2 & T3). split.
  - intros s Hs'. apply commit_app in Hs' as [-> _]. exact Hs.
  - apply (closures_ok_tables T w); assumption.
Qed.

Lemma Stamped_setState T f b w :
  (forall s, app w = Some s -> store_ok T (voiceNotes (f s))) ->
  closures_ok T w -> Stamped T (setState f b w).
Proof.
  intros Hf Hc. unfold setState. destruct (app w) as [s | ] eqn:E.
  - apply Stamped_commit; auto.
  - split; [ rewrite E; discriminate | exact Hc ].
Qed.

Lemma Stamped_frame T w w' :
  app w' = app w -> mediaRequests w' = mediaRequests w ->
  recorders w' = recorders w -> fetches w' = fetches w ->
  Stamped T w -> Stamped T w'.
Proof.
  intros Ea E1 E2 E3 [Ha Hc]. split.
  - rewrite Ea. exact Ha.
  - apply (closures_ok_tables T w); assumption.
Qed.

(** An event that reads no clock keeps the stamps. *)
Lemma Stamped_step T w e :
  (forall fid o now, e <> FetchSettled fid o now) ->
  Stamped T w -> Stamped T (step w e).
Proof.
  intros Hne [Ha (Hq & Hr & Hf)].
  assert (Hc : closures_ok T w) by (split; [ | split ]; assumption).
  assert (Hw : Stamped T w) by (split; [ exact Ha | exact Hc ]).
  destruct e; unfold step, on_view.
  - (* SubmitLogin *)
    destruct (app w) as [st | ] eqn:E; [ | exact Hw ].
    destruct (isLoggedIn st || (password =? EmptyString)); [ exact Hw | ].
    unfold handleSubmit. destruct (password =? "eks").
    + apply (Stamped_frame T (commit (setIsLoggedIn true st) false
                                 (log (ConsoleLog "Login successful") w))); try reflexivity.
      apply Stamped_commit; [ exact (Ha _ eq_refl) | exact Hc ].
    + apply (Stamped_frame T w); auto.
  - (* CalendarChange *)
    destruct (app w) as [st | ] eqn:E; [ | exact Hw ].
    destruct (isLoggedIn st); [ | exact Hw ].
    apply Stamped_commit; [ exact (Ha _ eq_refl) | exact Hc ].
  - (* SearchInput *)
    destruct (app w) as [st | ] eqn:E; [ | exact Hw ].
    destruct (isLoggedIn st); [ | exact Hw ].
    apply Stamped_commit; [ exact (Ha _ eq_refl) | exact Hc ].
  - (* ClickRecord *)
    destruct (app w) as [st | ] eqn:E; [ | exact Hw ].
    destruct (isLoggedIn st); [ | exact Hw ].
    destruct (recording st); [ exact Hw | ].
    unfold startRecording. apply Stamped_commit; [ exact (Ha _ eq_refl) | ].
    (split; [ | split ]); simpl; auto.
    intros r Hin. apply in_app_iff in Hin as [Hin | [<- | []]]; [ auto | exact (Ha _ eq_refl) ].
  - (* MediaGranted *)
    destruct (nth_error (mediaRequests w) rq) as [r | ] eqn:Hrq; [ | exact Hw ].
    destruct (rq_settled r); [ exact Hw | ].
    pose proof (Hq r (nth_error_In _ _ Hrq)) as Hok.
    unfold startRecording_granted. apply Stamped_setState.
    + intros s Hs. simpl in *. apply Ha, Hs.
    + (split; [ | split ]); simpl; auto.
      * intros r' Hin. apply in_replace_nth in Hin as [-> | Hin]; auto.
      * intros rc Hin. apply in_app_iff in Hin as [Hin | [<- | []]]; auto.
  - (* MediaDenied *)
    destruct (nth_error (mediaRequests w) rq) as [r | ] eqn:Hrq; [ | exact Hw ].
    destruct (rq_settled r); [ exact Hw | ].
    pose proof (Hq r (nth_error_In _ _ Hrq)) as Hok.
    split; [ exact Ha | ]. (split; [ | split ]); simpl; auto.
    intros r' Hin. apply in_replace_nth in Hin as [-> | Hin]; auto.
  - (* DataAvailable *)
    destruct (nth_error (recorders w) rid) as [rc | ] eqn:Hrc; [ | exact Hw ].
    pose proof (Hr rc (nth_error_In _ _ Hrc)) as Hok.
    assert (S : Stamped T (with_recorders
                  (replace_nth rid
                     (mkRecorder (rec_render rc) (rec_state rc) (audioChunks rc ++ [chunk]))
                     (recorders w)) w)).
    { split; [ exact Ha | ]. (split; [ | split ]); simpl; auto.
      intros rc' Hin. apply in_replace_nth in Hin as [-> | Hin]; auto. }
    destruct (rec_state rc); auto.
  - (* ClickStop *)
    destruct (app w) as [st | ] eqn:E; [ | exact Hw ].
    destruct (isLoggedIn st); [ | exact Hw ].
    destruct (recording st) eqn:R; [ | exact Hw ].
    unfold stopRecording. rewrite R. destruct (mediaRecorder st) as [rid | ]; [ | exact Hw ].
    apply Stamped_commit; [ exact (Ha _ eq_refl) | ].
    unfold recorder_stop.
    destruct (nth_error (recorders w) rid) as [rc | ] eqn:Hrc; [ | exact Hc ].
    pose proof (Hr rc (nth_error_In _ _ Hrc)) as Hok.
    destruct (rec_state rc); try exact Hc.
    (split; [ | split ]); simpl; auto.
    intros rc' Hin. apply in_replace_nth in Hin as [-> | Hin]; auto.
  - (* RecorderStop *)
    destruct (nth_error (recorders w) rid) as [rc | ] eqn:Hrc; [ | exact Hw ].
    pose proof (Hr rc (nth_error_In _ _ Hrc)) as Hok.
    assert (S : Stamped T (stop_listener rid rc w)).
    { split; [ exact Ha | ]. (split; [ | split ]); simpl; auto.
      - intros rc' Hin. apply in_replace_nth in Hin as [-> | Hin]; auto.
      - intros fr Hin. apply in_app_iff in Hin as [Hin | [<- | []]]; auto. }
    destruct (rec_state rc); auto.
  - (* FetchSettled *)
    exfalso. eapply Hne. reflexivity.
  - (* ClickToggle *)
    destruct (app w) as [st | ] eqn:E; [ | exact Hw ].
    destruct (isLoggedIn st); [ | exact Hw ].
    destruct (displayed i st); [ | exact Hw ].
    apply Stamped_commit; [ apply store_ok_toggle, (Ha _ eq_refl) | exact Hc ].
  - (* ClickDelete *)
    destruct (app w) as [st | ] eqn:E; [ | exact Hw ].
    destruct (isLoggedIn st); [ | exact Hw ].
    destruct (displayed i st); [ | exact Hw ].
    apply Stamped_commit; [ apply store_ok_delete, (Ha _ eq_refl) | exact Hc ].
Qed.

(** A settling [fetch] stamps its note with a reading later than every
    stamp so far. *)
Lemma Stamped_settle T w fid o now :
  (T < now)%Z -> Stamped T w -> Stamped now (step w (FetchSettled fid o now)).
Proof.
  intros Hlt [Ha Hc].
  assert (Hc' : closures_ok now w) by (apply (closures_ok_mono T); [ lia | exact Hc ]).
  assert (Ha' : forall st, app w = Some st -> store_ok now (voiceNotes st)).
  { intros st Hst. apply (store_ok_mono T); [ lia | apply Ha, Hst ]. }
  destruct Hc as (Hq & Hr & Hf). unfold step.
  destruct (nth_error (fetches w) fid) as [fr | ] eqn:Hfr; [ | split; assumption ].
  destruct (fr_settled fr); [ split; assumption | ].
  pose proof (Hf fr (nth_error_In _ _ Hfr)) as Hok.
  set (w0 := with_fetches _ w).
  assert (C0 : closures_ok now w0).
  { destruct Hc' as (Hq' & Hr' & Hf'). (split; [ | split ]); simpl; auto.
    intros fr' Hin. apply in_replace_nth in Hin as [-> | Hin]; auto.
    simpl. apply (store_ok_mono T); [ lia | exact Hok ]. }
  unfold transcribeAudio_settled. destruct (transcribed o) as [t | e].
  - apply Stamped_setState; [ | exact C0 ].
    intros s _. simpl. apply (store_ok_insert T); assumption.
  - apply Stamped_setState.
    + intros s Hs. simpl in *. apply Ha', Hs.
    + apply (closures_ok_tables now w0); auto.
Qed.

Lemma Stamped_run es : forall T w,
  ticking T es -> Stamped T w -> exists T', Stamped T' (run w es).
Proof.
  induction es as [ | e es IH ]; intros T w Ht Hs; [ exists T; exact Hs | ].
  change (run w (e :: es)) with (run (step w e) es).
  destruct e; cbn [ticking] in Ht;
    try (apply (IH T); [ exact Ht | apply Stamped_step; [ discriminate | exact Hs ] ]).
  destruct Ht as [Hlt Ht]. apply (IH now); [ exact Ht | ].
  apply (Stamped_settle T); assumption.
Qed.

(** C10, as the code has it.  An identifier is the print of [Date.now()]
    at the moment the note is built.  When the notes in memory and those the
    pending continuations hold have distinct identifiers stamped up to [T],
    and every reading taken when a [fetch] settles is later than [T] and
    than the readings before it, the notes in memory have pairwise distinct
    identifiers after any sequence of events, overlapping sessions
    included. *)
Theorem ids_distinct_while_clock_ticks (T : Z) (w : World) (es : list Event) :
  Stamped T w -> ticking T es ->
  forall st, app (run w es) = Some st -> NoDup (map id (voiceNotes st)).
Proof.
  intros Hs Ht st Hst.
  destruct (Stamped_run es T w Ht Hs) as (T' & Ha & _).
  destruct (Ha st Hst) as [N _]. exact N.
Qed.


End Machine.

(** ** The properties on sample worlds *)

Section Samples.
Import Example.

(** *** Readings of the library functions *)

Example format_sample :
  format_yyyy_MM_dd (mkDate 2024 0 10) = "2024-01-10" /\
  format_yyyy_MM_dd (mkDate 987 11 5) = "0987-12-05".
Proof. split; reflexivity. Qed.

Example lower_sample : JS.toLowerCase "Buy MILK" = "buy milk".
Proof. reflexivity. Qed.

Example includes_sample :
  JS.includes "buy milk" "milk" = true /\ JS.includes "buy milk" "tea" = false /\
  JS.includes "buy milk" EmptyString = true.
Proof. repeat split; reflexivity. Qed.

Example toString_sample :
  JS.Number_toString 1704844800000 = "1704844800000" /\
  JS.Number_toString (-42) = "-42" /\ JS.Number_toString 0 = "0".
Proof. repeat split; reflexivity. Qed.

Example parse_sample :
  JSON_parse " [1, -2.5e+3 ,null , {}, [true] ] " =
    Parsed (JArray [JNumber "1"; JNumber "-2.5e+3"; JNull; JObject []; JArray [JBool true]]) /\
  JSON_parse "01" = Malformed /\
  JSON_parse "[1,]" = Malformed /\
  JSON_parse "nul" = Malformed /\
  JSON_parse EmptyString = Malformed.
Proof. repeat split; vm_compute; reflexivity. Qed.

Example parse_persisted_sample :
  JSON_parse (stringify_notes [noteA; noteB]) = Parsed (JArray (map note_to_json [noteA; noteB])) /\
  String.length (stringify_notes [noteA; noteB]) = 158.
Proof. split; vm_compute; reflexivity. Qed.

(** The scenario of the specification: one note on 10 January, searched on
    that day and on the next. *)
Example query_scenario :
  Spec.query (UTF16.of_string "2024-01-10") (UTF16.of_string "milk") [wide noteA] =
    [wide noteA] /\
  Spec.query (UTF16.of_string "2024-01-11") (UTF16.of_string "milk") [wide noteA] = [] /\
  filter_notes "2024-01-10" "MILK" ([] ++ [noteA]) = Normal [noteA] /\
  filter_notes "2024-01-11" "MILK" ([] ++ [noteA]) = Normal [] /\
  deleteNote (id noteA) [noteA] = [].
Proof. repeat split; reflexivity. Qed.

Example same_letter_sample :
  Spec.same_letter 0x41 0x61 = true /\ Spec.same_letter 0x7A 0x5A = true /\
  Spec.same_letter 0xC9 0xE9 = true /\ Spec.same_letter 0xDE 0xFE = true /\
  Spec.same_letter 0x40 0x60 = false /\ Spec.same_letter 0x5B 0x7B = false /\
  Spec.same_letter 0xD7 0xF7 = false /\ Spec.same_letter 0xDF 0xFF = false /\
  Spec.same_letter 0x41 0x62 = false.
Proof. repeat split; reflexivity. Qed.

Example final_sigma_sample :
  UTF16.toLowerCase [0x39A; 0x39F; 0x3A3; 0x39C; 0x39F; 0x3A3]%N =
    Some [0x3BA; 0x3BF; 0x3C3; 0x3BC; 0x3BF; 0x3C2]%N /\
  UTF16.toLowerCase [0x3A3]%N = Some [0x3C3]%N /\
  UTF16.toLowerCase [0x41; 0x27; 0x3A3; 0x2E; 0x31]%N =
    Some [0x61; 0x27; 0x3C2; 0x2E; 0x31]%N /\
  UTF16.toLowerCase [0x31; 0x3A3]%N = Some [0x31; 0x3C3]%N /\
  UTF16.toLowerCase [0x130]%N = None.
Proof. repeat split; reflexivity. Qed.

(** Two sessions in flight at once close over the same notes: the one that
    settles last overwrites the note of the other. *)
Lemma overlapping_sessions_lose_a_note :
  let both := session ++ [ClickRecord; MediaGranted 1; ClickStop; RecorderStop 1] in
  let w := run idle (both ++ [FetchSettled 0 (Response 200 (Json milk)) t0;
                              FetchSettled 1 (Response 200 (Json milk)) t1]) in
  option_map (fun st => map id (voiceNotes st)) (app w) = Some ["1704900000500"].
Proof. vm_compute. reflexivity. Qed.

(** *** The sample worlds *)

Lemma idle_is_mounted : mount jan10 signed_in = Some idle.
Proof. reflexivity. Qed.

Lemma idle_healthy : healthy idle.
Proof. apply (mount_healthy jan10 signed_in), idle_is_mounted. Qed.

Lemma idle_in_sync : in_sync idle.
Proof. apply (mount_in_sync jan10 signed_in), idle_is_mounted. Qed.

Lemma awaiting_healthy : healthy awaiting.
Proof. apply healthy_run, idle_healthy. Qed.

Lemma idle_stamped : Stamped 0 idle.
Proof.
  split; [ | split; [ | split ]; intros x [] ].
  intros st H. injection H as <-. split; constructor.
Qed.

(** C1 fails as stated: the date is changed between the click on record and
    the click on stop, and the note is filed under the date of the click on
    record, not under the one selected when the recording was stopped. *)
Lemma date_at_stop_counterexample :
  let at_stop := run idle [ClickRecord; MediaGranted 0; CalendarChange jan11] in
  let final := run at_stop [ClickStop; RecorderStop 0;
                            FetchSettled 0 (Response 200 (Json milk)) t0] in
  exists st_stop st_final n,
    app at_stop = Some st_stop /\ app final = Some st_final /\
    voiceNotes st_final = [n] /\
    format_yyyy_MM_dd (selectedDate st_stop) = "2024-01-11" /\
    date n = "2024-01-10" /\
    date n <> format_yyyy_MM_dd (selectedDate st_stop).
Proof.
  cbv zeta. eexists; eexists; eexists.
  split; [ vm_compute; reflexivity | ].
  split; [ vm_compute; reflexivity | ].
  split; [ reflexivity | ].
  split; [ reflexivity | ].
  split; [ reflexivity | ].
  vm_compute. discriminate.
Qed.

Lemma note_dated_at_record_click_witness :
  app idle = Some idle_state /\ isLoggedIn idle_state = true /\
  recording idle_state = false /\ ok 200 = true /\
  data_text milk = Normal (Some (JString "buy milk")) /\
  let final :=
    run idle ([ClickRecord] ++ [] ++ [MediaGranted 0] ++
              [CalendarChange jan11; SearchInput "m"] ++ [ClickStop] ++ [] ++
              [RecorderStop 0] ++ [CalendarChange jan10; CalendarChange jan11] ++
              [FetchSettled 0 (Response 200 (Json milk)) t0]) in
  (exists st', app final = Some st' /\ selectedDate st' = jan11) /\
  forall st', app final = Some st' ->
    voiceNotes st' = [mkNote "1704900000000" "2024-01-10" (Some (JString "buy milk")) false].
Proof.
  repeat (split; [ reflexivity | ]).
  split; [ eexists; split; [ vm_compute; reflexivity | reflexivity ] | ].
  apply (note_dated_at_record_click idle idle_state [] [CalendarChange jan11; SearchInput "m"]
           [] [CalendarChange jan10; CalendarChange jan11] 200 milk
           (Some (JString "buy milk")) t0);
    try reflexivity; repeat constructor.
Defined.

(** C2 fails as stated: a saved record that is not JSON is not treated like
    an absent one; [JSON.parse] throws, the error is uncaught, and the
    component is unmounted instead of showing an empty collection. *)
Lemma corrupt_storage_counterexample :
  JSON_parse "{oops" = Malformed /\
  load (item_voiceNotes corrupt) = ParseThrows /\
  load None = NothingSaved /\
  load (item_voiceNotes corrupt) <> load None /\
  exists w, mount jan10 corrupt = Some w /\ app w = None /\
            console w = [Uncaught SyntaxError] /\
            ~ (exists st, app w = Some st /\ voiceNotes st = []).
Proof.
  split; [ reflexivity | ]. split; [ reflexivity | ]. split; [ reflexivity | ].
  split; [ vm_compute; discriminate | ].
  eexists. split; [ reflexivity | ]. split; [ reflexivity | ]. split; [ reflexivity | ].
  intros (st & H & _). discriminate H.
Qed.

Lemma load_absent_wellformed_corrupt_witness :
  (exists w st, mount jan10 signed_in = Some w /\ app w = Some st /\
                voiceNotes st = [] /\ console w = []) /\
  (exists w st, mount jan10 saved_two = Some w /\ app w = Some st /\
                voiceNotes st = [noteA; noteB] /\ console w = []) /\
  (exists w, mount jan10 corrupt = Some w /\ app w = None /\
             console w = [Uncaught SyntaxError]).
Proof.
  split; [ | split ].
  - apply (proj1 (load_absent_wellformed_corrupt jan10 signed_in)).
    left. reflexivity.
  - apply (proj1 (proj2 (load_absent_wellformed_corrupt jan10 saved_two))
             (stringify_notes [noteA; noteB])
             (JArray (map note_to_json [noteA; noteB])) [noteA; noteB]).
    + reflexivity.
    + vm_compute. reflexivity.
    + reflexivity.
    + repeat constructor; eexists; reflexivity.
  - apply (proj2 (proj2 (load_absent_wellformed_corrupt jan10 corrupt)) "{oops").
    + reflexivity.
    + discriminate.
    + reflexivity.
Defined.

(** C3 fails as stated: a 200 response whose JSON body has no [text] throws
    nothing; a note whose [text] is [undefined] is appended and saved, and
    nothing is written to the console.  (The date is changed while the
    request is in flight, so the new note is not on the page that is
    rendered.) *)
Lemma body_without_text_counterexample :
  let before := run awaiting [CalendarChange jan11] in
  let after := step before (FetchSettled 0 (Response 200 (Json (JObject []))) t0) in
  body_of_text "{}" = Some (Json (JObject [])) /\
  ok 200 = true /\
  data_text (JObject []) = Normal None /\
  option_map voiceNotes (app before) = Some [] /\
  option_map voiceNotes (app after) =
    Some [mkNote "1704900000000" "2024-01-10" None false] /\
  option_map voiceNotes (app after) <> option_map voiceNotes (app before) /\
  localStorage after <> localStorage before /\
  console after = console before.
Proof.
  cbv zeta. repeat (split; [ vm_compute; reflexivity | ]).
  split; [ vm_compute; discriminate | ].
  split; [ vm_compute; discriminate | ].
  vm_compute. reflexivity.
Qed.

(** When the date is not changed, the note whose [text] is [undefined] is
    on the page to render: [toLowerCase] throws and the tree is unmounted. *)
Lemma body_without_text_unmounts :
  let after := step awaiting (FetchSettled 0 (Response 200 (Json (JObject []))) t0) in
  app after = None /\ console after = [Uncaught TypeError] /\
  localStorage after = localStorage awaiting.
Proof. cbv zeta. repeat split; vm_compute; reflexivity. Qed.

Lemma unreadable_body_inserts_nothing_witness :
  let w' := step awaiting (FetchSettled 0 (Response 200 NotJson) t0) in
  ok 200 = true /\
  transcribed (Response 200 NotJson) = Throw SyntaxError /\
  option_map voiceNotes (app w') = option_map voiceNotes (app awaiting) /\
  localStorage w' = localStorage awaiting /\
  console w' = console awaiting ++ [ConsoleError "Error transcribing audio:" SyntaxError].
Proof.
  cbv zeta. split; [ reflexivity | ].
  apply (unreadable_body_inserts_nothing awaiting 0 (mkFetch idle_state EmptyString false)
           200 NotJson t0).
  - exact awaiting_healthy.
  - reflexivity.
  - reflexivity.
  - reflexivity.
  - left. reflexivity.
Defined.

Lemma denied_device_leaves_flag_set_witness :
  let w2 := step (step idle ClickRecord) (MediaDenied 0 "NotAllowedError") in
  app idle = Some idle_state /\
  app w2 = Some (setRecording true idle_state) /\
  console w2 = [ConsoleError "Error starting recording:" (DOMException "NotAllowedError")] /\
  step w2 ClickRecord = w2 /\ step w2 ClickStop = w2.
Proof.
  cbv zeta. split; [ reflexivity | ].
  apply (denied_device_leaves_flag_set idle idle_state "NotAllowedError").
  - exact idle_healthy.
  - reflexivity.
  - reflexivity.
  - reflexivity.
  - reflexivity.
Defined.


Lemma second_start_requests_no_device_witness :
  let es := [MediaGranted 0; CalendarChange jan11; DataAvailable 0 "abc"] in
  let w2 := run (step idle ClickRecord) es in
  app idle = Some idle_state /\
  List.length (mediaRequests (step idle ClickRecord)) = 1 /\
  step w2 ClickRecord = w2 /\
  List.length (mediaRequests (step w2 ClickRecord)) = 1.
Proof.
  cbv zeta. split; [ reflexivity | ].
  apply (second_start_requests_no_device idle idle_state
           [MediaGranted 0; CalendarChange jan11; DataAvailable 0 "abc"]).
  - reflexivity.
  - reflexivity.
  - reflexivity.
  - repeat constructor.
Defined.

Lemma non_2xx_response_inserts_nothing_witness :
  let failure := Error "HTTP error! status: 401" in
  let w' := step awaiting (FetchSettled 0 (Response 401 NotJson) t0) in
  ok 401 = false /\
  transcribed (Response 401 NotJson) = Throw failure /\
  option_map voiceNotes (app w') = option_map voiceNotes (app awaiting) /\
  localStorage w' = localStorage awaiting /\
  console w' = console awaiting ++ [ConsoleError "Error transcribing audio:" failure].
Proof.
  cbv zeta. split; [ reflexivity | ].
  apply (non_2xx_response_inserts_nothing awaiting 0 (mkFetch idle_state EmptyString false)
           401 NotJson t0).
  - exact awaiting_healthy.
  - reflexivity.
  - reflexivity.
  - reflexivity.
Defined.

Lemma persist_then_load_round_trip_witness :
  let es := session ++ [FetchSettled 0 (Response 200 (Json milk)) t0;
                        ClickToggle "1704900000000"] in
  let kept := mkNote "1704900000000" "2024-01-10" (Some (JString "buy milk")) true in
  in_sync idle /\
  load (item_voiceNotes (localStorage (run idle es))) = Hydrated [kept] /\
  exists w' st', mount jan11 (localStorage (run idle es)) = Some w' /\
                 app w' = Some st' /\ voiceNotes st' = [kept].
Proof.
  cbv zeta. split; [ exact idle_in_sync | ].
  apply (persist_then_load_round_trip idle
           (session ++ [FetchSettled 0 (Response 200 (Json milk)) t0;
                        ClickToggle "1704900000000"])
           (mkState true jan10
              [mkNote "1704900000000" "2024-01-10" (Some (JString "buy milk")) true]
              false (Some 0) EmptyString) jan11).
  - exact idle_in_sync.
  - vm_compute. reflexivity.
  - repeat constructor. eexists. reflexivity.
Defined.

Lemma toggleNoteCompletion_involutive_witness :
  toggleNoteCompletion "1704900000000"
    (toggleNoteCompletion "1704900000000" [noteA; noteB]) = [noteA; noteB] /\
  toggleNoteCompletion "absent" [noteA; noteB] = [noteA; noteB].
Proof.
  split.
  - apply (proj1 (toggleNoteCompletion_involutive "1704900000000" [noteA; noteB])).
  - apply (proj2 (proj2 (proj2 (toggleNoteCompletion_involutive "absent" [noteA; noteB])))).
    reflexivity.
Defined.

(** C10 fails as stated: two notes built at the same reading of the clock
    get the same identifier. *)
Lemma same_reading_counterexample :
  let es := session ++ [FetchSettled 0 (Response 200 (Json milk)) t0] ++
            [ClickRecord; MediaGranted 1; ClickStop; RecorderStop 1;
             FetchSettled 1 (Response 200 (Json milk)) t0] in
  exists st, app (run idle es) = Some st /\
             map id (voiceNotes st) = ["1704900000000"; "1704900000000"] /\
             ~ NoDup (map id (voiceNotes st)).
Proof.
  cbv zeta. eexists. split; [ vm_compute; reflexivity | ].
  split; [ reflexivity | ].
  simpl. intros H. inversion H as [ | ? ? Hin _ ]; subst. apply Hin. left. reflexivity.
Qed.

Lemma ids_distinct_while_clock_ticks_witness :
  let es := session ++ [FetchSettled 0 (Response 200 (Json milk)) t0] ++
            [ClickRecord; MediaGranted 1; ClickStop; RecorderStop 1;
             FetchSettled 1 (Response 200 (Json milk)) t1] in
  Stamped 0 idle /\ ticking 0 es /\
  (exists st, app (run idle es) = Some st /\
              map id (voiceNotes st) = ["1704900000000"; "1704900000500"]) /\
  forall st, app (run idle es) = Some st -> NoDup (map id (voiceNotes st)).
Proof.
  cbv zeta. split; [ exact idle_stamped | ].
  assert (Ht : ticking 0
            (session ++ [FetchSettled 0 (Response 200 (Json milk)) t0] ++
             [ClickRecord; MediaGranted 1; ClickStop; RecorderStop 1;
              FetchSettled 1 (Response 200 (Json milk)) t1])).
  { simpl. unfold t0, t1. repeat split; lia. }
  split; [ exact Ht | ].
  split; [ eexists; split; [ vm_compute; reflexivity | reflexivity ] | ].
  apply (ids_distinct_while_clock_ticks 0 idle _ idle_stamped Ht).
Defined.

End Samples.

(** * Further properties of the handlers *)

(** ** [deleteNote] and [toggleNoteCompletion] as list functions *)

Section ListOperations.

Lemma deleteNote_In i l n : In n (deleteNote i l) <-> In n l /\ id n <> i.
Proof.
  unfold deleteNote. rewrite filter_In, negb_true_iff, String.eqb_neq. tauto.
Qed.

Lemma deleteNote_absent i l : existsb (has_id i) l = false -> deleteNote i l = l.
Proof.
  intros Hno. unfold deleteNote. induction l as [ | n r IH ]; [ reflexivity | ].
  simpl in Hno |- *. apply orb_false_iff in Hno as [Hn Hr]. unfold has_id in Hn.
  rewrite Hn. simpl. rewrite (IH Hr). reflexivity.
Qed.

(** X1.  [deleteNote] removes every note that carries the identifier and
    keeps the others in their order: no remaining note has it, a note with
    another identifier stays, deleting over a concatenation is deleting in
    each part, a second deletion changes nothing, and so does the deletion
    of an identifier no note carries. *)
Theorem deleteNote_removes_the_id (i : string) (store : list VoiceNote) :
  (forall n, In n (deleteNote i store) <-> In n store /\ id n <> i) /\
  existsb (has_id i) (deleteNote i store) = false /\
  (forall l1 l2, deleteNote i (l1 ++ l2) = deleteNote i l1 ++ deleteNote i l2) /\
  deleteNote i (deleteNote i store) = deleteNote i store /\
  (existsb (has_id i) store = false -> deleteNote i store = store).
Proof.
  split; [ intros n; apply deleteNote_In | ].
  split.
  { destruct (existsb (has_id i) (deleteNote i store)) eqn:E; [ | reflexivity ].
    apply existsb_exists in E as (n & Hn & Hi). apply deleteNote_In in Hn as [_ Hn].
    unfold has_id in Hi. apply String.eqb_eq in Hi. contradiction. }
  split; [ intros l1 l2; apply filter_app | ].
  split.
  { unfold deleteNote. induction store as [ | n r IH ]; [ reflexivity | ].
    simpl. destruct (id n =? i) eqn:E; simpl; [ exact IH | ].
    rewrite E. simpl. rewrite IH. reflexivity. }
  apply deleteNote_absent.
Qed.

(** X2.  The two operations on the store compose without interference:
    deleting and toggling commute, two toggles commute, and a toggle
    followed by the deletion of the same identifier is the deletion alone. *)
Theorem delete_and_toggle_commute (i j : string) (store : list VoiceNote) :
  deleteNote i (toggleNoteCompletion j store) = toggleNoteCompletion j (deleteNote i store) /\
  toggleNoteCompletion i (toggleNoteCompletion j store) =
    toggleNoteCompletion j (toggleNoteCompletion i store) /\
  deleteNote i (toggleNoteCompletion i store) = deleteNote i store.
Proof.
  unfold deleteNote, toggleNoteCompletion. split; [ | split ].
  - induction store as [ | n r IH ]; [ reflexivity | ].
    cbn [map filter]. rewrite IH.
    destruct (id n =? j) eqn:Ej; cbn [id]; destruct (id n =? i) eqn:Ei;
      cbn [negb map]; rewrite ?Ej; reflexivity.
  - rewrite !map_map. apply map_ext. intros n.
    destruct (id n =? j) eqn:Ej; destruct (id n =? i) eqn:Ei; simpl;
      rewrite ?Ej, ?Ei; reflexivity.
  - induction store as [ | n r IH ]; [ reflexivity | ].
    cbn [map filter]. rewrite IH.
    destruct (id n =? i) eqn:E; cbn [id]; rewrite E; reflexivity.
Qed.

Lemma not_in_no_match i l : ~ In i (map id l) -> existsb (has_id i) l = false.
Proof.
  intros H. destruct (existsb (has_id i) l) eqn:E; [ | reflexivity ].
  apply existsb_exists in E as (n & Hn & Hi). unfold has_id in Hi.
  apply String.eqb_eq in Hi. exfalso. apply H. apply in_map_iff. eauto.
Qed.

(** X3.  In a store whose identifiers are pairwise distinct, [deleteNote]
    of an identifier that is present removes exactly one note, and
    [toggleNoteCompletion] changes the note at one position only; both keep
    the identifiers distinct. *)
Theorem distinct_ids_one_note_affected (i : string) (store : list VoiceNote) :
  NoDup (map id store) ->
  In i (map id store) ->
  S (List.length (deleteNote i store)) = List.length store /\
  NoDup (map id (deleteNote i store)) /\
  NoDup (map id (toggleNoteCompletion i store)) /\
  exists k n,
    nth_error store k = Some n /\ id n = i /\
    forall k', k' <> k -> nth_error (toggleNoteCompletion i store) k' = nth_error store k'.
Proof.
  intros Hnd Hin. split; [ | split; [ | split ] ].
  - induction store as [ | n r IH ]; [ destruct Hin | ].
    simpl in Hnd, Hin. inversion Hnd as [ | ? ? Hn Hr ]; subst.
    unfold deleteNote in *. simpl. destruct (id n =? i) eqn:E; simpl.
    + apply String.eqb_eq in E. rewrite E in Hn.
      pose proof (deleteNote_absent i r (not_in_no_match i r Hn)) as Hsame.
      unfold deleteNote in Hsame. rewrite Hsame. reflexivity.
    + f_equal. apply IH; [ exact Hr | ].
      destruct Hin as [Hi | Hi]; [ | exact Hi ].
      apply String.eqb_neq in E. contradiction.
  - apply NoDup_map_filter, Hnd.
  - unfold toggleNoteCompletion. rewrite map_map. erewrite map_ext; [ exact Hnd | ].
    intros n. simpl. destruct (id n =? i); reflexivity.
  - apply in_map_iff in Hin as (n & Hi & Hn).
    apply In_nth_error in Hn as [k Hk]. exists k, n.
    split; [ exact Hk | split; [ exact Hi | ] ].
    intros k' Hne. unfold toggleNoteCompletion. rewrite nth_error_map.
    destruct (nth_error store k') as [n' | ] eqn:Hk'; [ | reflexivity ].
    simpl. destruct (id n' =? i) eqn:E; [ | reflexivity ].
    exfalso. apply Hne. apply String.eqb_eq in E.
    apply (proj1 (NoDup_nth_error (map id store)) Hnd).
    + apply nth_error_Some. rewrite nth_error_map, Hk'. discriminate.
    + rewrite !nth_error_map, Hk, Hk'. simpl. congruence.
Qed.

End ListOperations.

(** ** The filter of a render *)

Section FilterFacts.

Lemma filter_notes_breaks day term l :
  existsb (breaks_render day) l = true -> filter_notes day term l = Throw TypeError.
Proof.
  induction l as [ | n r IH ]; [ discriminate | ].
  cbn [existsb filter_notes]. unfold breaks_render at 1, text_is_string.
  destruct (date n =? day); cbn [andb orb].
  - destruct (text n) as [ [ | | | t | | ] | ]; cbn [negb orb]; try reflexivity.
    intros H. rewrite (IH H). reflexivity.
  - exact IH.
Qed.

Lemma filter_notes_clean day term l :
  existsb (breaks_render day) l = false ->
  filter_notes day term l = Normal (filter (shown day term) l).
Proof.
  induction l as [ | n r IH ]; [ reflexivity | ].
  cbn [existsb filter_notes filter]. unfold breaks_render at 1, shown at 1, text_is_string.
  destruct (date n =? day); cbn [andb orb].
  - destruct (text n) as [ [ | | | t | | ] | ]; cbn [negb orb]; try discriminate.
    intros H. rewrite (IH H). destruct (JS.includes _ _); reflexivity.
  - exact IH.
Qed.

Lemma filter_notes_normal day term l r :
  filter_notes day term l = Normal r ->
  existsb (breaks_render day) l = false /\ r = filter (shown day term) l.
Proof.
  intros H. destruct (existsb (breaks_render day) l) eqn:E.
  - rewrite (filter_notes_breaks day term l E) in H. discriminate.
  - rewrite (filter_notes_clean day term l E) in H. injection H as <-. auto.
Qed.

(** X4.  The filter of a render throws a [TypeError] exactly when some note
    of the selected day has a [text] that is not a string, whatever the
    search term; notes of other days are never looked into.  Otherwise it
    returns the notes of the day whose lower-cased text includes the
    lower-cased term, in the order of the store. *)
Theorem filter_throws_on_a_note_of_the_day_without_text (day term : string)
    (store : list VoiceNote) :
  (filter_notes day term store = Throw TypeError <->
   exists n, In n store /\ date n = day /\ text_is_string n = false) /\
  (existsb (breaks_render day) store = false ->
   filter_notes day term store = Normal (filter (shown day term) store)).
Proof.
  split; [ | apply filter_notes_clean ].
  split.
  - intros H. destruct (existsb (breaks_render day) store) eqn:E.
    + apply existsb_exists in E as (n & Hn & Hb). unfold breaks_render in Hb.
      apply andb_true_iff in Hb as [Hd Ht]. apply String.eqb_eq in Hd.
      apply negb_true_iff in Ht. eauto.
    + rewrite (filter_notes_clean day term store E) in H. discriminate.
  - intros (n & Hn & Hd & Ht). apply filter_notes_breaks, existsb_exists.
    exists n. split; [ exact Hn | ]. unfold breaks_render.
    rewrite Ht. apply String.eqb_eq in Hd. rewrite Hd. reflexivity.
Qed.

Lemma filter_narrow {A} (p q : A -> bool) l :
  (forall x, p x = true -> q x = true) -> filter p (filter q l) = filter p l.
Proof.
  intros H. induction l as [ | x r IH ]; [ reflexivity | ].
  simpl. destruct (q x) eqn:Q; simpl.
  - rewrite IH. reflexivity.
  - destruct (p x) eqn:P; [ rewrite (H x P) in Q; discriminate | exact IH ].
Qed.

Lemma existsb_filter_false {A} (p q : A -> bool) l :
  existsb p l = false -> existsb p (filter q l) = false.
Proof.
  induction l as [ | x r IH ]; [ reflexivity | ].
  simpl. intros H. apply orb_false_iff in H as [Hx Hr].
  destruct (q x); simpl; rewrite ?Hx; auto.
Qed.

(** X5.  On texts and search terms of code units below U+0100, typing
    further characters into the search box only narrows the list: the
    filter for the longer term gives what it gives on the result for the
    shorter term, so every note listed for the longer term was listed for
    the shorter.  Beyond that range it is not so: a note that holds the
    Greek word of [Scenario.kosmima] is not listed for its first three
    letters, which end in a capital sigma, and is listed once the fourth is
    typed. *)
Theorem longer_term_narrows_the_list (day term more : UTF16.ustring)
    (store shorter : list UTF16.VoiceNote) :
  Forall (fun n => forallb UTF16.latin1 (UTF16.text n) = true) store ->
  forallb UTF16.latin1 (term ++ more) = true ->
  UTF16.filter_notes day term store = Some shorter ->
  (exists longer,
     UTF16.filter_notes day (term ++ more) store = Some longer /\
     UTF16.filter_notes day (term ++ more) shorter = Some longer /\
     forall n, In n longer -> In n shorter) /\
  UTF16.filter_notes (UTF16.date Scenario.jewel) Scenario.kos [Scenario.jewel] = Some [] /\
  UTF16.filter_notes (UTF16.date Scenario.jewel) (Scenario.kos ++ [0x39C]%N)
                     [Scenario.jewel] = Some [Scenario.jewel].
Proof.
  intros Hs Hq H. split; [ | split; reflexivity ].
  assert (Ht : forallb UTF16.latin1 term = true).
  { rewrite forallb_app in Hq. apply andb_true_iff in Hq as [Ht _]. exact Ht. }
  rewrite (filter_notes_latin1 day term store Hs Ht) in H. injection H as <-.
  assert (N : forall n, Spec.matches day (term ++ more) n = true ->
                        Spec.matches day term n = true).
  { intros n. unfold Spec.matches. rewrite !andb_true_iff.
    intros [E C]. split; [ exact E | apply (contains_shorter _ _ more), C ]. }
  assert (Hs' : Forall (fun n => forallb UTF16.latin1 (UTF16.text n) = true)
                       (Spec.query day term store)).
  { rewrite Forall_forall in Hs |- *. intros n Hn. apply Hs.
    apply filter_In in Hn as [Hn _]. exact Hn. }
  exists (Spec.query day (term ++ more) store).
  split; [ apply (filter_notes_latin1 _ _ _ Hs Hq) | ]. split.
  - rewrite (filter_notes_latin1 _ _ _ Hs' Hq). f_equal. apply filter_narrow, N.
  - intros n Hn. apply filter_In in Hn as [Hn Hm]. apply filter_In.
    split; [ exact Hn | apply N, Hm ].
Qed.

Lemma breaks_render_toggle day i l :
  existsb (breaks_render day) (toggleNoteCompletion i l) = existsb (breaks_render day) l.
Proof.
  unfold toggleNoteCompletion. induction l as [ | n r IH ]; [ reflexivity | ].
  cbn [map existsb]. rewrite IH. f_equal. destruct (id n =? i); reflexivity.
Qed.

Lemma filter_shown_toggle day term i l :
  filter (shown day term) (toggleNoteCompletion i l) =
  toggleNoteCompletion i (filter (shown day term) l).
Proof.
  unfold toggleNoteCompletion. induction l as [ | n r IH ]; [ reflexivity | ].
  cbn [map filter]. rewrite IH.
  replace (shown day term (if id n =? i
                           then mkNote (id n) (date n) (text n) (negb (completed n))
                           else n))
    with (shown day term n) by (destruct (id n =? i); reflexivity).
  destruct (shown day term n); reflexivity.
Qed.

(** The filter sees through a toggle: the same notes are listed, toggled. *)
Lemma filter_notes_toggle day term i l r :
  filter_notes day term l = Normal r ->
  filter_notes day term (toggleNoteCompletion i l) = Normal (toggleNoteCompletion i r).
Proof.
  intros H. apply filter_notes_normal in H as [Hc ->].
  rewrite filter_notes_clean by (rewrite breaks_render_toggle; exact Hc).
  rewrite filter_shown_toggle. reflexivity.
Qed.

Lemma filter_filter_comm {A} (p q : A -> bool) l :
  filter p (filter q l) = filter q (filter p l).
Proof.
  induction l as [ | x r IH ]; [ reflexivity | ].
  simpl. destruct (q x) eqn:Q; destruct (p x) eqn:P; simpl; rewrite ?Q, ?P, IH; reflexivity.
Qed.

(** The filter of the store after a deletion is the deletion in the list. *)
Lemma filter_notes_delete day term i l r :
  filter_notes day term l = Normal r ->
  filter_notes day term (deleteNote i l) = Normal (deleteNote i r).
Proof.
  intros H. apply filter_notes_normal in H as [Hc ->]. unfold deleteNote.
  rewrite filter_notes_clean by (apply existsb_filter_false, Hc).
  f_equal. apply filter_filter_comm.
Qed.

End FilterFacts.


(** ** The capital sigma *)

Section FinalSigma.

Lemma cased_not_ignorable u : UTF16.cased u = true -> UTF16.case_ignorable u = false.
Proof.
  intros H. destruct (UTF16.case_ignorable u) eqn:E; [ | reflexivity ].
  unfold UTF16.case_ignorable in E. apply existsb_exists in E as (x & Hx & Ex).
  apply N.eqb_eq in Ex. subst x. cbn [In] in Hx.
  repeat (destruct Hx as [<- | Hx]; [ vm_compute in H; discriminate H | ]).
  destruct Hx.
Qed.

Lemma cased_next_cased u s : UTF16.cased u = true -> UTF16.cased_next (u :: s) = true.
Proof.
  intros H. unfold UTF16.cased_next. cbn [UTF16.skip_ignorable].
  rewrite (cased_not_ignorable u H). exact H.
Qed.

Lemma lower_unit_not_final u :
  (u =? UTF16.final_sigma)%N = false -> (UTF16.lower_unit u =? UTF16.final_sigma)%N = false.
Proof.
  intros H. unfold UTF16.lower_unit.
  destruct (UTF16.latin_capital u || UTF16.greek_capital u) eqn:E; [ | exact H ].
  apply N.eqb_neq. unfold UTF16.final_sigma. intros F.
  assert (u = 0x3A2%N) by lia. subst u. vm_compute in E. discriminate E.
Qed.

Lemma lowered_has_no_final_sigma s :
  forallb (fun u => negb (u =? UTF16.final_sigma)%N) s = true ->
  ~ In UTF16.final_sigma (map UTF16.lower_unit s).
Proof.
  intros H Hin. apply in_map_iff in Hin as (u & E & Hu).
  rewrite forallb_forall in H. specialize (H u Hu). apply negb_true_iff in H.
  apply lower_unit_not_final in H. rewrite E, N.eqb_refl in H. discriminate H.
Qed.

Lemma startsWith_In s p : UTF16.startsWith s p = true -> forall x, In x p -> In x s.
Proof.
  revert s. induction p as [ | a p IH ]; intros s H x Hx; [ destruct Hx | ].
  destruct s as [ | b s ]; [ discriminate H | ].
  cbn [UTF16.startsWith] in H. apply andb_true_iff in H as [E H]. apply N.eqb_eq in E.
  destruct Hx as [<- | Hx]; [ left; symmetry; exact E | right; apply (IH s H x Hx) ].
Qed.

Lemma includes_In s p : UTF16.includes s p = true -> forall x, In x p -> In x s.
Proof.
  induction s as [ | b s IH ]; cbn [UTF16.includes]; rewrite orb_true_iff.
  - intros [H | H]; [ apply (startsWith_In _ _ H) | discriminate H ].
  - intros [H | H] x Hx; [ apply (startsWith_In _ _ H x Hx) | right; apply (IH H x Hx) ].
Qed.

Lemma filter_notes_In day term store : forall l n,
  UTF16.filter_notes day term store = Some l -> In n l ->
  In n store /\ UTF16.listed day term n = Some true.
Proof.
  induction store as [ | m r IH ]; intros l n H Hn.
  - injection H as <-. destruct Hn.
  - cbn [UTF16.filter_notes] in H.
    destruct (UTF16.listed day term m) as [ b | ] eqn:Em; [ | discriminate H ].
    destruct (UTF16.filter_notes day term r) as [ kept | ]; [ | discriminate H ].
    injection H as <-. destruct b.
    + destruct Hn as [<- | Hn]; [ split; [ left; reflexivity | exact Em ] | ].
      destruct (IH kept n eq_refl Hn) as [A B]. split; [ right; exact A | exact B ].
    + destruct (IH kept n eq_refl Hn) as [A B]. split; [ right; exact A | exact B ].
Qed.

Lemma starts_with_itself p r : Spec.starts_ignoring_case (p ++ r) p = true.
Proof.
  induction p as [ | a p IH ]; [ destruct r; reflexivity | ].
  cbn [Datatypes.app Spec.starts_ignoring_case]. rewrite same_letter_refl, IH. reflexivity.
Qed.

Lemma contains_its_prefix p r : Spec.contains_ignoring_case (p ++ r) p = true.
Proof.
  destruct (p ++ r) eqn:E; cbn [Spec.contains_ignoring_case]; rewrite <- E;
    rewrite starts_with_itself; reflexivity.
Qed.

(** C7, on the code.  [toLowerCase] turns a capital sigma into the final
    small sigma when a letter comes before it and none after it, and into
    the plain small sigma otherwise.  So a search term that ends in a
    letter and a capital sigma is lowered to a term that ends in a final
    sigma, while in a text where the same letters go on with another
    letter the sigma is lowered to the plain one.  The text holds the term
    as it was typed and the query of the specification lists the note; the
    filter of the page does not. *)
Theorem term_ending_in_sigma_is_missed (stem rest : UTF16.ustring) (a c : N)
    (n : UTF16.VoiceNote) (d : JSDate) :
  let term := stem ++ [a; UTF16.capital_sigma] in
  let day := UTF16.of_string (format_yyyy_MM_dd d) in
  forallb (fun u => UTF16.modelled u && negb (u =? UTF16.capital_sigma)%N &&
                    negb (u =? UTF16.final_sigma)%N) (stem ++ a :: c :: rest) = true ->
  UTF16.cased a = true -> UTF16.cased c = true ->
  UTF16.text n = term ++ c :: rest -> UTF16.date n = day ->
  UTF16.toLowerCase term =
    Some (map UTF16.lower_unit (stem ++ [a]) ++ [UTF16.final_sigma]) /\
  UTF16.toLowerCase (UTF16.text n) =
    Some (map UTF16.lower_unit (stem ++ [a]) ++
          UTF16.small_sigma :: map UTF16.lower_unit (c :: rest)) /\
  Spec.matches day term n = true /\
  UTF16.listed day term n = Some false /\
  forall store, In n store ->
    In n (Spec.query day term store) /\
    forall l, UTF16.filteredNotes store d term = Some l -> ~ In n l.
Proof.
  intros term day Hall Ha Hc Htext Hdate.
  assert (Hall' : forallb (fun u => UTF16.modelled u && negb (u =? UTF16.capital_sigma)%N &&
                                    negb (u =? UTF16.final_sigma)%N)
                          ((stem ++ [a]) ++ c :: rest) = true)
    by (rewrite <- app_assoc; exact Hall).
  rewrite forallb_app in Hall'. apply andb_true_iff in Hall' as [H1 H2].
  assert (P : forall s,
            forallb (fun u => UTF16.modelled u && negb (u =? UTF16.capital_sigma)%N &&
                              negb (u =? UTF16.final_sigma)%N) s = true ->
            forallb UTF16.modelled s = true /\
            forallb (fun u => negb (u =? UTF16.capital_sigma)%N) s = true /\
            forallb (fun u => negb (u =? UTF16.final_sigma)%N) s = true).
  { intros s Hs. split; [ | split ]; refine (forallb_weaken _ _ s _ Hs);
      intros x Hx; apply andb_true_iff in Hx as [Hx Hf];
      apply andb_true_iff in Hx as [Hm Hx]; assumption. }
  destruct (P _ H1) as (M1 & S1 & F1). destruct (P _ H2) as (M2 & S2 & F2). clear P.
  assert (Et : term = (stem ++ [a]) ++ [UTF16.capital_sigma])
    by (subst term; rewrite <- app_assoc; reflexivity).
  assert (Ex : UTF16.text n = (stem ++ [a]) ++ UTF16.capital_sigma :: c :: rest)
    by (rewrite Htext, Et, <- app_assoc; reflexivity).
  assert (Before : UTF16.cased_next (rev (stem ++ [a]) ++ []) = true)
    by (rewrite rev_unit; apply cased_next_cased, Ha).
  assert (T1 : UTF16.toLowerCase term =
               Some (map UTF16.lower_unit (stem ++ [a]) ++ [UTF16.final_sigma])).
  { unfold UTF16.toLowerCase. rewrite Et, forallb_app, M1. cbn [forallb andb].
    rewrite (lower_from_app [] _ _ S1). cbn [UTF16.lower_from].
    rewrite N.eqb_refl. unfold UTF16.is_final_sigma. rewrite Before. reflexivity. }
  assert (T2 : UTF16.toLowerCase (UTF16.text n) =
               Some (map UTF16.lower_unit (stem ++ [a]) ++
                     UTF16.small_sigma :: map UTF16.lower_unit (c :: rest))).
  { unfold UTF16.toLowerCase. rewrite Ex, forallb_app, M1.
    cbn [forallb andb]. change (forallb UTF16.modelled (c :: rest)) with
      (UTF16.modelled c && forallb UTF16.modelled rest).
    cbn [forallb] in M2. rewrite M2. cbn [andb].
    rewrite (lower_from_app [] _ _ S1).
    change (UTF16.lower_from (rev (stem ++ [a]) ++ []) (UTF16.capital_sigma :: c :: rest))
      with ((if (UTF16.capital_sigma =? UTF16.capital_sigma)%N
             then if UTF16.is_final_sigma (rev (stem ++ [a]) ++ []) (c :: rest)
                  then UTF16.final_sigma else UTF16.small_sigma
             else UTF16.lower_unit UTF16.capital_sigma)
            :: UTF16.lower_from (UTF16.capital_sigma :: rev (stem ++ [a]) ++ []) (c :: rest)).
    rewrite N.eqb_refl. unfold UTF16.is_final_sigma.
    rewrite Before, (cased_next_cased c rest Hc). cbn [andb negb].
    rewrite (lower_from_plain _ _ S2). reflexivity. }
  assert (T3 : Spec.matches day term n = true).
  { unfold Spec.matches. apply andb_true_iff. split; [ apply eqb_eq, Hdate | ].
    rewrite Htext. apply contains_its_prefix. }
  assert (T4 : UTF16.listed day term n = Some false).
  { unfold UTF16.listed. replace (UTF16.eqb (UTF16.date n) day) with true
      by (symmetry; apply eqb_eq, Hdate).
    rewrite T1, T2. f_equal.
    destruct (UTF16.includes _ _) eqn:I; [ exfalso | reflexivity ].
    assert (X := includes_In _ _ I UTF16.final_sigma).
    specialize (X ltac:(apply in_or_app; right; left; reflexivity)).
    apply in_app_or in X as [X | [X | X]].
    - exact (lowered_has_no_final_sigma _ F1 X).
    - discriminate X.
    - exact (lowered_has_no_final_sigma _ F2 X). }
  split; [ exact T1 | ]. split; [ exact T2 | ]. split; [ exact T3 | ].
  split; [ exact T4 | ].
  intros store Hin. split; [ apply filter_In; split; assumption | ].
  intros l Hl Hnl. destruct (filter_notes_In _ _ _ _ _ Hl Hnl) as [_ L].
  fold day in L. rewrite T4 in L. discriminate L.
Qed.

End FinalSigma.

(** ** The buttons of a note *)

Section NoteButtons.

Lemma toggle_twice i l : toggleNoteCompletion i (toggleNoteCompletion i l) = l.
Proof.
  unfold toggleNoteCompletion. rewrite map_map. rewrite <- (map_id l) at 2.
  apply map_ext. intros n. apply (toggle_flips_back i n).
Qed.

Lemma existsb_id_toggle j i l :
  existsb (fun note => id note =? j) (toggleNoteCompletion i l) =
  existsb (fun note => id note =? j) l.
Proof.
  unfold toggleNoteCompletion. induction l as [ | n r IH ]; [ reflexivity | ].
  cbn [map existsb]. rewrite IH. f_equal. destruct (id n =? i); reflexivity.
Qed.

Lemma existsb_id_delete i l :
  existsb (fun note => id note =? i) (deleteNote i l) = false.
Proof.
  unfold deleteNote. induction l as [ | n r IH ]; [ reflexivity | ].
  cbn [filter]. destruct (id n =? i) eqn:E; cbn [negb]; [ exact IH | ].
  cbn [existsb]. rewrite E, IH. reflexivity.
Qed.

Lemma displayed_listed i st :
  displayed i st = true ->
  exists l, filteredNotes st = Normal l /\ existsb (fun note => id note =? i) l = true.
Proof.
  unfold displayed. destruct (filteredNotes st) as [l | e]; [ eauto | discriminate ].
Qed.

(** X6.  The delete button of a listed note sets the notes to [deleteNote]
    of the notes of the render, saves them, and writes nothing to the
    console; the note is then no longer listed, so a second click has
    nothing to act on.  For an identifier that is not listed (absent, of
    another day, or filtered out by the search) there is no button. *)
Theorem click_delete_removes_the_listed_note (w : World) (st : AppState) (i : string) :
  app w = Some st -> isLoggedIn st = true ->
  (displayed i st = true ->
   let st' := setVoiceNotes (deleteNote i (voiceNotes st)) st in
   let w' := step w (ClickDelete i) in
   app w' = Some st' /\
   item_voiceNotes (localStorage w') = Some (stringify_notes (deleteNote i (voiceNotes st))) /\
   console w' = console w /\
   displayed i st' = false /\
   step w' (ClickDelete i) = w') /\
  (displayed i st = false -> step w (ClickDelete i) = w).
Proof.
  intros Ha Hl. split.
  - intros Hd. cbv zeta. destruct (displayed_listed i st Hd) as (l & Hf & _).
    assert (Hf' : filteredNotes (setVoiceNotes (deleteNote i (voiceNotes st)) st) =
                  Normal (deleteNote i l)).
    { unfold filteredNotes in *. simpl. apply filter_notes_delete, Hf. }
    assert (Hd' : displayed i (setVoiceNotes (deleteNote i (voiceNotes st)) st) = false).
    { unfold displayed. rewrite Hf'. apply existsb_id_delete. }
    assert (E : step w (ClickDelete i) =
                with_localStorage (persist (deleteNote i (voiceNotes st)) (localStorage w))
                  (with_app (Some (setVoiceNotes (deleteNote i (voiceNotes st)) st)) w)).
    { unfold step, on_view. rewrite Ha, Hl, Hd. unfold commit. rewrite Hf'. reflexivity. }
    rewrite E. split; [ reflexivity | ]. split; [ reflexivity | ]. split; [ reflexivity | ].
    split; [ exact Hd' | ].
    unfold step, on_view. cbn [app with_localStorage with_app].
    cbn [isLoggedIn setVoiceNotes]. rewrite Hl, Hd'. reflexivity.
  - intros Hd. unfold step, on_view. rewrite Ha, Hl, Hd. reflexivity.
Qed.

Lemma setVoiceNotes_same st : setVoiceNotes (voiceNotes st) st = st.
Proof. destruct st; reflexivity. Qed.

(** X7.  The check button toggles the listed note in memory and in the
    saved record and leaves the same notes listed; clicking it twice puts
    the whole page, saved record included, back as it was. *)
Theorem double_toggle_click_restores_the_page (w : World) (i : string) :
  in_sync w ->
  step (step w (ClickToggle i)) (ClickToggle i) = w /\
  forall st l, app w = Some st -> isLoggedIn st = true ->
    filteredNotes st = Normal l -> existsb (fun note => id note =? i) l = true ->
    let st' := setVoiceNotes (toggleNoteCompletion i (voiceNotes st)) st in
    app (step w (ClickToggle i)) = Some st' /\
    filteredNotes st' = Normal (toggleNoteCompletion i l) /\
    item_voiceNotes (localStorage (step w (ClickToggle i))) =
      Some (stringify_notes (toggleNoteCompletion i (voiceNotes st))).
Proof.
  intros Hs.
  assert (F : forall st l, filteredNotes st = Normal l ->
            filteredNotes (setVoiceNotes (toggleNoteCompletion i (voiceNotes st)) st) =
            Normal (toggleNoteCompletion i l)).
  { intros st l Hf. unfold filteredNotes in *. simpl. apply filter_notes_toggle, Hf. }
  assert (S1 : forall st l, app w = Some st -> isLoggedIn st = true ->
            filteredNotes st = Normal l -> existsb (fun note => id note =? i) l = true ->
            step w (ClickToggle i) =
            with_localStorage (persist (toggleNoteCompletion i (voiceNotes st)) (localStorage w))
              (with_app (Some (setVoiceNotes (toggleNoteCompletion i (voiceNotes st)) st)) w)).
  { intros st l Ha Hl Hf Hd. unfold step, on_view. rewrite Ha, Hl.
    unfold displayed. rewrite Hf, Hd. unfold commit. rewrite (F st l Hf). reflexivity. }
  split.
  - destruct (app w) as [st | ] eqn:Ha;
      [ | unfold step, on_view; rewrite Ha; cbn; rewrite Ha; reflexivity ].
    destruct (isLoggedIn st) eqn:Hl;
      [ | unfold step, on_view; rewrite Ha, Hl; cbn; rewrite Ha, Hl; reflexivity ].
    destruct (displayed i st) eqn:Hd;
      [ | unfold step, on_view; rewrite Ha, Hl, Hd; cbn; rewrite Ha, Hl, Hd; reflexivity ].
    destruct (displayed_listed i st Hd) as (l & Hf & He).
    rewrite (S1 st l eq_refl Hl Hf He).
    set (st1 := setVoiceNotes (toggleNoteCompletion i (voiceNotes st)) st).
    assert (F1 : filteredNotes st1 = Normal (toggleNoteCompletion i l)) by apply F, Hf.
    assert (F2 : filteredNotes (setVoiceNotes (toggleNoteCompletion i (voiceNotes st1)) st1) =
                 Normal (toggleNoteCompletion i (toggleNoteCompletion i l))) by apply F, F1.
    unfold step, on_view. cbn [app with_localStorage with_app].
    replace (isLoggedIn st1) with true by (symmetry; exact Hl).
    unfold displayed. rewrite F1, existsb_id_toggle, He.
    unfold commit. rewrite F2.
    subst st1. cbn [voiceNotes setVoiceNotes]. rewrite toggle_twice.
    pose proof (Hs st Ha) as Hsaved.
    destruct w as [a ls c rq rc fs]. destruct ls as [li lv]. destruct st. simpl in *.
    subst. reflexivity.
  - intros st l Ha Hl Hf Hd. cbv zeta. rewrite (S1 st l Ha Hl Hf Hd).
    split; [ reflexivity | ]. split; [ apply F, Hf | reflexivity ].
Qed.

End NoteButtons.

(** ** What the events leave alone *)

Section Frames.

(** X8.  Only three handlers write the notes: the settled transcription and
    the two buttons of a note.  Every other event leaves the notes in
    memory and the saved record as they are. *)
Theorem other_events_leave_the_notes (w : World) (e : Event) :
  writes_notes e = false ->
  item_voiceNotes (localStorage (step w e)) = item_voiceNotes (localStorage w) /\
  forall st', app (step w e) = Some st' ->
    exists st, app w = Some st /\ voiceNotes st' = voiceNotes st.
Proof.
  intros He. split.
  - destruct e; try discriminate He; step_cases; reflexivity.
  - intros st' Hst'.
    destruct e; try discriminate He; step_cases;
      try (injection Hst' as <-); try discriminate;
      try (eexists; split; [ reflexivity | reflexivity ]);
      try (eexists; split; [ eassumption | reflexivity ]).
    all: first [ exfalso; congruence | exists st'; split; [ congruence | reflexivity ] ].
Qed.

Lemma unmounted_storage_step w e : app w = None -> localStorage (step w e) = localStorage w.
Proof. intros H. destruct e; step_cases; congruence. Qed.

(** X9.  Once a render has thrown and the page is unmounted, nothing brings
    it back and the saved record is frozen: a transcription that settles
    afterwards is neither shown nor saved. *)
Theorem unmounted_page_saves_nothing (w : World) (es : list Event) :
  app w = None ->
  app (run w es) = None /\ localStorage (run w es) = localStorage w.
Proof.
  revert w. induction es as [ | e es IH ]; intros w H; [ auto | ].
  change (run w (e :: es)) with (run (step w e) es).
  destruct (IH (step w e) (unmounted_step w e H)) as [H1 H2].
  split; [ exact H1 | ]. rewrite H2. apply unmounted_storage_step, H.
Qed.

Lemma logged_in_step w e :
  (forall st, app w = Some st -> isLoggedIn st = true) ->
  item_isLoggedIn (localStorage w) = Some "true" ->
  (forall st, app (step w e) = Some st -> isLoggedIn st = true) /\
  item_isLoggedIn (localStorage (step w e)) = Some "true".
Proof.
  intros Ha Hs. split.
  - intros st' Hst'.
    destruct e; step_cases; try (injection Hst' as <-); try discriminate; simpl; eauto;
      try (apply Ha; congruence).
  - destruct e; step_cases; auto.
Qed.

(** X10.  There is no way out of a session: once the user is logged in and
    the flag is saved, every later state of the page is logged in and the
    saved flag stays, so every reload starts logged in. *)
Theorem login_is_never_undone (w : World) (es : list Event) :
  (forall st, app w = Some st -> isLoggedIn st = true) ->
  item_isLoggedIn (localStorage w) = Some "true" ->
  (forall st, app (run w es) = Some st -> isLoggedIn st = true) /\
  item_isLoggedIn (localStorage (run w es)) = Some "true" /\
  loggedIn (localStorage (run w es)) = true.
Proof.
  revert w. induction es as [ | e es IH ]; intros w Ha Hs.
  - split; [ exact Ha | ]. split; [ exact Hs | ]. unfold loggedIn. simpl. rewrite Hs. reflexivity.
  - change (run w (e :: es)) with (run (step w e) es).
    destruct (logged_in_step w e Ha Hs) as [Ha' Hs']. apply IH; assumption.
Qed.

End Frames.

(** ** The login form *)

Section LoginForm.

(** A mounted page starts from the saved login flag, the day of the mount,
    an empty search and no recording. *)
Lemma mount_starts today s w st :
  mount today s = Some w -> app w = Some st ->
  isLoggedIn st = loggedIn s /\ selectedDate st = today /\
  searchTerm st = EmptyString /\ recording st = false /\ mediaRecorder st = None.
Proof.
  unfold mount. intros H Hst.
  destruct (load (item_voiceNotes s)); try discriminate; injection H as <-; simpl in *.
  - injection Hst as <-. repeat split.
  - apply commit_app in Hst as [-> _]. repeat split.
  - discriminate.
Qed.

(** X11.  [handleSubmit] accepts the one password: it logs the user in,
    saves the flag under its own key without touching the saved notes, and
    a reload of that storage starts logged in.  Any other password leaves
    the state of [App] and the storage as they were, writes to the console
    and sets the error message of the form; an empty password is not even
    submitted. *)
Theorem login_accepts_one_password (w : World) (st : AppState) (password : string) :
  healthy w -> app w = Some st -> isLoggedIn st = false ->
  let w' := step w (SubmitLogin password) in
  (password = "eks" ->
     app w' = Some (setIsLoggedIn true st) /\
     localStorage w' = mkStorage (Some "true") (item_voiceNotes (localStorage w)) /\
     console w' = console w ++ [ConsoleLog "Login successful"] /\
     forall today w2 st2,
       mount today (localStorage w') = Some w2 -> app w2 = Some st2 -> isLoggedIn st2 = true) /\
  (password <> "eks" ->
     app w' = Some st /\ localStorage w' = localStorage w /\
     (password <> EmptyString ->
        console w' = console w ++ [ConsoleLog "Login failed"] /\
        loginError w' = "Incorrect password") /\
     (password = EmptyString -> w' = w)).
Proof.
  intros Hh Ha Hl. cbv zeta. destruct (Hh st Ha) as [l Hf]. split.
  - intros ->. unfold step. rewrite Ha, Hl. cbn [orb String.eqb Ascii.eqb Bool.eqb].
    unfold handleSubmit. cbn [String.eqb Ascii.eqb Bool.eqb].
    unfold commit, log.
    replace (filteredNotes (setIsLoggedIn true st)) with (filteredNotes st) by reflexivity.
    rewrite Hf. cbn. split; [ reflexivity | ]. split; [ reflexivity | ].
    split; [ reflexivity | ].
    intros today w2 st2 Hm Hst2.
    destruct (mount_starts today _ w2 st2 Hm Hst2) as (E & _). rewrite E. reflexivity.
  - intros Hne. unfold step. rewrite Ha, Hl. cbn [orb].
    destruct (password =? EmptyString) eqn:Ee.
    + apply String.eqb_eq in Ee. subst password.
      split; [ exact Ha | ]. split; [ reflexivity | ]. split; [ congruence | reflexivity ].
    + unfold handleSubmit. apply String.eqb_neq in Hne. rewrite Hne. unfold log. cbn.
      split; [ exact Ha | ]. split; [ reflexivity | ]. split; [ auto | ].
      intros ->. discriminate Ee.
Qed.

Lemma before_login_step w st e :
  app w = Some st -> isLoggedIn st = false ->
  mediaRequests w = [] -> recorders w = [] -> fetches w = [] ->
  logs_in e = false ->
  app (step w e) = Some st /\ localStorage (step w e) = localStorage w /\
  mediaRequests (step w e) = [] /\ recorders (step w e) = [] /\ fetches (step w e) = [].
Proof.
  intros Ha Hl Hq Hr Hf He.
  destruct e; unfold step, on_view; rewrite ?Ha, ?Hl, ?Hq, ?Hr, ?Hf;
    try (destruct rq; cbn; rewrite ?Ha, ?Hq, ?Hr, ?Hf; auto; fail);
    try (destruct rid; cbn; rewrite ?Ha, ?Hq, ?Hr, ?Hf; auto; fail);
    try (destruct fid; cbn; rewrite ?Ha, ?Hq, ?Hr, ?Hf; auto; fail);
    auto.
  cbn [orb]. destruct (password =? EmptyString); [ auto | ].
  unfold handleSubmit. simpl in He. rewrite He. unfold log. cbn. auto.
Qed.

(** X12.  Before the login nothing can be done to the notes: on a page that
    is not logged in and has no pending call, every sequence of events that
    does not submit the password leaves the state and the storage as they
    were, and calls neither [getUserMedia] nor [fetch]. *)
Theorem nothing_happens_before_login (w : World) (st : AppState) (es : list Event) :
  app w = Some st -> isLoggedIn st = false ->
  mediaRequests w = [] -> recorders w = [] -> fetches w = [] ->
  Forall (fun e => logs_in e = false) es ->
  app (run w es) = Some st /\ localStorage (run w es) = localStorage w /\
  mediaRequests (run w es) = [] /\ recorders (run w es) = [] /\ fetches (run w es) = [].
Proof.
  revert w. induction es as [ | e es IH ]; intros w Ha Hl Hq Hr Hf Hes; [ auto 6 | ].
  inversion Hes as [ | ? ? He Hes' ]; subst.
  change (run w (e :: es)) with (run (step w e) es).
  destruct (before_login_step w st e Ha Hl Hq Hr Hf He) as (A & B & C & D & E).
  destruct (IH (step w e) A Hl C D E Hes') as (A' & B' & C' & D' & E').
  repeat split; try assumption. congruence.
Qed.

End LoginForm.

(** ** The continuation of [transcribeAudio] *)

Section Transcription.

(** X13.  When the request fails on the network, [fetch] rejects: the error
    is written to the console, no note is inserted, the notes in memory and
    the saved record stay as they were, and the recording flag is cleared. *)
Theorem network_failure_inserts_nothing (w : World) (fid : nat) (fr : FetchRequest) (now : Z) :
  healthy w ->
  nth_error (fetches w) fid = Some fr -> fr_settled fr = false ->
  let w' := step w (FetchSettled fid NetworkFailure now) in
  option_map voiceNotes (app w') = option_map voiceNotes (app w) /\
  option_map recording (app w') = option_map (fun _ => false) (app w) /\
  localStorage w' = localStorage w /\
  console w' = console w ++ [ConsoleError "Error transcribing audio:" TypeError].
Proof.
  intros Hh Hf Hs.
  apply (thrown_transcription_inserts_nothing w fid fr NetworkFailure now TypeError Hh Hf Hs).
  reflexivity.
Qed.

(** X14.  The [finally] block runs whatever the outcome: after a [fetch] has
    settled the recording flag of a mounted page is clear, while the
    recorders are left as they are; the flag is cleared even when a
    recorder made in the meantime is still recording. *)
Theorem finally_clears_the_recording_flag (w : World) (fid : nat) (fr : FetchRequest)
    (outcome : FetchOutcome) (now : Z) :
  nth_error (fetches w) fid = Some fr -> fr_settled fr = false ->
  let w' := step w (FetchSettled fid outcome now) in
  (forall st', app w' = Some st' -> recording st' = false) /\
  recorders w' = recorders w /\
  mediaRequests w' = mediaRequests w /\
  nth_error (fetches w') fid = Some (mkFetch (fr_render fr) (fr_file fr) true).
Proof.
  intros Hf Hs. cbv zeta. unfold step. rewrite Hf, Hs.
  set (w0 := with_fetches _ w).
  assert (T0 : recorders w0 = recorders w /\ mediaRequests w0 = mediaRequests w /\
               nth_error (fetches w0) fid = Some (mkFetch (fr_render fr) (fr_file fr) true)).
  { subst w0. simpl. repeat split. apply (nth_error_replace_nth_eq _ _ _ _ Hf). }
  clearbody w0. destruct T0 as (T1 & T2 & T3).
  unfold transcribeAudio_settled. destruct (transcribed outcome) as [t | e]; unfold setState.
  - destruct (app w0) as [s | ] eqn:E.
    + destruct (commit_tables
                  (setRecording false
                     (setVoiceNotes
                        (voiceNotes (fr_render fr) ++
                         [mkNote (JS.Number_toString now)
                                 (format_yyyy_MM_dd (selectedDate (fr_render fr))) t false]) s))
                  true w0) as (C1 & C2 & C3).
      rewrite C1, C2, C3. split; [ | auto ].
      intros st' H. apply commit_app in H as [-> _]. reflexivity.
    + split; [ rewrite E; discriminate | auto ].
  - unfold log. cbn [app with_console].
    destruct (app w0) as [s | ] eqn:E.
    + set (w1 := with_console _ w0).
      destruct (commit_tables (setRecording false s) false w1) as (C1 & C2 & C3).
      rewrite C1, C2, C3. split; [ | subst w1; auto ].
      intros st' H. apply commit_app in H as [-> _]. reflexivity.
    + cbn. rewrite E. split; [ discriminate | auto ].
Qed.

(** X15.  A transcription that succeeds with a string sets the notes to
    those of the render in which record was clicked followed by the new
    note, which is uncompleted; it saves exactly that and leaves the other
    cells of the state alone.  The notes in memory at that moment play no
    part: what was inserted, toggled or deleted since the click is
    overwritten. *)
Theorem settled_transcription_overwrites_the_notes (w : World) (st : AppState) (fid : nat)
    (fr : FetchRequest) (status : Z) (data : json) (s : string) (now : Z) :
  app w = Some st ->
  nth_error (fetches w) fid = Some fr -> fr_settled fr = false ->
  ok status = true -> data_text data = Normal (Some (JString s)) ->
  Forall well_typed (voiceNotes (fr_render fr)) ->
  let note := mkNote (JS.Number_toString now)
                     (format_yyyy_MM_dd (selectedDate (fr_render fr)))
                     (Some (JString s)) false in
  let w' := step w (FetchSettled fid (Response status (Json data)) now) in
  app w' = Some (mkState (isLoggedIn st) (selectedDate st)
                         (voiceNotes (fr_render fr) ++ [note])
                         false (mediaRecorder st) (searchTerm st)) /\
  item_voiceNotes (localStorage w') =
    Some (stringify_notes (voiceNotes (fr_render fr) ++ [note])) /\
  console w' = console w.
Proof.
  intros Ha Hf Hs Hok Ht Hty. cbv zeta. unfold step. rewrite Hf, Hs.
  unfold transcribeAudio_settled, transcribed. rewrite Hok, Ht.
  unfold setState. cbn [app with_fetches]. rewrite Ha.
  set (st' := setRecording false _).
  assert (Hr : exists l, filteredNotes st' = Normal l).
  { apply typed_renders. subst st'. cbn. apply Forall_app. split; [ exact Hty | ].
    constructor; [ | constructor ]. eexists. reflexivity. }
  destruct Hr as [l Hl]. unfold commit. rewrite Hl. subst st'.
  split; [ reflexivity | ]. split; reflexivity.
Qed.

End Transcription.

(** ** The audio of a recording *)

Section Audio.

Lemma data_available_appends w rid rc chunk :
  nth_error (recorders w) rid = Some rc -> rec_state rc <> RecInactive ->
  step w (DataAvailable rid chunk) =
  with_recorders
    (replace_nth rid (mkRecorder (rec_render rc) (rec_state rc) (audioChunks rc ++ [chunk]))
                 (recorders w)) w.
Proof.
  intros Hrc Hs. unfold step. rewrite Hrc. destruct (rec_state rc); congruence.
Qed.

Lemma data_run cs : forall w rid rc,
  nth_error (recorders w) rid = Some rc -> rec_state rc <> RecInactive ->
  let w' := run w (map (DataAvailable rid) cs) in
  nth_error (recorders w') rid =
    Some (mkRecorder (rec_render rc) (rec_state rc) (audioChunks rc ++ cs)) /\
  fetches w' = fetches w /\ app w' = app w /\ localStorage w' = localStorage w.
Proof.
  induction cs as [ | c cs IH ]; intros w rid rc Hrc Hs; cbv zeta.
  - simpl. rewrite app_nil_r. destruct rc; auto.
  - cbn [map]. change (run w (DataAvailable rid c :: map (DataAvailable rid) cs))
      with (run (step w (DataAvailable rid c)) (map (DataAvailable rid) cs)).
    rewrite (data_available_appends w rid rc c Hrc Hs).
    set (rc' := mkRecorder (rec_render rc) (rec_state rc) (audioChunks rc ++ [c])).
    set (w1 := with_recorders _ w).
    assert (H1 : nth_error (recorders w1) rid = Some rc')
      by (apply (nth_error_replace_nth_eq _ _ _ _ Hrc)).
    destruct (IH w1 rid rc' H1 Hs) as (A & B & C & D).
    rewrite A, B, C, D. subst rc'. cbn [rec_render rec_state audioChunks].
    rewrite <- app_assoc. auto.
Qed.

(** X16.  The chunks of a recorder are kept in the order of arrival, and the
    file that its stop event posts is their concatenation, with the render
    that made the recorder; the two listeners touch neither the state of
    the page nor the storage. *)
Theorem chunks_are_posted_in_arrival_order (w : World) (rid : nat) (rc : Recorder)
    (chunks : list Blob) :
  nth_error (recorders w) rid = Some rc -> rec_state rc <> RecInactive ->
  let w' := step (run w (map (DataAvailable rid) chunks)) (RecorderStop rid) in
  fetches w' =
    fetches w ++
      [mkFetch (rec_render rc) (String.concat EmptyString (audioChunks rc ++ chunks)) false] /\
  app w' = app w /\
  localStorage w' = localStorage w.
Proof.
  intros Hrc Hs. cbv zeta.
  destruct (data_run chunks w rid rc Hrc Hs) as (A & B & C & D).
  set (w1 := run w (map (DataAvailable rid) chunks)) in *.
  assert (E : step w1 (RecorderStop rid) =
              stop_listener rid
                (mkRecorder (rec_render rc) (rec_state rc) (audioChunks rc ++ chunks)) w1).
  { unfold step. rewrite A. cbn [rec_state]. destruct (rec_state rc); congruence. }
  rewrite E. unfold stop_listener.
  cbn [rec_render audioChunks fetches app localStorage with_fetches with_recorders].
  rewrite B, C, D. auto.
Qed.

End Audio.

(** ** A note whose text is not a string *)

Section BrokenNote.

Lemma note_breaks_render day n l :
  In n l -> date n = day -> text_is_string n = false ->
  existsb (breaks_render day) l = true.
Proof.
  intros Hn Hd Ht. apply existsb_exists. exists n. split; [ exact Hn | ].
  unfold breaks_render. rewrite Ht. apply String.eqb_eq in Hd. rewrite Hd. reflexivity.
Qed.

(** X17.  Selecting the day of a note whose [text] is not a string makes
    the render throw: the page is unmounted with an uncaught [TypeError],
    and the saved record stays as it is. *)
Theorem selecting_the_day_of_a_broken_note_unmounts (w : World) (st : AppState)
    (d : JSDate) (n : VoiceNote) :
  app w = Some st -> isLoggedIn st = true ->
  In n (voiceNotes st) -> date n = format_yyyy_MM_dd d -> text_is_string n = false ->
  let w' := step w (CalendarChange d) in
  app w' = None /\
  console w' = console w ++ [Uncaught TypeError] /\
  localStorage w' = localStorage w.
Proof.
  intros Ha Hl Hn Hd Ht. cbv zeta. unfold step, on_view. rewrite Ha, Hl.
  unfold commit, filteredNotes. cbn [selectedDate searchTerm voiceNotes setSelectedDate].
  rewrite (filter_notes_breaks _ _ _ (note_breaks_render _ n _ Hn Hd Ht)).
  repeat split.
Qed.

(** X18.  When the saved record holds a note of the day of the mount whose
    [text] is not a string, the first commit has already saved the empty
    collection when the render of the loaded notes throws: the page is
    unmounted and the saved notes are gone, a later load finds none. *)
Theorem broken_note_of_today_wipes_the_record (today : JSDate) (s : Storage)
    (notes : list VoiceNote) (n : VoiceNote) :
  load (item_voiceNotes s) = Hydrated notes ->
  In n notes -> date n = format_yyyy_MM_dd today -> text_is_string n = false ->
  exists w,
    mount today s = Some w /\ app w = None /\
    console w = [Uncaught TypeError] /\
    item_voiceNotes (localStorage w) = Some (stringify_notes []) /\
    load (item_voiceNotes (localStorage w)) = Hydrated [].
Proof.
  intros Hload Hn Hd Ht. unfold mount. rewrite Hload.
  unfold commit, filteredNotes.
  cbn [selectedDate searchTerm voiceNotes setVoiceNotes setIsLoggedIn initialState].
  rewrite (filter_notes_breaks _ _ _ (note_breaks_render _ n _ Hn Hd Ht)).
  eexists. split; [ reflexivity | ]. repeat split.
Qed.

End BrokenNote.

(** ** Reloading *)

Section Reload.

(** X19.  A reload changes nothing: mounting the page again on the storage
    a mount has left, on the same day, gives the same page, the notes being
    typed as the interface types them. *)
Theorem reload_gives_the_same_page (today : JSDate) (s : Storage) (w : World) (st : AppState) :
  mount today s = Some w -> app w = Some st ->
  Forall well_typed (voiceNotes st) ->
  mount today (localStorage w) = Some w.
Proof.
  unfold mount at 1. intros Hm Ha Ht.
  destruct (load (item_voiceNotes s)) as [ | notes | | ] eqn:L; try discriminate.
  - injection Hm as <-. reflexivity.
  - injection Hm as <-.
    apply commit_app in Ha as Hc. destruct Hc as [-> [l Hl]].
    revert Ha. unfold commit at 1 2. rewrite Hl. intros _.
    cbn [localStorage with_localStorage with_app].
    unfold persist. cbn [item_isLoggedIn item_voiceNotes].
    unfold mount. cbn [item_voiceNotes voiceNotes setVoiceNotes] in Ht |- *.
    rewrite (load_persisted notes) by (apply typed_plain; exact Ht).
    unfold commit.
    change (loggedIn (mkStorage (item_isLoggedIn s) (Some (stringify_notes notes))))
      with (loggedIn s).
    rewrite Hl. reflexivity.
  - injection Hm as <-. discriminate Ha.
Qed.

End Reload.

(** ** The day a note is filed under *)

Section Days.

Lemma toString_nonneg n :
  (0 <= n)%Z ->
  JS.Number_toString n = NilEmpty.string_of_uint (N.to_uint (Z.to_N n)).
Proof.
  intros H. destruct n as [ | p | p ]; [ reflexivity | | lia ].
  unfold JS.Number_toString. simpl.
  pose proof (DecimalPos.Unsigned.to_uint_nonnil p) as N.
  destruct (Pos.to_uint p); [ congruence | reflexivity .. ].
Qed.

Lemma digits_of_uint d : all_digits (NilEmpty.string_of_uint d) = true.
Proof. induction d; simpl; auto. Qed.

Lemma all_digits_app a b : all_digits (a ++ b) = all_digits a && all_digits b.
Proof.
  induction a as [ | c a IH ]; simpl; [ reflexivity | ].
  rewrite IH, andb_assoc. reflexivity.
Qed.

Lemma digits_of_zeros m : all_digits (JS.repeat_unit "0"%char m) = true.
Proof. induction m; simpl; auto. Qed.

Lemma decimal_value_padded m d :
  decimal_value (JS.repeat_unit "0"%char m ++ NilEmpty.string_of_uint d) = Some (N.of_uint d).
Proof.
  unfold decimal_value. induction m as [ | m IH ].
  - simpl. rewrite NilEmpty.usu. reflexivity.
  - simpl. destruct (NilEmpty.uint_of_string _) as [u | ]; [ | discriminate IH ].
    simpl in IH |- *. exact IH.
Qed.

Lemma addLeadingZeros_nonneg n k :
  (0 <= n)%Z ->
  exists m,
    addLeadingZeros n k =
    (JS.repeat_unit "0"%char m ++ NilEmpty.string_of_uint (N.to_uint (Z.to_N n)))%string.
Proof.
  intros H. unfold addLeadingZeros, JS.padStart.
  replace (n <? 0)%Z with false by (symmetry; apply Z.ltb_ge; exact H).
  rewrite Z.abs_eq by exact H. rewrite (toString_nonneg n H).
  eexists. reflexivity.
Qed.

Lemma addLeadingZeros_digits n k : (0 <= n)%Z -> all_digits (addLeadingZeros n k) = true.
Proof.
  intros H. destruct (addLeadingZeros_nonneg n k H) as [m ->].
  rewrite all_digits_app, digits_of_zeros, digits_of_uint. reflexivity.
Qed.

Lemma addLeadingZeros_value n k :
  (0 <= n)%Z -> decimal_value (addLeadingZeros n k) = Some (Z.to_N n).
Proof.
  intros H. destruct (addLeadingZeros_nonneg n k H) as [m ->].
  rewrite decimal_value_padded, DecimalN.Unsigned.of_to. reflexivity.
Qed.

Lemma addLeadingZeros_inj n n' k :
  (0 <= n)%Z -> (0 <= n')%Z -> addLeadingZeros n k = addLeadingZeros n' k -> n = n'.
Proof.
  intros H H' E.
  pose proof (addLeadingZeros_value n k H) as V. rewrite E in V.
  rewrite (addLeadingZeros_value n' k H') in V. injection V as V.
  apply Z2N.inj in V; lia.
Qed.

(** Two digit strings followed by a hyphen split the same way. *)
Lemma split_at_hyphen a a' r r' :
  all_digits a = true -> all_digits a' = true ->
  (a ++ String "-"%char r)%string = (a' ++ String "-"%char r')%string ->
  a = a' /\ r = r'.
Proof.
  revert a'. induction a as [ | c a IH ]; intros [ | c' a' ] Ha Ha' E; simpl in *.
  - injection E as <-. auto.
  - injection E as <- _. apply andb_true_iff in Ha' as [Hc _]. discriminate Hc.
  - injection E as -> _. apply andb_true_iff in Ha as [Hc _]. discriminate Hc.
  - injection E as <- E. apply andb_true_iff in Ha as [_ Ha].
    apply andb_true_iff in Ha' as [_ Ha']. destruct (IH a' Ha Ha' E) as [-> ->]. auto.
Qed.

(** X20.  Two dates of the common era are filed under the same string only
    when they are the same day, so a note with a string text is listed,
    under an empty search, on the day it was filed and on no other.  The
    year 0 is printed like the year 1, so the restriction is needed. *)
Theorem different_days_are_filed_apart (d d' : JSDate) :
  common_era d -> common_era d' ->
  (format_yyyy_MM_dd d = format_yyyy_MM_dd d' -> d = d') /\
  (forall i t c,
     shown (format_yyyy_MM_dd d') EmptyString
           (mkNote i (format_yyyy_MM_dd d) (Some (JString t)) c) = true <-> d = d') /\
  (forall m day, format_yyyy_MM_dd (mkDate 0 m day) = format_yyyy_MM_dd (mkDate 1 m day)).
Proof.
  intros (Hy & Hm & Hd) (Hy' & Hm' & Hd').
  assert (Inj : format_yyyy_MM_dd d = format_yyyy_MM_dd d' -> d = d').
  { unfold format_yyyy_MM_dd. cbv zeta.
    replace (0 <? getFullYear d)%Z with true by (symmetry; apply Z.ltb_lt; lia).
    replace (0 <? getFullYear d')%Z with true by (symmetry; apply Z.ltb_lt; lia).
    intros E.
    apply split_at_hyphen in E as [Ey E];
      [ | apply addLeadingZeros_digits; lia | apply addLeadingZeros_digits; lia ].
    apply split_at_hyphen in E as [Em Ed];
      [ | apply addLeadingZeros_digits; lia | apply addLeadingZeros_digits; lia ].
    apply addLeadingZeros_inj in Ey; [ | lia | lia ].
    apply addLeadingZeros_inj in Em; [ | lia | lia ].
    apply addLeadingZeros_inj in Ed; [ | lia | lia ].
    destruct d, d'. simpl in *. f_equal; lia. }
  split; [ exact Inj | ]. split; [ | reflexivity ].
  intros i t c. unfold shown. cbn [date text].
  replace (JS.includes (JS.toLowerCase t) (JS.toLowerCase EmptyString)) with true
    by (symmetry; simpl; destruct (JS.toLowerCase t); reflexivity).
  rewrite andb_true_r, String.eqb_eq. split; [ apply Inj | intros ->; reflexivity ].
Qed.

End Days.

(** ** The stop button *)

Section StopButton.

Lemma filteredNotes_setMediaRecorder m st :
  filteredNotes (setMediaRecorder m st) = filteredNotes st.
Proof. reflexivity. Qed.

(** X21.  [stopRecording] acts on the recorder of the [mediaRecorder] cell,
    whichever session made it.  In a first session a click on stop while the
    device request is pending finds no recorder and does nothing.  In a later
    session the cell still holds the inactive recorder of the session before:
    the click clears the recording flag, and when the device is then granted
    the new recorder records with no stop button on the page. *)
Theorem stop_click_before_the_grant (w : World) (st : AppState) :
  healthy w -> app w = Some st -> isLoggedIn st = true -> recording st = false ->
  let rq := List.length (mediaRequests w) in
  let rid := List.length (recorders w) in
  (mediaRecorder st = None ->
   step (step w ClickRecord) ClickStop = step w ClickRecord) /\
  (forall old rc, mediaRecorder st = Some old ->
     nth_error (recorders w) old = Some rc -> rec_state rc = RecInactive ->
     let w' := run w [ClickRecord; ClickStop; MediaGranted rq] in
     app w' = Some (setMediaRecorder (Some rid) st) /\
     recorders w' = (recorders w ++ [mkRecorder st RecRecording []])%list /\
     fetches w' = fetches w /\
     step w' ClickStop = w').
Proof.
  intros Hh Ha Hl Hr. destruct (Hh st Ha) as [l Hf]. cbv zeta.
  assert (S1 : step w ClickRecord =
               with_app (Some (setRecording true st))
                        (with_mediaRequests ((mediaRequests w ++ [mkRequest st false])%list) w)).
  { unfold step, on_view. rewrite Ha, Hl, Hr. unfold startRecording, commit.
    rewrite filteredNotes_setRecording, Hf. reflexivity. }
  split.
  - intros Hm. rewrite S1. unfold step, on_view, stopRecording. simpl.
    rewrite Hl, Hm. reflexivity.
  - intros old rc Hm Hrc Hin. unfold run. cbn [fold_left]. rewrite S1.
    set (w1 := with_app _ _).
    assert (S2 : step w1 ClickStop = with_app (Some st) w1).
    { unfold step, on_view, stopRecording. subst w1. simpl. rewrite Hl, Hm.
      unfold recorder_stop. simpl. rewrite Hrc, Hin. unfold commit.
      rewrite !filteredNotes_setRecording, Hf. destruct st; simpl in *. subst. reflexivity. }
    rewrite S2. clear S2. subst w1. set (w2 := with_app (Some st) _).
    assert (S3 : step w2 (MediaGranted (List.length (mediaRequests w))) =
                 with_app (Some (setMediaRecorder (Some (List.length (recorders w))) st))
                   (with_recorders
                      ((recorders w ++ [mkRecorder st RecRecording []])%list)
                      (with_mediaRequests
                         (replace_nth (List.length (mediaRequests w)) (mkRequest st true)
                                      (mediaRequests w2)) w2))).
    { unfold step. subst w2. cbn [mediaRequests with_app with_mediaRequests].
      rewrite nth_error_snoc. cbn [rq_settled rq_render].
      unfold startRecording_granted, setState. simpl.
      unfold commit. rewrite filteredNotes_setMediaRecorder, Hf. reflexivity. }
    rewrite S3. clear S3.
    split; [ reflexivity | ]. split; [ reflexivity | ]. split; [ reflexivity | ].
    unfold step, on_view. simpl. rewrite Hl, Hr. reflexivity.
Qed.

End StopButton.

(** ** The further properties on sample pages *)

Section Scenarios.
Import Example Scenario.

Lemma stocked_in_sync : in_sync stocked.
Proof. intros st H. injection H as <-. reflexivity. Qed.

Lemma locked_healthy : healthy locked.
Proof. intros st H. injection H as <-. eexists. reflexivity. Qed.

Lemma deleteNote_removes_the_id_witness :
  existsb (has_id "1704900000000") [noteB] = false /\
  deleteNote "1704900000000" [noteA; noteB] = [noteB] /\
  deleteNote "1704900000000" [noteB] = [noteB].
Proof.
  destruct (deleteNote_removes_the_id "1704900000000" [noteB]) as (_ & _ & _ & _ & H).
  split; [ reflexivity | ]. split; [ reflexivity | ]. apply H. reflexivity.
Defined.

Lemma distinct_ids_one_note_affected_witness :
  NoDup (map id [noteA; noteB]) /\ In "1704900000500" (map id [noteA; noteB]) /\
  S (List.length (deleteNote "1704900000500" [noteA; noteB])) = 2%nat /\
  NoDup (map id (deleteNote "1704900000500" [noteA; noteB])) /\
  NoDup (map id (toggleNoteCompletion "1704900000500" [noteA; noteB])).
Proof.
  assert (D : NoDup (map id [noteA; noteB])).
  { repeat constructor; simpl; intuition discriminate. }
  assert (I : In "1704900000500" (map id [noteA; noteB])) by (simpl; auto).
  destruct (distinct_ids_one_note_affected "1704900000500" [noteA; noteB] D I)
    as (L & D1 & D2 & _).
  split; [ exact D | ]. split; [ exact I | ]. split; [ exact L | ].
  split; [ exact D1 | exact D2 ].
Defined.

Lemma filter_throws_on_a_note_of_the_day_without_text_witness :
  In blank [noteA; blank] /\ date blank = "2024-01-11" /\ text_is_string blank = false /\
  filter_notes "2024-01-11" EmptyString [noteA; blank] = Throw TypeError /\
  existsb (breaks_render "2024-01-10") [noteA; blank] = false /\
  filter_notes "2024-01-10" EmptyString [noteA; blank] = Normal [noteA].
Proof.
  split; [ simpl; auto | ]. split; [ reflexivity | ]. split; [ reflexivity | ].
  split.
  - apply (filter_throws_on_a_note_of_the_day_without_text "2024-01-11" EmptyString
             [noteA; blank]).
    exists blank. split; [ simpl; auto | ]. split; reflexivity.
  - split; [ reflexivity | ].
    apply (filter_throws_on_a_note_of_the_day_without_text "2024-01-10" EmptyString
             [noteA; blank]).
    reflexivity.
Defined.

Lemma longer_term_narrows_the_list_witness :
  let day := UTF16.of_string "2024-01-10" in
  let term := UTF16.of_string "BUY" in
  let more := UTF16.of_string " Milk" in
  Forall (fun n => forallb UTF16.latin1 (UTF16.text n) = true) [wideA; wideB] /\
  forallb UTF16.latin1 (term ++ more) = true /\
  UTF16.filter_notes day term [wideA; wideB] = Some [wideA] /\
  exists longer,
    UTF16.filter_notes day (term ++ more) [wideA; wideB] = Some longer /\
    UTF16.filter_notes day (term ++ more) [wideA] = Some longer /\
    forall n, In n longer -> In n [wideA].
Proof.
  cbv zeta.
  assert (A : Forall (fun n => forallb UTF16.latin1 (UTF16.text n) = true) [wideA; wideB])
    by (repeat constructor).
  split; [ exact A | ]. split; [ reflexivity | ]. split; [ reflexivity | ].
  destruct (longer_term_narrows_the_list (UTF16.of_string "2024-01-10")
              (UTF16.of_string "BUY") (UTF16.of_string " Milk") [wideA; wideB] [wideA]
              A eq_refl eq_refl) as (E & _).
  exact E.
Defined.

Lemma filteredNotes_is_query_witness :
  Forall (fun n => forallb UTF16.latin1 (UTF16.text n) = true) [wideA; wideB] /\
  forallb UTF16.latin1 (UTF16.of_string "MILK") = true /\
  UTF16.filteredNotes [wideA; wideB] jan10 (UTF16.of_string "MILK") = Some [wideA] /\
  Spec.query (UTF16.of_string "2024-01-10") [] [wideA; wideB] = [wideA] /\
  exists l, filteredNotes two_notes = Normal l /\ map wide l = [wideA].
Proof.
  assert (A : Forall (fun n => forallb UTF16.latin1 (UTF16.text n) = true) [wideA; wideB])
    by (repeat constructor).
  assert (T : Forall well_typed (voiceNotes two_notes))
    by (repeat constructor; eexists; reflexivity).
  destruct (filteredNotes_is_query [wideA; wideB] jan10 (UTF16.of_string "MILK") A eq_refl)
    as (E1 & _ & E2 & E3).
  destruct (E3 (with_app (Some two_notes) idle) two_notes eq_refl T eq_refl eq_refl)
    as (l & R & W & _).
  split; [ exact A | ]. split; [ reflexivity | ]. split; [ exact E1 | ].
  split; [ exact E2 | ].
  exists l. split; [ exact R | rewrite W; reflexivity ].
Defined.

Lemma term_ending_in_sigma_is_missed_witness :
  UTF16.text jewel =
    ([0x39A] ++ [0x39F; UTF16.capital_sigma] ++ 0x39C :: [0x397; 0x39C; 0x391])%N /\
  UTF16.cased 0x39F = true /\ UTF16.cased 0x39C = true /\
  (exists post, UTF16.text jewel = kos ++ post) /\
  UTF16.toLowerCase kos = Some [0x3BA; 0x3BF; 0x3C2]%N /\
  UTF16.toLowerCase kosmima = Some [0x3BA; 0x3BF; 0x3C3; 0x3BC; 0x3B7; 0x3BC; 0x3B1]%N /\
  Spec.query (UTF16.of_string "2024-01-10") kos [wideA; jewel] = [jewel] /\
  UTF16.filteredNotes [wideA; jewel] jan10 kos = Some [] /\
  forall l, UTF16.filteredNotes [wideA; jewel] jan10 kos = Some l -> ~ In jewel l.
Proof.
  split; [ reflexivity | ]. split; [ reflexivity | ]. split; [ reflexivity | ].
  split; [ exists [0x39C; 0x397; 0x39C; 0x391]%N; reflexivity | ].
  split; [ reflexivity | ]. split; [ reflexivity | ]. split; [ reflexivity | ].
  split; [ reflexivity | ].
  destruct (term_ending_in_sigma_is_missed [0x39A]%N [0x397; 0x39C; 0x391]%N 0x39F%N 0x39C%N
              jewel jan10 eq_refl eq_refl eq_refl eq_refl eq_refl) as (_ & _ & _ & _ & S).
  destruct (S [wideA; jewel]) as [_ N]; [ right; left; reflexivity | ].
  exact N.
Defined.

Lemma click_delete_removes_the_listed_note_witness :
  app stocked = Some stocked_state /\ isLoggedIn stocked_state = true /\
  displayed "1704900000000" stocked_state = true /\
  let w' := step stocked (ClickDelete "1704900000000") in
  app w' = Some (setVoiceNotes [noteB] stocked_state) /\
  item_voiceNotes (localStorage w') = Some (stringify_notes [noteB]) /\
  step w' (ClickDelete "1704900000000") = w'.
Proof.
  split; [ reflexivity | ]. split; [ reflexivity | ]. split; [ reflexivity | ].
  destruct (click_delete_removes_the_listed_note stocked stocked_state "1704900000000"
              eq_refl eq_refl) as (H & _).
  destruct (H eq_refl) as (A & B & _ & _ & E).
  cbv zeta. split; [ exact A | ]. split; [ exact B | exact E ].
Defined.

Lemma double_toggle_click_restores_the_page_witness :
  in_sync stocked /\
  app (step stocked (ClickToggle "1704900000000")) <> app stocked /\
  step (step stocked (ClickToggle "1704900000000")) (ClickToggle "1704900000000") = stocked.
Proof.
  split; [ exact stocked_in_sync | ]. split; [ vm_compute; discriminate | ].
  apply (double_toggle_click_restores_the_page stocked "1704900000000" stocked_in_sync).
Defined.

Lemma other_events_leave_the_notes_witness :
  writes_notes (CalendarChange jan11) = false /\
  item_voiceNotes (localStorage (step stocked (CalendarChange jan11))) =
    item_voiceNotes (localStorage stocked) /\
  forall st', app (step stocked (CalendarChange jan11)) = Some st' ->
    exists st, app stocked = Some st /\ voiceNotes st' = voiceNotes st.
Proof.
  split; [ reflexivity | ].
  apply (other_events_leave_the_notes stocked (CalendarChange jan11)). reflexivity.
Defined.

Lemma unmounted_page_saves_nothing_witness :
  app crashed = None /\
  app (run crashed [SubmitLogin "eks"; ClickRecord; ClickDelete "1704900000000"]) = None /\
  localStorage (run crashed [SubmitLogin "eks"; ClickRecord; ClickDelete "1704900000000"]) =
    localStorage crashed.
Proof.
  split; [ reflexivity | ].
  apply (unmounted_page_saves_nothing crashed
           [SubmitLogin "eks"; ClickRecord; ClickDelete "1704900000000"]).
  reflexivity.
Defined.

Lemma login_is_never_undone_witness :
  let es := session ++ [FetchSettled 0 (Response 200 (Json milk)) t0;
                        ClickDelete "1704900000000"; SubmitLogin "no"] in
  (forall st, app idle = Some st -> isLoggedIn st = true) /\
  item_isLoggedIn (localStorage idle) = Some "true" /\
  (forall st, app (run idle es) = Some st -> isLoggedIn st = true) /\
  item_isLoggedIn (localStorage (run idle es)) = Some "true" /\
  loggedIn (localStorage (run idle es)) = true.
Proof.
  cbv zeta.
  assert (H : forall st, app idle = Some st -> isLoggedIn st = true).
  { intros st E. injection E as <-. reflexivity. }
  split; [ exact H | ]. split; [ reflexivity | ].
  apply (login_is_never_undone idle _ H). reflexivity.
Defined.

Lemma login_accepts_one_password_witness :
  healthy locked /\ app locked = Some locked_state /\ isLoggedIn locked_state = false /\
  app (step locked (SubmitLogin "eks")) = Some (setIsLoggedIn true locked_state) /\
  localStorage (step locked (SubmitLogin "eks")) = mkStorage (Some "true") (Some "[]") /\
  app (step locked (SubmitLogin "EKS")) = Some locked_state /\
  localStorage (step locked (SubmitLogin "EKS")) = localStorage locked /\
  loginError locked = EmptyString /\
  loginError (step locked (SubmitLogin "EKS")) = "Incorrect password".
Proof.
  split; [ exact locked_healthy | ]. split; [ reflexivity | ]. split; [ reflexivity | ].
  destruct (login_accepts_one_password locked locked_state "eks" locked_healthy
              eq_refl eq_refl) as (Y & _).
  destruct (login_accepts_one_password locked locked_state "EKS" locked_healthy
              eq_refl eq_refl) as (_ & N).
  destruct (Y eq_refl) as (A & B & _).
  assert (D : "EKS" <> "eks") by discriminate.
  destruct (N D) as (A' & B' & C' & _).
  assert (E : "EKS" <> EmptyString) by discriminate.
  destruct (C' E) as (_ & M).
  split; [ exact A | ]. split; [ exact B | ]. split; [ exact A' | ].
  split; [ exact B' | ]. split; [ reflexivity | exact M ].
Defined.

Lemma nothing_happens_before_login_witness :
  let es := [ClickRecord; SearchInput "milk"; CalendarChange jan11; SubmitLogin "no";
             ClickDelete "1704900000000"; MediaGranted 0] in
  app locked = Some locked_state /\ isLoggedIn locked_state = false /\
  Forall (fun e => logs_in e = false) es /\
  app (run locked es) = Some locked_state /\
  localStorage (run locked es) = localStorage locked /\
  mediaRequests (run locked es) = [].
Proof.
  cbv zeta. split; [ reflexivity | ]. split; [ reflexivity | ].
  assert (F : Forall (fun e => logs_in e = false)
                [ClickRecord; SearchInput "milk"; CalendarChange jan11; SubmitLogin "no";
                 ClickDelete "1704900000000"; MediaGranted 0])
    by (repeat constructor).
  split; [ exact F | ].
  destruct (nothing_happens_before_login locked locked_state _ eq_refl eq_refl
              eq_refl eq_refl eq_refl F) as (A & B & C & _).
  split; [ exact A | ]. split; [ exact B | exact C ].
Defined.

Lemma network_failure_inserts_nothing_witness :
  let w' := step awaiting (FetchSettled 0 NetworkFailure t0) in
  healthy awaiting /\
  nth_error (fetches awaiting) 0 = Some (mkFetch idle_state EmptyString false) /\
  option_map voiceNotes (app w') = option_map voiceNotes (app awaiting) /\
  option_map recording (app w') = option_map (fun _ => false) (app awaiting) /\
  localStorage w' = localStorage awaiting /\
  console w' = console awaiting ++ [ConsoleError "Error transcribing audio:" TypeError].
Proof.
  cbv zeta. split; [ exact awaiting_healthy | ]. split; [ reflexivity | ].
  apply (network_failure_inserts_nothing awaiting 0 (mkFetch idle_state EmptyString false) t0).
  - exact awaiting_healthy.
  - reflexivity.
  - reflexivity.
Defined.

Lemma finally_clears_the_recording_flag_witness :
  let w := run idle [ClickRecord; MediaGranted 0; RecorderStop 0] in
  let w' := step w (FetchSettled 0 (Response 500 NotJson) t0) in
  nth_error (fetches w) 0 = Some (mkFetch idle_state EmptyString false) /\
  option_map recording (app w) = Some true /\
  (forall st', app w' = Some st' -> recording st' = false) /\
  recorders w' = recorders w /\
  mediaRequests w' = mediaRequests w /\
  nth_error (fetches w') 0 = Some (mkFetch idle_state EmptyString true).
Proof.
  cbv zeta. split; [ reflexivity | ]. split; [ reflexivity | ].
  apply (finally_clears_the_recording_flag
           (run idle [ClickRecord; MediaGranted 0; RecorderStop 0]) 0
           (mkFetch idle_state EmptyString false) (Response 500 NotJson) t0).
  - reflexivity.
  - reflexivity.
Defined.

Lemma settled_transcription_overwrites_the_notes_witness :
  let w' := step awaiting (FetchSettled 0 (Response 200 (Json milk)) t0) in
  app awaiting = Some awaiting_state /\
  nth_error (fetches awaiting) 0 = Some (mkFetch idle_state EmptyString false) /\
  ok 200 = true /\ data_text milk = Normal (Some (JString "buy milk")) /\
  app w' = Some (mkState true jan10 [noteA] false (Some 0%nat) EmptyString) /\
  item_voiceNotes (localStorage w') = Some (stringify_notes [noteA]) /\
  console w' = console awaiting.
Proof.
  cbv zeta. split; [ reflexivity | ]. split; [ reflexivity | ].
  split; [ reflexivity | ]. split; [ reflexivity | ].
  apply (settled_transcription_overwrites_the_notes awaiting awaiting_state 0
           (mkFetch idle_state EmptyString false) 200 milk "buy milk" t0);
    try reflexivity.
  constructor.
Defined.

Lemma chunks_are_posted_in_arrival_order_witness :
  let w' := step (run taping (map (DataAvailable 0) ["RIFF"; "data"; "tail"]))
                 (RecorderStop 0) in
  nth_error (recorders taping) 0 = Some (mkRecorder idle_state RecRecording []) /\
  fetches w' = [mkFetch idle_state "RIFFdatatail" false] /\
  app w' = app taping /\
  localStorage w' = localStorage taping.
Proof.
  cbv zeta. split; [ reflexivity | ].
  apply (chunks_are_posted_in_arrival_order taping 0 (mkRecorder idle_state RecRecording [])
           ["RIFF"; "data"; "tail"]).
  - reflexivity.
  - discriminate.
Defined.

Lemma selecting_the_day_of_a_broken_note_unmounts_witness :
  app fragile = Some fragile_state /\ isLoggedIn fragile_state = true /\
  In blank (voiceNotes fragile_state) /\ date blank = format_yyyy_MM_dd jan11 /\
  text_is_string blank = false /\
  app (step fragile (CalendarChange jan11)) = None /\
  console (step fragile (CalendarChange jan11)) = [Uncaught TypeError] /\
  localStorage (step fragile (CalendarChange jan11)) = localStorage fragile.
Proof.
  split; [ reflexivity | ]. split; [ reflexivity | ].
  assert (I : In blank (voiceNotes fragile_state)) by (simpl; auto).
  split; [ exact I | ]. split; [ reflexivity | ]. split; [ reflexivity | ].
  apply (selecting_the_day_of_a_broken_note_unmounts fragile fragile_state jan11 blank
           eq_refl eq_refl I eq_refl eq_refl).
Defined.

Lemma broken_note_of_today_wipes_the_record_witness :
  load (item_voiceNotes saved_blank) = Hydrated [blank] /\
  date blank = format_yyyy_MM_dd jan11 /\ text_is_string blank = false /\
  exists w,
    mount jan11 saved_blank = Some w /\ app w = None /\
    console w = [Uncaught TypeError] /\
    item_voiceNotes (localStorage w) = Some (stringify_notes []) /\
    load (item_voiceNotes (localStorage w)) = Hydrated [].
Proof.
  assert (L : load (item_voiceNotes saved_blank) = Hydrated [blank]) by (vm_compute; reflexivity).
  split; [ exact L | ]. split; [ reflexivity | ]. split; [ reflexivity | ].
  apply (broken_note_of_today_wipes_the_record jan11 saved_blank [blank] blank L).
  - simpl. auto.
  - reflexivity.
  - reflexivity.
Defined.

Lemma reload_gives_the_same_page_witness :
  mount jan10 spaced = Some restored /\ app restored = Some restored_state /\
  Forall well_typed (voiceNotes restored_state) /\
  localStorage restored <> spaced /\
  mount jan10 (localStorage restored) = Some restored.
Proof.
  assert (M : mount jan10 spaced = Some restored) by (vm_compute; reflexivity).
  assert (T : Forall well_typed (voiceNotes restored_state))
    by (repeat constructor; eexists; reflexivity).
  split; [ exact M | ]. split; [ reflexivity | ]. split; [ exact T | ].
  split; [ vm_compute; discriminate | ].
  apply (reload_gives_the_same_page jan10 spaced restored restored_state M eq_refl T).
Defined.

Lemma different_days_are_filed_apart_witness :
  common_era jan10 /\ common_era jan11 /\
  format_yyyy_MM_dd jan10 <> format_yyyy_MM_dd jan11 /\
  shown (format_yyyy_MM_dd jan10) EmptyString noteA = true.
Proof.
  assert (A : common_era jan10) by (unfold common_era; simpl; lia).
  assert (B : common_era jan11) by (unfold common_era; simpl; lia).
  split; [ exact A | ]. split; [ exact B | ].
  split.
  - intros E. apply (different_days_are_filed_apart jan10 jan11 A B) in E. discriminate E.
  - destruct (different_days_are_filed_apart jan10 jan10 A A) as (_ & S & _).
    apply (S "1704900000000" "buy milk" false). reflexivity.
Defined.

Lemma finished_healthy : healthy finished.
Proof. apply healthy_run, awaiting_healthy. Qed.

Lemma stop_click_before_the_grant_witness :
  let w' := run finished [ClickRecord; ClickStop; MediaGranted 1] in
  healthy finished /\ app finished = Some finished_state /\
  nth_error (recorders finished) 0 = Some (mkRecorder idle_state RecInactive []) /\
  step (step idle ClickRecord) ClickStop = step idle ClickRecord /\
  app w' = Some (setMediaRecorder (Some 1%nat) finished_state) /\
  recorders w' = (recorders finished ++ [mkRecorder finished_state RecRecording []])%list /\
  fetches w' = fetches finished /\
  step w' ClickStop = w'.
Proof.
  cbv zeta. split; [ exact finished_healthy | ]. split; [ reflexivity | ].
  split; [ reflexivity | ].
  destruct (stop_click_before_the_grant idle idle_state idle_healthy eq_refl eq_refl eq_refl)
    as (First & _).
  destruct (stop_click_before_the_grant finished finished_state finished_healthy
              eq_refl eq_refl eq_refl) as (_ & Later).
  split; [ exact (First eq_refl) | ].
  exact (Later 0%nat (mkRecorder idle_state RecInactive []) eq_refl eq_refl eq_refl).
Defined.

Lemma settled_transcription_defeats_the_guard_witness :
  let settled := step second_take (FetchSettled 0 (Response 200 (Json milk)) t0) in
  let again := step settled ClickRecord in
  app second_take = Some second_take_state /\
  map rec_state (recorders second_take) = [RecInactive; RecRecording] /\
  nth_error (fetches second_take) 0 = Some (mkFetch idle_state EmptyString false) /\
  app settled = Some (mkState true jan10 [noteA] false (Some 1%nat) EmptyString) /\
  map rec_state (recorders (step again (MediaGranted 2))) =
    [RecInactive; RecRecording; RecRecording] /\
  step second_take ClickRecord = second_take /\
  List.length (mediaRequests second_take) = 2%nat /\
  List.length (mediaRequests again) = 3%nat.
Proof.
  cbv zeta. split; [ reflexivity | ]. split; [ reflexivity | ]. split; [ reflexivity | ].
  split; [ reflexivity | ]. split; [ reflexivity | ].
  destruct (settled_transcription_defeats_the_guard second_take second_take_state
              (mkState true jan10 [noteA] false (Some 1%nat) EmptyString) 0 1
              (mkFetch idle_state EmptyString false)
              (mkRecorder awaiting_state RecRecording [])
              (Response 200 (Json milk)) t0
              eq_refl eq_refl eq_refl eq_refl eq_refl eq_refl eq_refl eq_refl)
    as (G & _ & L & _).
  split; [ exact G | ]. split; [ reflexivity | exact L ].
Defined.

End Scenarios.
